(** * wlvncc: the client-side framebuffer engine of [src/vncviewer.c]

    A shallow embedding of the rectangle operations ([FillRectangle],
    [CopyRectangle], [CopyRectangleFromRectangle]), of the framebuffer
    allocation ([MallocFrameBuffer]), of the session teardown
    ([rfbClientCleanup]) and of the credential callbacks ([ReadPassword],
    [ReadUsernameAndPassword], [RunAuthCommand], [ReadX509Creds],
    [GetCredentials]).

    Conventions of the embedding.
    - A C [int] is a [Z] and every [int] operation is followed by the
      two's-complement wrap-around [CInt.wrap] (signed overflow is undefined
      in C; the theorems that follow the loops to their end state the bound
      under which no operation wraps: [cells_fit_int], [bytes_fit_int]).
    - The framebuffer is the byte array the code owns: [list byte], [None]
      for the NULL pointer.  A [uintN_t] access goes through the host's
      byte order, which is a parameter.
    - An access outside the owned bytes, or through a NULL pointer, is
      [Fault]; a loop that is still running when the fuel is used up is
      [Diverge].  [rfbClientLog] only prints a diagnostic and is left out of
      the rectangle operations. *)

From Stdlib Require Import String Ascii ZArith List Lia Bool.
From coqutil Require Import Byte Word.LittleEndianList.
From coqutil Require Datatypes.List.
Import ListNotations.
Local Open Scope Z_scope.

(** ** C integers *)

Module CInt.

Definition INT_MAX : Z := 2147483647.
Definition INT_MIN : Z := -2147483648.

(** Two's-complement reduction of a mathematical result to 32 bits. *)
Definition wrap (z : Z) : Z := (z + 2 ^ 31) mod 2 ^ 32 - 2 ^ 31.

Definition add (a b : Z) : Z := wrap (a + b).
Definition sub (a b : Z) : Z := wrap (a - b).
Definition mul (a b : Z) : Z := wrap (a * b).
(** C division truncates towards zero. *)
Definition div (a b : Z) : Z := wrap (Z.quot a b).

Definition in_range (z : Z) : Prop := INT_MIN <= z <= INT_MAX.

(** Conversion of an integer value to an unsigned type of [bits] bits. *)
Definition to_unsigned (bits : Z) (z : Z) : Z := z mod 2 ^ bits.

End CInt.

Infix "+i" := CInt.add (at level 50, left associativity).
Infix "-i" := CInt.sub (at level 50, left associativity).
Infix "*i" := CInt.mul (at level 40, left associativity).
Infix "/i" := CInt.div (at level 40, left associativity).

(** ** Outcomes of a run *)

Inductive outcome (A : Type) : Type :=
| Done (a : A)
| Fault
| Diverge.
Arguments Done {A} a.
Arguments Fault {A}.
Arguments Diverge {A}.

Definition obind {A B} (m : outcome A) (k : A -> outcome B) : outcome B :=
  match m with
  | Done a => k a
  | Fault => Fault
  | Diverge => Diverge
  end.

Notation "x <- m ;; k" := (obind m (fun x => k))
  (at level 61, m at next level, right associativity).

(** [for (j = j0; cond j; j = step j) body] with the loop state threaded
    through [body].  One unit of fuel is spent per iteration. *)
Fixpoint for_loop {S : Type} (fuel : nat) (cond : Z -> bool) (step : Z -> Z)
    (body : Z -> S -> outcome S) (j : Z) (s : S) : outcome S :=
  if cond j then
    match fuel with
    | O => Diverge
    | Datatypes.S fuel' =>
        s' <- body j s ;; for_loop fuel' cond step body (step j) s'
    end
  else Done s.

(** ** The owned byte array and typed accesses to it *)

Section Memory.

(** Byte order of the host ([endianTest] in [rfbGetClient]). *)
Variable host_big_endian : bool.

Definition in_bounds (mem : list byte) (off n : Z) : bool :=
  (0 <=? off) && (0 <=? n) && (off + n <=? Z.of_nat (length mem)).

Definition load_bytes (mem : list byte) (off n : Z) : outcome (list byte) :=
  if in_bounds mem off n
  then Done (firstn (Z.to_nat n) (skipn (Z.to_nat off) mem))
  else Fault.

Definition store_bytes (mem : list byte) (off : Z) (bs : list byte)
  : outcome (list byte) :=
  if in_bounds mem off (Z.of_nat (length bs))
  then Done (List.upds mem (Z.to_nat off) bs)
  else Fault.

(** The bytes of a [uintN_t] value, [n] bytes wide, and back. *)
Definition encode (n : nat) (v : Z) : list byte :=
  if host_big_endian then rev (le_split n v) else le_split n v.

Definition decode (bs : list byte) : Z :=
  le_combine (if host_big_endian then rev bs else bs).

(** [((uintBPP_t* )mem)[k]] as an rvalue and as an lvalue. *)
Definition load_uint (BPP : Z) (mem : list byte) (k : Z) : outcome Z :=
  bs <- load_bytes mem (k * (BPP / 8)) (BPP / 8) ;; Done (decode bs).

Definition store_uint (BPP : Z) (mem : list byte) (k : Z) (v : Z)
  : outcome (list byte) :=
  store_bytes mem (k * (BPP / 8)) (encode (Z.to_nat (BPP / 8)) v).

(** [memcpy (dst + doff, src + soff, n)]; [n] is a [size_t], so a negative
    [int] argument asks for more than any object holds. *)
Definition memcpy (dst : list byte) (doff : Z) (src : list byte) (soff : Z)
    (n : Z) : outcome (list byte) :=
  bs <- load_bytes src soff n ;; store_bytes dst doff bs.

End Memory.

(** ** The session object *)

Record rfbPixelFormat : Type := {
  bitsPerPixel : Z;
  depth : Z;
  bigEndian : bool;
  trueColour : Z;
  redMax : Z; greenMax : Z; blueMax : Z;
  redShift : Z; greenShift : Z; blueShift : Z
}.

(** Heap blocks other than the framebuffer are known by their address. *)
Definition ptr : Type := Z.

Record rfbClient : Type := {
  frameBuffer : option (list byte);
  width : Z;
  height : Z;
  format : rfbPixelFormat;
  zlibStreamActive : list bool;
  decompStreamInited : bool;
  ultra_buffer : option ptr;
  raw_buffer : option ptr;
  clientData : list ptr;
  vncRec : option ptr;
  sock : Z;
  listenSock : Z;
  listen6Sock : Z;
  desktopName : option ptr;
  serverHost : option ptr;
  destHost : option ptr;
  clientAuthSchemes : option ptr;
  saslSecret : option ptr
}.

Definition set_frameBuffer (c : rfbClient) (fb : option (list byte)) : rfbClient :=
  {| frameBuffer := fb; width := width c; height := height c;
     format := format c; zlibStreamActive := zlibStreamActive c;
     decompStreamInited := decompStreamInited c;
     ultra_buffer := ultra_buffer c; raw_buffer := raw_buffer c;
     clientData := clientData c; vncRec := vncRec c; sock := sock c;
     listenSock := listenSock c; listen6Sock := listen6Sock c;
     desktopName := desktopName c; serverHost := serverHost c;
     destHost := destHost c; clientAuthSchemes := clientAuthSchemes c;
     saslSecret := saslSecret c |}.

(** ** Rectangle operations *)

Section RectEngine.

Variable host_big_endian : bool.

Definition CheckRect (client : rfbClient) (x y w h : Z) : bool :=
  (x +i w <=? width client) && (y +i h <=? height client).

Definition FILL_RECT (BPP : Z) (fuel : nat) (client : rfbClient)
    (x y w h colour : Z) (fb : list byte) : outcome (list byte) :=
  for_loop fuel
    (fun j => j <? (y +i h) *i width client)
    (fun j => j +i width client)
    (fun j fb =>
       for_loop fuel (fun i => i <? x +i w) (fun i => i +i 1)
         (fun i fb => store_uint host_big_endian BPP fb (j +i i) colour)
         x fb)
    (y *i width client) fb.

Definition FillRectangle (fuel : nat) (client : rfbClient)
    (x y w h : Z) (colour : Z) : outcome rfbClient :=
  match frameBuffer client with
  | None => Done client
  | Some fb =>
      if negb (CheckRect client x y w h) then Done client
      else
        match bitsPerPixel (format client) with
        | 8 => fb' <- FILL_RECT 8 fuel client x y w h colour fb ;;
               Done (set_frameBuffer client (Some fb'))
        | 16 => fb' <- FILL_RECT 16 fuel client x y w h colour fb ;;
                Done (set_frameBuffer client (Some fb'))
        | 32 => fb' <- FILL_RECT 32 fuel client x y w h colour fb ;;
                Done (set_frameBuffer client (Some fb'))
        | _ => Done client
        end
  end.

(** The loop state of [COPY_RECT] is the framebuffer and the offset that
    [buffer += rs] has reached in the source. *)
Definition COPY_RECT (BPP : Z) (fuel : nat) (client : rfbClient)
    (buffer : list byte) (x y w h : Z) (fb : list byte)
  : outcome (list byte * Z) :=
  let rs := w *i BPP /i 8 in
  let rs2 := width client *i BPP /i 8 in
  for_loop fuel
    (fun j => j <? (y +i h) *i rs2)
    (fun j => j +i rs2)
    (fun j '(fb, boff) =>
       fb' <- memcpy fb j buffer boff rs ;; Done (fb', boff + rs))
    ((x *i (BPP /i 8)) +i (y *i rs2)) (fb, 0).

Definition CopyRectangle (fuel : nat) (client : rfbClient)
    (buffer : list byte) (x y w h : Z) : outcome rfbClient :=
  match frameBuffer client with
  | None => Done client
  | Some fb =>
      if negb (CheckRect client x y w h) then Done client
      else
        match bitsPerPixel (format client) with
        | 8 => r <- COPY_RECT 8 fuel client buffer x y w h fb ;;
               Done (set_frameBuffer client (Some (fst r)))
        | 16 => r <- COPY_RECT 16 fuel client buffer x y w h fb ;;
                Done (set_frameBuffer client (Some (fst r)))
        | 32 => r <- COPY_RECT 32 fuel client buffer x y w h fb ;;
                Done (set_frameBuffer client (Some (fst r)))
        | _ => Done client
        end
  end.

(** [fb[j+i] = _buffer[j+i]], where [_buffer] is the framebuffer pointer
    moved by [off] pixels. *)
Definition copy_pixel (BPP : Z) (off : Z) (k : Z) (fb : list byte)
  : outcome (list byte) :=
  v <- load_uint host_big_endian BPP fb (off + k) ;;
  store_uint host_big_endian BPP fb k v.

Definition COPY_RECT_FROM_RECT (BPP : Z) (fuel : nat) (client : rfbClient)
    (src_x src_y w h dest_x dest_y : Z) (fb : list byte)
  : outcome (list byte) :=
  let off := (src_y -i dest_y) *i width client + src_x - dest_x in
  let row (j : Z) (fb : list byte) :=
    if dest_x <? src_x then
      for_loop fuel (fun i => i <? dest_x +i w) (fun i => i +i 1)
        (fun i fb => copy_pixel BPP off (j +i i) fb) dest_x fb
    else
      for_loop fuel (fun i => i >=? dest_x) (fun i => i -i 1)
        (fun i fb => copy_pixel BPP off (j +i i) fb)
        (dest_x +i w -i 1) fb in
  if dest_y <? src_y then
    for_loop fuel
      (fun j => j <? (dest_y +i h) *i width client)
      (fun j => j +i width client)
      row (dest_y *i width client) fb
  else
    for_loop fuel
      (fun j => j >=? dest_y *i width client)
      (fun j => j -i width client)
      row ((dest_y +i h -i 1) *i width client) fb.

Definition CopyRectangleFromRectangle (fuel : nat) (client : rfbClient)
    (src_x src_y w h dest_x dest_y : Z) : outcome rfbClient :=
  match frameBuffer client with
  | None => Done client
  | Some fb =>
      if negb (CheckRect client src_x src_y w h) then Done client
      else if negb (CheckRect client dest_x dest_y w h) then Done client
      else
        match bitsPerPixel (format client) with
        | 8 => fb' <- COPY_RECT_FROM_RECT 8 fuel client
                        src_x src_y w h dest_x dest_y fb ;;
               Done (set_frameBuffer client (Some fb'))
        | 16 => fb' <- COPY_RECT_FROM_RECT 16 fuel client
                         src_x src_y w h dest_x dest_y fb ;;
                Done (set_frameBuffer client (Some fb'))
        | 32 => fb' <- COPY_RECT_FROM_RECT 32 fuel client
                         src_x src_y w h dest_x dest_y fb ;;
                Done (set_frameBuffer client (Some fb'))
        | _ => Done client
        end
  end.

End RectEngine.

(** ** Allocation of the framebuffer *)

Inductive heap_event : Type :=
| HeapFree (block : list byte)
| HeapMalloc (size : Z)
| HeapErr (msg : string).

Module U64.
Definition of_Z (z : Z) : Z := CInt.to_unsigned 64 z.
Definition mul (a b : Z) : Z := CInt.to_unsigned 64 (a * b).
Definition div (a b : Z) : Z := a / b.
End U64.

Section Allocation.

(** [SIZE_MAX] of the platform, and what [malloc] answers for a size:
    a block (of indeterminate content) or NULL. *)
Variable SIZE_MAX : Z.
Variable malloc : Z -> option (list byte).

(** [(uint64_t)client->width * client->height * client->format.bitsPerPixel/8] *)
Definition allocSize (client : rfbClient) : Z :=
  U64.div
    (U64.mul (U64.mul (U64.of_Z (width client)) (U64.of_Z (height client)))
             (U64.of_Z (bitsPerPixel (format client))))
    (U64.of_Z 8).

Definition MallocFrameBuffer (client : rfbClient)
  : list heap_event * (bool * rfbClient) :=
  let '(freed, client) :=
    match frameBuffer client with
    | Some old => ([HeapFree old], set_frameBuffer client None)
    | None => ([], client)
    end in
  if allocSize client >=? SIZE_MAX then
    (freed ++ [HeapErr "CRITICAL: cannot allocate frameBuffer, requested size is too large"],
     (false, client))
  else
    let size := allocSize client mod (SIZE_MAX + 1) in
    let fb := malloc size in
    let client := set_frameBuffer client fb in
    match fb with
    | None =>
        (freed ++ [HeapMalloc size;
                   HeapErr "CRITICAL: frameBuffer allocation failed, requested size too large or not enough memory?"],
         (false, client))
    | Some _ => (freed ++ [HeapMalloc size], (true, client))
    end.

End Allocation.

(** ** Construction and teardown of the session *)

Inductive cleanup_event : Type :=
| InflateEnd (stream : nat)
| InflateEndDecomp
| CleanupLog (msg : string)
| Free (p : option ptr)
| FreeTLS
| CloseSocket (fd : Z)
| FreeClient.

Section Session.

(** The sentinel of [rfbclient.h], the build options that guard parts of
    the two functions, and the host's byte order. *)
Variable RFB_INVALID_SOCKET : Z.
Variable HAVE_LIBZ : bool.
Variable HAVE_SASL : bool.
Variable host_big_endian : bool.
(** Return code and [msg] field left by [inflateEnd] on a stream:
    [None] for [decompStream], [Some i] for [zlibStream[i]]. *)
Variable inflateEnd : option nat -> Z * option string.
(** [Z_OK] of zlib. *)
Definition Z_OK : Z := 0.

(** The fields of the new session that the operations below read; the
    callback slots, timeouts and port numbers are left out.  [calloc]
    answers NULL ([None]) or a zeroed block; [host] is what [strdup]
    of the empty string returned. *)
Definition rfbGetClient (calloc_ok : bool) (host : option ptr)
    (bitsPerSample samplesPerPixel bytesPerPixel : Z) : option rfbClient :=
  if negb calloc_ok then None
  else
    let bpp := CInt.to_unsigned 8 (bytesPerPixel *i 8) in
    let big := host_big_endian in
    let max := CInt.to_unsigned 16 (CInt.wrap (Z.shiftl 1 bitsPerSample) -i 1) in
    let u8 := CInt.to_unsigned 8 in
    let fmt :=
      if bpp =? 8 then
        {| bitsPerPixel := bpp;
           depth := u8 (bitsPerSample *i samplesPerPixel);
           bigEndian := big; trueColour := 1;
           redMax := 7; greenMax := 7; blueMax := 3;
           redShift := 0; greenShift := 3; blueShift := 6 |}
      else if negb big then
        {| bitsPerPixel := bpp;
           depth := u8 (bitsPerSample *i samplesPerPixel);
           bigEndian := big; trueColour := 1;
           redMax := max; greenMax := max; blueMax := max;
           redShift := 0; greenShift := u8 bitsPerSample;
           blueShift := u8 (bitsPerSample *i 2) |}
      else if bpp =? 8 * 3 then
        {| bitsPerPixel := bpp;
           depth := u8 (bitsPerSample *i samplesPerPixel);
           bigEndian := big; trueColour := 1;
           redMax := max; greenMax := max; blueMax := max;
           redShift := u8 (bitsPerSample *i 2);
           greenShift := u8 (bitsPerSample *i 1); blueShift := 0 |}
      else
        {| bitsPerPixel := bpp;
           depth := u8 (bitsPerSample *i samplesPerPixel);
           bigEndian := big; trueColour := 1;
           redMax := max; greenMax := max; blueMax := max;
           redShift := u8 (bitsPerSample *i 3);
           greenShift := u8 (bitsPerSample *i 2);
           blueShift := u8 bitsPerSample |} in
    Some {| frameBuffer := None; width := 0; height := 0; format := fmt;
            zlibStreamActive := [false; false; false; false];
            decompStreamInited := false;
            ultra_buffer := None; raw_buffer := None;
            clientData := []; vncRec := None;
            sock := RFB_INVALID_SOCKET;
            listenSock := RFB_INVALID_SOCKET;
            listen6Sock := RFB_INVALID_SOCKET;
            desktopName := None;
            serverHost := host;
            destHost := None; clientAuthSchemes := None;
            saslSecret := None |}.

Definition inflateEnd_events (stream : option nat) : list cleanup_event :=
  (match stream with
   | Some i => InflateEnd i
   | None => InflateEndDecomp
   end)
  :: (let '(rc, msg) := inflateEnd stream in
      if negb (rc =? Z_OK) then
        match msg with
        | Some m => [CleanupLog m]
        | None => []
        end
      else []).

Definition free_if_set (p : option ptr) : list cleanup_event :=
  match p with
  | Some _ => [Free p]
  | None => []
  end.

Definition close_if_valid (fd : Z) : list cleanup_event :=
  if negb (fd =? RFB_INVALID_SOCKET) then [CloseSocket fd] else [].

(** The calls [rfbClientCleanup] makes, in order. *)
Definition rfbClientCleanup (client : rfbClient) : list cleanup_event :=
  (if HAVE_LIBZ then
     flat_map
       (fun i => if nth i (zlibStreamActive client) false
                 then inflateEnd_events (Some i) else [])
       (seq 0 4)
     ++ (if decompStreamInited client then inflateEnd_events None else [])
   else [])
  ++ free_if_set (ultra_buffer client)
  ++ free_if_set (raw_buffer client)
  ++ [FreeTLS]
  ++ map (fun node => Free (Some node)) (clientData client)
  ++ [Free (vncRec client)]
  ++ close_if_valid (sock client)
  ++ close_if_valid (listenSock client)
  ++ [Free (desktopName client); Free (serverHost client)]
  ++ free_if_set (destHost client)
  ++ free_if_set (clientAuthSchemes client)
  ++ (if HAVE_SASL then free_if_set (saslSecret client) else [])
  ++ [FreeClient].

(** The descriptors handed to [rfbCloseSocket] by a teardown. *)
Definition closed_sockets (evs : list cleanup_event) : list Z :=
  flat_map (fun e => match e with CloseSocket fd => [fd] | _ => [] end) evs.

End Session.

(** ** Credential callbacks *)

Module Cred.

Local Open Scope string_scope.
Local Open Scope Z_scope.

(** Everything outside the process that the callbacks consult. *)
Record world : Type := {
  auth_command : option string;         (* the global [auth_command] *)
  getenv : string -> option string;
  pipe_ok : bool;                       (* [pipe(fds) >= 0] *)
  fdopen_ok : bool;
  fork_pid : Z;                         (* -1 when [fork] fails *)
  waitpid_rc : Z;
  wifexited : bool;
  wexitstatus : Z;
  (* what the child [shell -c command] writes to its standard output *)
  child_stdout : string -> option string -> string;
  (* the line buffer [getline] leaves behind at end of file *)
  getline_eof : option string;
  tcgetattr_ok : bool;
  tcsetattr_ok : bool;
  (* what is left of the input of the terminal once [tcsetattr] with
     [TCSAFLUSH] has discarded the part received and not yet read *)
  tcflush : string -> string
}.

Inductive event : Type :=
| EvGetenv (name : string)
| EvPrompt (title : string)          (* [fprintf(stderr, "%s: ", title)] *)
| EvReadStdin                        (* [getline] on [stdin] *)
| EvTcGetAttr
| EvTcSetAttr (echo : bool)
| EvPipe
| EvFork
| EvExec (shell : string) (command : option string)
| EvWaitpid
| EvReadPipe                         (* [getline] on the child's output *)
| EvFclose
| EvLog (msg : string).

(** The state the callbacks thread: the input that [stdin] has still to
    deliver, received already or yet to be typed, and the interactions so
    far, oldest first. *)
Record state : Type := {
  stdin : string;
  trace : list event
}.

Definition M (A : Type) : Type := state -> outcome A * state.

Definition ret {A} (a : A) : M A := fun s => (Done a, s).
Definition bind {A B} (m : M A) (k : A -> M B) : M B :=
  fun s => match m s with
           | (Done a, s') => k a s'
           | (Fault, s') => (Fault, s')
           | (Diverge, s') => (Diverge, s')
           end.
Definition fault {A} : M A := fun s => (Fault, s).
Definition emit (e : event) : M unit :=
  fun s => (Done tt, {| stdin := stdin s; trace := trace s ++ [e] |}).

Notation "x <-- m ;; k" := (bind m (fun x => k))
  (at level 61, m at next level, right associativity).
Notation "m ;;; k" := (bind m (fun _ => k))
  (at level 61, right associativity).

Definition newline : ascii := "010"%char.
Definition NUL : ascii := "000"%char.

(** One line of a stream, its terminator included, and the rest. *)
Fixpoint take_line (s : string) : string * string :=
  match s with
  | EmptyString => (EmptyString, EmptyString)
  | String c rest =>
      if Ascii.eqb c newline then (String c EmptyString, rest)
      else let '(l, r) := take_line rest in (String c l, r)
  end.

(** [getline]: the number of characters read (-1 at end of file), the
    line buffer, and the rest of the stream. *)
Definition getline (eof_buffer : option string) (stream : string)
  : Z * option string * string :=
  match stream with
  | EmptyString => (-1, eof_buffer, EmptyString)
  | _ => let '(l, r) := take_line stream in
         (Z.of_nat (String.length l), Some l, r)
  end.

(** [line[len - 1] = 0]: the buffer with its last character cut. *)
Definition chop (line : string) : string :=
  substring 0 (String.length line - 1) line.

(** The C string held by a buffer: what precedes the first NUL. *)
Fixpoint c_string (buf : string) : string :=
  match buf with
  | EmptyString => EmptyString
  | String c rest => if Ascii.eqb c NUL then EmptyString
                     else String c (c_string rest)
  end.

(** [userCredential] of [rfbCredential]. *)
Record rfbCredential : Type := {
  username : option string;
  password : option string
}.

Section WithWorld.

Variable w : world.

Definition ReadLine (title : string) : M (option string) :=
  emit (EvPrompt title) ;;;
  emit EvReadStdin ;;;
  fun s =>
    let '(len, line, rest) := getline (getline_eof w) (stdin s) in
    (Done (if len >? 0 then option_map (fun l => c_string (chop l)) line
           else line),
     {| stdin := rest; trace := trace s |}).

(** [tcsetattr (fileno (stdin), TCSAFLUSH, ...) == 0]: a call that
    succeeds has discarded the input received and not read. *)
Definition tcsetattr (echo : bool) : M bool :=
  emit (EvTcSetAttr echo) ;;;
  if tcsetattr_ok w then
    fun s => (Done true,
              {| stdin := tcflush w (stdin s); trace := trace s |})
  else ret false.

Definition ReadLineNoEcho (title : string) : M (option string) :=
  emit EvTcGetAttr ;;;
  if negb (tcgetattr_ok w) then ret None
  else
    ok <-- tcsetattr false ;;
    if negb ok then ret None
    else
      line <-- ReadLine title ;;
      tcsetattr true ;;;
      ret line.

(** A [char**] argument: [None] is the NULL pointer, [Some v] points to
    a slot that holds [v].  The result carries the return code and the
    two slots as the call leaves them. *)
Definition slot : Type := option (option string).

(** [*p = v] *)
Definition assign (p : slot) (v : option string) : M slot :=
  match p with
  | None => fault
  | Some _ => ret (Some v)
  end.

(** [*p] *)
Definition deref (p : slot) : M (option string) :=
  match p with
  | None => fault
  | Some v => ret v
  end.

Definition is_set (v : option string) : bool :=
  match v with Some _ => true | None => false end.

(** Reads one line of the child's output into [*target] when
    [getline] delivers one. *)
Definition read_into (out : string) (target : slot) : M (slot * string) :=
  emit EvReadPipe ;;;
  let '(len, line, rest) := getline (getline_eof w) out in
  if len >? 0 then
    target' <-- assign target
                  (option_map (fun l => c_string (chop l)) line) ;;
    ret (target', rest)
  else ret (target, rest).

Definition RunAuthCommand (username password : slot)
  : M (Z * slot * slot) :=
  emit EvPipe ;;;
  if negb (pipe_ok w) then
    emit (EvLog "Failed to create pipe") ;;; ret (-1, username, password)
  else if negb (fdopen_ok w) then
    emit (EvLog "Failed to open output stream") ;;;
    ret (-1, username, password)
  else
    emit EvFork ;;;
    if fork_pid w =? -1 then
      emit (EvLog "Failed to fork") ;;; ret (-1, username, password)
    else
      (* the child *)
      emit (EvGetenv "SHELL") ;;;
      let shell := match getenv w "SHELL" with
                   | Some sh => sh
                   | None => "/bin/sh"
                   end in
      emit (EvExec shell (auth_command w)) ;;;
      (* the parent *)
      emit EvWaitpid ;;;
      let rc := waitpid_rc w in
      if rc <? 0 then
        emit (EvLog "Failed to wait for auth script") ;;;
        emit EvFclose ;;;
        ret (rc, username, password)
      else if negb (wifexited w) then
        emit (EvLog "Auth script exited with a failure") ;;;
        emit EvFclose ;;;
        ret (rc, username, password)
      else
        let out := child_stdout w shell (auth_command w) in
        r1 <-- match username with
               | Some _ => read_into out username
               | None => ret (username, out)
               end ;;
        let '(username, out) := r1 in
        r2 <-- read_into out password ;;
        let '(password, out) := r2 in
        (* [( *username && ! *username) || ! *password] *)
        u <-- deref username ;;
        missing_user <-- (if is_set u
                          then u' <-- deref username ;; ret (negb (is_set u'))
                          else ret false) ;;
        missing <-- (if missing_user then ret true
                     else p <-- deref password ;; ret (negb (is_set p))) ;;
        if (missing : bool) then
          emit (EvLog "Did not get credentials from auth script") ;;;
          ret (-1, username, password)
        else emit EvFclose ;;; ret (rc, username, password).

Definition ReadPassword : M (option string) :=
  match auth_command w with
  | Some _ =>
      r <-- RunAuthCommand None (Some None) ;;
      let '(rc, _, password) := r in
      if rc <? 0 then ret None
      else match password with
           | Some p => ret p
           | None => ret None
           end
  | None => ReadLineNoEcho "Password"
  end.

Definition slot_value (p : slot) : option string :=
  match p with Some v => v | None => None end.

(** [calloc], [malloc] and [strdup] are taken to succeed.  [None] is
    the NULL result of the [failure] label. *)
Definition ReadUsernameAndPassword : M (option rfbCredential) :=
  match auth_command w with
  | Some _ =>
      r <-- RunAuthCommand (Some None) (Some None) ;;
      let '(rc, user, pass) := r in
      if rc <? 0 then ret None
      else ret (Some {| username := slot_value user;
                        password := slot_value pass |})
  | None =>
      emit (EvGetenv "VNC_USERNAME") ;;;
      emit (EvGetenv "VNC_PASSWORD") ;;;
      cred <-- match getenv w "VNC_USERNAME", getenv w "VNC_PASSWORD" with
               | Some user, Some pass =>
                   emit (EvLog "Using username and password for VNC authentication 'VNC_USERNAME', 'VNC_PASSWORD'") ;;;
                   ret {| username := Some (c_string user);
                          password := Some (c_string pass) |}
               | _, _ =>
                   user <-- ReadLine "User" ;;
                   pass <-- ReadLineNoEcho "Password" ;;
                   ret {| username := user; password := pass |}
               end ;;
      if negb (is_set (username cred)) || negb (is_set (password cred))
      then ret None
      else ret (Some cred)
  end.

End WithWorld.

(** Events that touch the environment credentials or the terminal. *)
Definition consults_env_or_terminal (e : event) : bool :=
  match e with
  | EvGetenv name => String.eqb name "VNC_USERNAME" || String.eqb name "VNC_PASSWORD"
  | EvPrompt _ | EvReadStdin | EvTcGetAttr | EvTcSetAttr _ => true
  | _ => false
  end.

End Cred.

(** ** Vocabulary of the statements *)

(** The iterations of a loop, laid out as a list. *)
Fixpoint run_list {A S : Type} (body : A -> S -> outcome S) (l : list A)
    (s : S) : outcome S :=
  match l with
  | [] => Done s
  | a :: l' => s' <- body a s ;; run_list body l' s'
  end.

Definition supported (BPP : Z) : Prop := BPP = 8 \/ BPP = 16 \/ BPP = 32.

(** The FrameBuffer invariant of the data model: the session holds the
    byte array [fb], whose length is width x height x bitsPerPixel/8, for a
    supported pixel width and dimensions in the protocol's 16-bit range. *)
Record FrameBuffer_ok (client : rfbClient) (fb : list byte) : Prop := {
  fb_held : frameBuffer client = Some fb;
  fb_bpp : supported (bitsPerPixel (format client));
  fb_width : 0 <= width client <= 65535;
  fb_height : 0 <= height client <= 65535;
  fb_length : Z.of_nat (length fb)
              = width client * height client * (bitsPerPixel (format client) / 8)
}.

(** The bounds that are not part of the data model.  [FILL_RECT] and
    [COPY_RECT_FROM_RECT] count pixel cells in an [int], up to
    width x height; [COPY_RECT] counts bytes in an [int], and its counter
    runs up to one row past the framebuffer's size in bytes. *)
Definition cells_fit_int (client : rfbClient) : Prop :=
  width client * height client <= CInt.INT_MAX.

Definition bytes_fit_int (client : rfbClient) : Prop :=
  (width client * height client + width client)
  * (bitsPerPixel (format client) / 8) <= CInt.INT_MAX.

(** Contains of the data model, for a Rectangle (all four numbers >= 0). *)
Definition contains (client : rfbClient) (x y w h : Z) : Prop :=
  0 <= x /\ 0 <= y /\ 0 <= w /\ 0 <= h /\
  x + w <= width client /\ y + h <= height client.

Definition in_rect (x y w h px py : Z) : bool :=
  (x <=? px) && (px <? x + w) && (y <=? py) && (py <? y + h).

(** The value of the pixel cell in column [px] of row [py]. *)
Definition pixel (host_big_endian : bool) (client : rfbClient)
    (fb : list byte) (px py : Z) : outcome Z :=
  load_uint host_big_endian (bitsPerPixel (format client)) fb
    (py * width client + px).

(** [n] bytes of [l] from offset [off] on. *)
Definition slice (l : list byte) (off n : Z) : list byte :=
  firstn (Z.to_nat n) (skipn (Z.to_nat off) l).

Definition fits (fuel : nat) (n : Z) : Prop := n <= Z.of_nat fuel.

(** The bytes of [n] pixel cells of row [py], from column [px] on. *)
Definition row_bytes (client : rfbClient) (fb : list byte) (px py n : Z)
  : list byte :=
  slice fb ((py * width client + px) * (bitsPerPixel (format client) / 8))
        (n * (bitsPerPixel (format client) / 8)).

(** The [a]-th row and the [b]-th column that the loops of
    [COPY_RECT_FROM_RECT] visit. *)
Definition visit_row (src_y h dest_y : Z) (a : nat) : Z :=
  if dest_y <? src_y then dest_y + Z.of_nat a else dest_y + h - 1 - Z.of_nat a.

Definition visit_col (src_x w dest_x : Z) (b : nat) : Z :=
  if dest_x <? src_x then dest_x + Z.of_nat b else dest_x + w - 1 - Z.of_nat b.

(** [quiet m]: running [m] leaves [stdin] alone and adds to the trace no
    event that reads the credential variables or touches the terminal. *)
Definition quiet_step (st st' : Cred.state) : Prop :=
  Cred.stdin st' = Cred.stdin st /\
  exists new, Cred.trace st' = Cred.trace st ++ new /\
              forallb (fun e => negb (Cred.consults_env_or_terminal e)) new = true.

Definition quiet {A : Type} (m : Cred.M A) : Prop :=
  forall st, quiet_step st (snd (m st)).

(** Two worlds in which the auth command runs alike; they may differ in
    every environment variable but [SHELL], and in the terminal. *)
Record same_command_run (w w' : Cred.world) : Prop := {
  same_auth_command : Cred.auth_command w' = Cred.auth_command w;
  same_shell : Cred.getenv w' "SHELL"%string = Cred.getenv w "SHELL"%string;
  same_pipe : Cred.pipe_ok w' = Cred.pipe_ok w;
  same_fdopen : Cred.fdopen_ok w' = Cred.fdopen_ok w;
  same_fork : Cred.fork_pid w' = Cred.fork_pid w;
  same_waitpid : Cred.waitpid_rc w' = Cred.waitpid_rc w;
  same_wifexited : Cred.wifexited w' = Cred.wifexited w;
  same_stdout : Cred.child_stdout w' = Cred.child_stdout w;
  same_getline_eof : Cred.getline_eof w' = Cred.getline_eof w
}.

(** [m] and [m'] end alike whatever the state they start from. *)
Definition alike {A : Type} (m m' : Cred.M A) : Prop :=
  forall st st', fst (m st) = fst (m' st').

(** The auth command was spawned and has exited normally. *)
Record command_ran (w : Cred.world) : Prop := {
  ran_pipe : Cred.pipe_ok w = true;
  ran_fdopen : Cred.fdopen_ok w = true;
  ran_fork : Cred.fork_pid w <> -1;
  ran_waitpid : 0 <= Cred.waitpid_rc w;
  ran_wifexited : Cred.wifexited w = true
}.

Definition shell_of (w : Cred.world) : string :=
  match Cred.getenv w "SHELL"%string with
  | Some sh => sh
  | None => "/bin/sh"%string
  end.

(** What the auth command of [w] prints. *)
Definition command_output (w : Cred.world) : string :=
  Cred.child_stdout w (shell_of w) (Cred.auth_command w).

(** ** Sessions and worlds to run the operations on *)

Definition fmt (bpp : Z) : rfbPixelFormat :=
  {| bitsPerPixel := bpp; depth := bpp; bigEndian := false; trueColour := 1;
     redMax := 0; greenMax := 0; blueMax := 0;
     redShift := 0; greenShift := 0; blueShift := 0 |}.

(** A session of [W] x [H] pixels of [bpp] bits around the buffer [fb],
    holding the three descriptors [socks]. *)
Definition session_with (socks : Z * Z * Z) (fb : option (list byte))
    (W H bpp : Z) : rfbClient :=
  {| frameBuffer := fb; width := W; height := H; format := fmt bpp;
     zlibStreamActive := [false; false; false; false];
     decompStreamInited := false;
     ultra_buffer := None; raw_buffer := None; clientData := [];
     vncRec := None;
     sock := fst (fst socks); listenSock := snd (fst socks);
     listen6Sock := snd socks;
     desktopName := None; serverHost := None; destHost := None;
     clientAuthSchemes := None; saslSecret := None |}.

Definition session : option (list byte) -> Z -> Z -> Z -> rfbClient :=
  session_with (-1, -1, -1).

Definition zeroed (n : nat) : list byte := repeat Byte.x00 n.

(** All pixel cells of the session's buffer, row by row. *)
Definition pixel_rows (host_big_endian : bool) (client : rfbClient)
  : list (list (outcome Z)) :=
  match frameBuffer client with
  | None => []
  | Some fb =>
      map (fun py =>
             map (fun px => pixel host_big_endian client fb
                              (Z.of_nat px) (Z.of_nat py))
                 (seq 0 (Z.to_nat (width client))))
          (seq 0 (Z.to_nat (height client)))
  end.

Definition line (s : string) : string :=
  (s ++ String Cred.newline EmptyString)%string.

(** A world in which the auth command runs to its end and prints [out].
    Nothing is typed ahead at its terminal: a flush finds no input to
    discard. *)
Definition scripted_world (env : string -> option string)
    (command : option string) (out : string) : Cred.world :=
  {| Cred.auth_command := command;
     Cred.getenv := env;
     Cred.pipe_ok := true; Cred.fdopen_ok := true;
     Cred.fork_pid := 4242; Cred.waitpid_rc := 4242;
     Cred.wifexited := true; Cred.wexitstatus := 0;
     Cred.child_stdout := fun _ _ => out;
     Cred.getline_eof := None;
     Cred.tcgetattr_ok := true; Cred.tcsetattr_ok := true;
     Cred.tcflush := fun pending => pending |}.

(** A terminal, without auth command and credential variables, at which
    one line is typed ahead whenever the echo is switched: each flush
    discards the first line pending. *)
Definition impatient_terminal : Cred.world :=
  {| Cred.auth_command := None;
     Cred.getenv := fun _ => None;
     Cred.pipe_ok := true; Cred.fdopen_ok := true;
     Cred.fork_pid := 4242; Cred.waitpid_rc := 4242;
     Cred.wifexited := true; Cred.wexitstatus := 0;
     Cred.child_stdout := fun _ _ => EmptyString;
     Cred.getline_eof := None;
     Cred.tcgetattr_ok := true; Cred.tcsetattr_ok := true;
     Cred.tcflush := fun pending => snd (Cred.take_line pending) |}.

(** An environment that offers both credential variables. *)
Definition vnc_env (name : string) : option string :=
  if String.eqb name "VNC_USERNAME" then Some "bob"%string
  else if String.eqb name "VNC_PASSWORD" then Some "hunter2"%string
  else None.

Definition at_terminal (typed : string) : Cred.state :=
  {| Cred.stdin := typed; Cred.trace := [] |}.

(** ** Dispatch of the credential requests *)

(** The union [rfbCredential] as the callbacks fill it: the user member, or
    the X509 member, of which [ReadX509Creds] sets the CA certificate file
    and leaves the other fields NULL. *)
Inductive credential : Type :=
| UserCredential (c : Cred.rfbCredential)
| X509Credential (x509CACertFile : option string).

Section Dispatch.

Variable w : Cred.world.
(** The global [tls_cert_path], the answer of [access (path, F_OK) == 0],
    and the two request types of [rfbclient.h]. *)
Variable tls_cert_path : option string.
Variable access : string -> bool.
Variable rfbCredentialTypeUser : Z.
Variable rfbCredentialTypeX509 : Z.

Definition default_ca_cert : string := "/etc/ssl/cert.pem".

(** [calloc] and [strdup] are taken to succeed. *)
Definition ReadX509Creds : Cred.M (option credential) :=
  let ca_cert := match tls_cert_path with
                 | Some path => path
                 | None => default_ca_cert
                 end in
  if negb (access ca_cert) then
    Cred.bind (Cred.emit (Cred.EvLog "Missing CA certificates"))
      (fun _ => Cred.ret None)
  else Cred.ret (Some (X509Credential (Some (Cred.c_string ca_cert)))).

(** The [switch] over the two case labels, which are distinct constants. *)
Definition GetCredentials (type : Z) : Cred.M (option credential) :=
  if type =? rfbCredentialTypeUser then
    Cred.bind (Cred.ReadUsernameAndPassword w)
      (fun cred => Cred.ret (option_map UserCredential cred))
  else if type =? rfbCredentialTypeX509 then ReadX509Creds
  else Cred.ret None.

End Dispatch.

(** ** Vocabulary of the further properties *)

(** The blocks handed to [free] by a teardown, NULL arguments left out. *)
Definition freed_pointers (evs : list cleanup_event) : list ptr :=
  flat_map (fun e => match e with Free (Some p) => [p] | _ => [] end) evs.

Definition pointer_of (p : option ptr) : list ptr :=
  match p with Some a => [a] | None => [] end.

(** The heap blocks a session refers to, the framebuffer and the session
    object apart, in the order of the fields of the teardown. *)
Definition owned_pointers (HAVE_SASL : bool) (client : rfbClient) : list ptr :=
  pointer_of (ultra_buffer client) ++ pointer_of (raw_buffer client)
  ++ clientData client ++ pointer_of (vncRec client)
  ++ pointer_of (desktopName client) ++ pointer_of (serverHost client)
  ++ pointer_of (destHost client) ++ pointer_of (clientAuthSchemes client)
  ++ (if HAVE_SASL then pointer_of (saslSecret client) else []).

(** The streams handed to [inflateEnd] by a teardown. *)
Definition inflate_calls (evs : list cleanup_event) : list (option nat) :=
  flat_map (fun e => match e with
                     | InflateEnd i => [Some i]
                     | InflateEndDecomp => [None]
                     | _ => []
                     end) evs.

Definition logged (evs : list cleanup_event) : list string :=
  flat_map (fun e => match e with CleanupLog m => [m] | _ => [] end) evs.

(** The bits of a pixel that a colour channel occupies. *)
Definition channel_mask (max shift : Z) : Z := Z.shiftl max shift.

(** A text without line terminator and without NUL. *)
Fixpoint plain (s : string) : bool :=
  match s with
  | EmptyString => true
  | String c rest =>
      negb (Ascii.eqb c Cred.newline) && negb (Ascii.eqb c Cred.NUL)
      && plain rest
  end.

(** The process control around the auth command went wrong. *)
Definition spawn_failed (w : Cred.world) : bool :=
  negb (Cred.pipe_ok w) || negb (Cred.fdopen_ok w)
  || (Cred.fork_pid w =? -1) || (Cred.waitpid_rc w <? 0).

(** The events a run adds to the trace. *)
Definition new_events (st st' : Cred.state) (evs : list Cred.event) : Prop :=
  Cred.trace st' = Cred.trace st ++ evs.

(** The heap blocks released by an allocation, in order. *)
Definition released (evs : list heap_event) : list (list byte) :=
  flat_map (fun e => match e with HeapFree b => [b] | _ => [] end) evs.

Definition requested (evs : list heap_event) : list Z :=
  flat_map (fun e => match e with HeapMalloc n => [n] | _ => [] end) evs.

(** The message that the teardown logs for a stream: the [msg] that a
    failing [inflateEnd] left behind. *)
Definition complaint (inflateEnd : option nat -> Z * option string)
    (stream : option nat) : list string :=
  match inflateEnd stream with
  | (rc, Some m) => if rc =? Z_OK then [] else [m]
  | (_, None) => []
  end.

Definition is_FreeClient (e : cleanup_event) : bool :=
  match e with FreeClient => true | _ => false end.

(** The part of the teardown that ends the zlib streams. *)
Definition streams_part (inflateEnd : option nat -> Z * option string)
    (libz : bool) (client : rfbClient)
  : list cleanup_event :=
  if libz then
    flat_map
      (fun i => if nth i (zlibStreamActive client) false
                then inflateEnd_events inflateEnd (Some i) else [])
      (seq 0 4)
    ++ (if decompStreamInited client then inflateEnd_events inflateEnd None
        else [])
  else [].

(** The streams that the teardown hands to [inflateEnd]. *)
Definition ended_streams (libz : bool) (client : rfbClient)
  : list (option nat) :=
  if libz then
    map Some (filter (fun i => nth i (zlibStreamActive client) false) (seq 0 4))
    ++ (if decompStreamInited client then [None] else [])
  else [].


(** What [getline] and the trimming make of a stream. *)
Definition trimmed_line (eof_buffer : option string) (stream : string)
  : option string * string :=
  match stream with
  | EmptyString => (eof_buffer, EmptyString)
  | _ => (Some (Cred.c_string (Cred.chop (fst (Cred.take_line stream)))),
          snd (Cred.take_line stream))
  end.

(** The state after the events [evs], with [stdin] left alone. *)
Definition logging (st : Cred.state) (evs : list Cred.event) : Cred.state :=
  {| Cred.stdin := Cred.stdin st; Cred.trace := Cred.trace st ++ evs |}.

(** The interactions up to the return of [waitpid]. *)
Definition spawning (w : Cred.world) : list Cred.event :=
  [Cred.EvPipe; Cred.EvFork; Cred.EvGetenv "SHELL";
   Cred.EvExec (shell_of w) (Cred.auth_command w); Cred.EvWaitpid].

(** The second line of the output of the auth command is missing. *)
Definition short_output (w : Cred.world) : bool :=
  match snd (Cred.take_line (command_output w)) with
  | EmptyString => true
  | _ => false
  end.

(** * Proofs *)

(** ** Loops *)

Lemma for_loop_exit {S : Type} (cond : Z -> bool) (step : Z -> Z)
    (body : Z -> S -> outcome S) (j : Z) (s : S) (fuel : nat) :
  cond j = false -> for_loop fuel cond step body j s = Done s.
Proof. intros Hc. destruct fuel; simpl; rewrite Hc; reflexivity. Qed.

Lemma for_loop_stuck {S : Type} (cond : Z -> bool) (step : Z -> Z)
    (body : Z -> S -> outcome S) (j : Z) (s : S) :
  cond j = true -> step j = j -> body j s = Done s ->
  forall fuel, for_loop fuel cond step body j s = Diverge.
Proof.
  intros Hc Hs Hb fuel.
  induction fuel as [|fuel IH]; simpl; rewrite Hc; [reflexivity|].
  rewrite Hb; simpl. rewrite Hs. exact IH.
Qed.

(** ** C integers in range *)

Lemma wrap_small z : CInt.in_range z -> CInt.wrap z = z.
Proof.
  unfold CInt.in_range, CInt.INT_MIN, CInt.INT_MAX, CInt.wrap. intros H.
  rewrite Z.mod_small; lia.
Qed.

Lemma add_small a b : CInt.in_range (a + b) -> a +i b = a + b.
Proof. apply wrap_small. Qed.

Lemma sub_small a b : CInt.in_range (a - b) -> a -i b = a - b.
Proof. apply wrap_small. Qed.

Lemma mul_small a b : CInt.in_range (a * b) -> a *i b = a * b.
Proof. apply wrap_small. Qed.

Lemma div_small a b : CInt.in_range (Z.quot a b) -> a /i b = Z.quot a b.
Proof. apply wrap_small. Qed.

(** ** Loops as lists of iterations *)

Lemma run_list_app {A S : Type} (body : A -> S -> outcome S) l1 l2 s :
  run_list body (l1 ++ l2) s = (s' <- run_list body l1 s ;; run_list body l2 s').
Proof.
  revert s. induction l1 as [|a l1 IH]; intros s; simpl; [reflexivity|].
  destruct (body a s); simpl; auto.
Qed.

Lemma run_list_ext {A S : Type} (b1 b2 : A -> S -> outcome S) l s :
  (forall a s, In a l -> b1 a s = b2 a s) ->
  run_list b1 l s = run_list b2 l s.
Proof.
  revert s. induction l as [|a l IH]; intros s Hext; simpl; [reflexivity|].
  rewrite Hext by (left; reflexivity).
  destruct (b2 a s); simpl; auto.
  apply IH. intros; apply Hext; right; assumption.
Qed.

Lemma run_list_map {A B S : Type} (f : A -> B) (body : B -> S -> outcome S) l s :
  run_list body (map f l) s = run_list (fun a => body (f a)) l s.
Proof.
  revert s. induction l as [|a l IH]; intros s; simpl; [reflexivity|].
  destruct (body (f a) s); simpl; auto.
Qed.

(** A loop whose [k]-th iteration runs at [f k] and which leaves after
    [n] iterations. *)
Lemma for_loop_counted {S : Type} (cond : Z -> bool) (step : Z -> Z)
    (body : Z -> S -> outcome S) (f : nat -> Z) (n : nat) :
  (forall k, (k < n)%nat -> cond (f k) = true) ->
  (forall k, (k < n)%nat -> step (f k) = f (Datatypes.S k)) ->
  cond (f n) = false ->
  forall fuel s, (n <= fuel)%nat ->
    for_loop fuel cond step body (f 0%nat) s = run_list body (map f (seq 0 n)) s.
Proof.
  intros Hc Hs Hend.
  assert (G : forall m start fuel s, (start + m = n)%nat -> (m <= fuel)%nat ->
            for_loop fuel cond step body (f start) s
            = run_list body (map f (seq start m)) s).
  { induction m as [|m IH]; intros start fuel s Hn Hfuel.
    - simpl. replace start with n by lia. apply for_loop_exit. exact Hend.
    - destruct fuel as [|fuel]; [lia|]. simpl.
      rewrite Hc by lia. destruct (body (f start) s); simpl; auto.
      rewrite Hs by lia. apply IH; lia. }
  intros fuel s Hfuel. apply G; lia.
Qed.

(** Ascending loop [for (j = lo; j < hi; j += d)]. *)
Lemma for_loop_up {S : Type} (body : Z -> S -> outcome S) (lo hi d : Z) (n : nat) :
  (forall k, (k < n)%nat -> lo + Z.of_nat k * d < hi) ->
  (forall k, (k < n)%nat -> CInt.in_range (lo + Z.of_nat k * d + d)) ->
  hi <= lo + Z.of_nat n * d ->
  forall fuel s, (n <= fuel)%nat ->
    for_loop fuel (fun j => j <? hi) (fun j => j +i d) body lo s
    = run_list body (map (fun k => lo + Z.of_nat k * d) (seq 0 n)) s.
Proof.
  intros Hlt Hrange Hend fuel s Hfuel.
  pose (f := fun k : nat => lo + Z.of_nat k * d).
  replace lo with (f 0%nat) at 1 by (unfold f; simpl; lia).
  apply (for_loop_counted _ _ body f n); unfold f; auto.
  - intros k Hk. apply Z.ltb_lt. auto.
  - intros k Hk. rewrite add_small by auto. lia.
  - apply Z.ltb_ge. exact Hend.
Qed.

(** Descending loop [for (j = hi; j >= lo; j -= d)]. *)
Lemma for_loop_down {S : Type} (body : Z -> S -> outcome S) (lo hi d : Z) (n : nat) :
  (forall k, (k < n)%nat -> lo <= hi - Z.of_nat k * d) ->
  (forall k, (k < n)%nat -> CInt.in_range (hi - Z.of_nat k * d - d)) ->
  hi - Z.of_nat n * d < lo ->
  forall fuel s, (n <= fuel)%nat ->
    for_loop fuel (fun j => j >=? lo) (fun j => j -i d) body hi s
    = run_list body (map (fun k => hi - Z.of_nat k * d) (seq 0 n)) s.
Proof.
  intros Hge Hrange Hend fuel s Hfuel.
  pose (f := fun k : nat => hi - Z.of_nat k * d).
  replace hi with (f 0%nat) at 1 by (unfold f; simpl; lia).
  apply (for_loop_counted _ _ body f n); unfold f; auto.
  - intros k Hk. rewrite Z.geb_leb. apply Z.leb_le. auto.
  - intros k Hk. rewrite sub_small by auto. lia.
  - rewrite Z.geb_leb. apply Z.leb_gt. exact Hend.
Qed.

(** Invariants of a loop and of two nested loops over counters. *)
Lemma run_line {S : Type} (body : nat -> S -> outcome S)
    (Inv : nat -> S -> Prop) (n : nat) :
  (forall k s, (k < n)%nat -> Inv k s ->
     exists s', body k s = Done s' /\ Inv (Datatypes.S k) s') ->
  forall s, Inv 0%nat s ->
    exists s', run_list body (seq 0 n) s = Done s' /\ Inv n s'.
Proof.
  intros Hstep.
  assert (G : forall m start s, (start + m = n)%nat -> Inv start s ->
            exists s', run_list body (seq start m) s = Done s' /\ Inv n s').
  { induction m as [|m IH]; intros start s Hn Hinv.
    - simpl. replace n with start by lia. eauto.
    - simpl. destruct (Hstep start s) as (s1 & -> & Hinv1); [lia|assumption|].
      simpl. apply IH; [lia|assumption]. }
  intros s Hinv. apply G; [lia|assumption].
Qed.

Lemma run_grid {S : Type} (body : nat -> nat -> S -> outcome S)
    (Inv : nat -> nat -> S -> Prop) (h w : nat) :
  (forall a b s, (a < h)%nat -> (b < w)%nat -> Inv a b s ->
     exists s', body a b s = Done s' /\ Inv a (Datatypes.S b) s') ->
  (forall a s, (a < h)%nat -> Inv a w s -> Inv (Datatypes.S a) 0%nat s) ->
  forall s, Inv 0%nat 0%nat s ->
    exists s', run_list (fun a s => run_list (body a) (seq 0 w) s) (seq 0 h) s
               = Done s' /\ Inv h 0%nat s'.
Proof.
  intros Hstep Hrow s Hinv.
  apply (run_line (fun a s => run_list (body a) (seq 0 w) s)
           (fun a s => Inv a 0%nat s) h); [|assumption].
  intros a s0 Ha Hinv0.
  destruct (run_line (body a) (fun b s => Inv a b s) w) with (s := s0)
    as (s1 & Hrun & Hinv1); [|assumption|].
  - intros b s1 Hb Hinv1. apply Hstep; assumption.
  - exists s1. split; [assumption|]. apply Hrow; assumption.
Qed.

(** ** Bytes *)

Lemma nth_error_upds {E : Type} (l : list E) (i : nat) (xs : list E) (p : nat) :
  (i + length xs <= length l)%nat ->
  nth_error (List.upds l i xs) p
  = if (i <=? p)%nat && (p <? i + length xs)%nat
    then nth_error xs (p - i) else nth_error l p.
Proof.
  intros Hlen. unfold List.upds.
  rewrite nth_error_app, length_firstn, Nat.min_l by lia.
  destruct (Nat.ltb_spec p i) as [Hp | Hp].
  - rewrite nth_error_firstn.
    destruct (Nat.ltb_spec p i); [|lia].
    destruct (Nat.leb_spec i p); [lia|]. reflexivity.
  - destruct (Nat.leb_spec i p); [|lia]. simpl.
    rewrite nth_error_app, length_firstn, Nat.min_r by lia.
    destruct (Nat.ltb_spec (p - i) (length xs)) as [Hq | Hq].
    + destruct (Nat.ltb_spec p (i + length xs)); [|lia].
      rewrite nth_error_firstn.
      destruct (Nat.ltb_spec (p - i) (length l - i)); [reflexivity|lia].
    + destruct (Nat.ltb_spec p (i + length xs)); [lia|].
      rewrite nth_error_skipn. f_equal. lia.
Qed.

Lemma nth_error_slice (l : list byte) (off n : Z) (p : nat) :
  0 <= off -> 0 <= n ->
  nth_error (slice l off n) p
  = if (p <? Z.to_nat n)%nat then nth_error l (Z.to_nat off + p) else None.
Proof.
  intros Hoff Hn. unfold slice.
  rewrite nth_error_firstn, nth_error_skipn. reflexivity.
Qed.

Lemma length_slice (l : list byte) (off n : Z) :
  0 <= off -> 0 <= n -> off + n <= Z.of_nat (length l) ->
  length (slice l off n) = Z.to_nat n.
Proof.
  intros Hoff Hn Hlen. unfold slice.
  rewrite length_firstn, length_skipn. lia.
Qed.

Lemma in_bounds_true (mem : list byte) (off n : Z) :
  0 <= off -> 0 <= n -> off + n <= Z.of_nat (length mem) ->
  in_bounds mem off n = true.
Proof.
  intros. unfold in_bounds.
  rewrite !andb_true_iff, !Z.leb_le. auto.
Qed.

Lemma load_bytes_done (mem : list byte) (off n : Z) :
  0 <= off -> 0 <= n -> off + n <= Z.of_nat (length mem) ->
  load_bytes mem off n = Done (slice mem off n).
Proof.
  intros. unfold load_bytes. rewrite in_bounds_true by assumption. reflexivity.
Qed.

Lemma store_bytes_done (mem : list byte) (off : Z) (bs : list byte) :
  0 <= off -> off + Z.of_nat (length bs) <= Z.of_nat (length mem) ->
  store_bytes mem off bs = Done (List.upds mem (Z.to_nat off) bs).
Proof.
  intros. unfold store_bytes. rewrite in_bounds_true by lia. reflexivity.
Qed.

Lemma slice_upds_same (mem : list byte) (off : Z) (bs : list byte) :
  0 <= off -> off + Z.of_nat (length bs) <= Z.of_nat (length mem) ->
  slice (List.upds mem (Z.to_nat off) bs) off (Z.of_nat (length bs)) = bs.
Proof.
  intros Hoff Hlen. apply nth_error_ext. intros p.
  rewrite nth_error_slice by lia. rewrite Nat2Z.id.
  destruct (Nat.ltb_spec p (length bs)) as [Hp | Hp].
  - rewrite nth_error_upds by lia.
    destruct (Nat.leb_spec (Z.to_nat off) (Z.to_nat off + p)); [|lia].
    destruct (Nat.ltb_spec (Z.to_nat off + p) (Z.to_nat off + length bs)); [|lia].
    simpl. f_equal. lia.
  - symmetry. apply nth_error_None. assumption.
Qed.

Lemma slice_upds_disjoint (mem : list byte) (off : Z) (bs : list byte)
    (off' n : Z) :
  0 <= off -> off + Z.of_nat (length bs) <= Z.of_nat (length mem) ->
  0 <= off' -> 0 <= n ->
  off' + n <= off \/ off + Z.of_nat (length bs) <= off' ->
  slice (List.upds mem (Z.to_nat off) bs) off' n = slice mem off' n.
Proof.
  intros Hoff Hlen Hoff' Hn Hdisj. apply nth_error_ext. intros p.
  rewrite !nth_error_slice by lia.
  destruct (Nat.ltb_spec p (Z.to_nat n)) as [Hp | Hp]; [|reflexivity].
  rewrite nth_error_upds by lia.
  destruct (Nat.leb_spec (Z.to_nat off) (Z.to_nat off' + p));
    destruct (Nat.ltb_spec (Z.to_nat off' + p) (Z.to_nat off + length bs));
    simpl; try reflexivity; lia.
Qed.

Lemma upds_slice_id (mem : list byte) (off n : Z) :
  0 <= off -> 0 <= n -> off + n <= Z.of_nat (length mem) ->
  List.upds mem (Z.to_nat off) (slice mem off n) = mem.
Proof.
  intros Hoff Hn Hlen. apply nth_error_ext. intros p.
  assert (Hl := length_slice mem off n Hoff Hn Hlen).
  rewrite nth_error_upds by lia. rewrite Hl.
  destruct (Nat.leb_spec (Z.to_nat off) p);
    destruct (Nat.ltb_spec p (Z.to_nat off + Z.to_nat n));
    simpl; try reflexivity.
  rewrite nth_error_slice by lia.
  destruct (Nat.ltb_spec (p - Z.to_nat off) (Z.to_nat n)); [|lia].
  f_equal. lia.
Qed.

Lemma length_encode be n v : length (encode be n v) = n.
Proof.
  unfold encode. destruct be; rewrite ?length_rev; apply length_le_split.
Qed.

Lemma decode_encode be n v :
  decode be (encode be n v) = v mod 2 ^ (Z.of_nat n * 8).
Proof.
  unfold decode, encode. destruct be; rewrite ?rev_involutive;
    apply le_combine_split.
Qed.

Lemma encode_decode be bs : encode be (length bs) (decode be bs) = bs.
Proof.
  unfold decode, encode. destruct be.
  - rewrite <- (length_rev bs), split_le_combine. apply rev_involutive.
  - apply split_le_combine.
Qed.

(** ** Pixel cells *)

Lemma supported_bytes BPP :
  supported BPP -> 1 <= BPP / 8 <= 4 /\ BPP = 8 * (BPP / 8).
Proof. intros [-> | [-> | ->]]; cbv; intuition congruence. Qed.

Lemma in_bounds_length (m1 m2 : list byte) off n :
  length m1 = length m2 -> in_bounds m1 off n = in_bounds m2 off n.
Proof. intros H. unfold in_bounds. rewrite H. reflexivity. Qed.

Lemma load_uint_done be BPP mem k :
  0 <= BPP / 8 -> 0 <= k -> (k + 1) * (BPP / 8) <= Z.of_nat (length mem) ->
  load_uint be BPP mem k
  = Done (decode be (slice mem (k * (BPP / 8)) (BPP / 8))).
Proof.
  intros HB Hk Hlen. unfold load_uint.
  rewrite load_bytes_done by nia. reflexivity.
Qed.

Lemma store_uint_spec be BPP mem k v :
  supported BPP -> 0 <= k -> (k + 1) * (BPP / 8) <= Z.of_nat (length mem) ->
  exists mem',
    store_uint be BPP mem k v = Done mem' /\
    length mem' = length mem /\
    load_uint be BPP mem' k = Done (v mod 2 ^ BPP) /\
    (forall k', k' <> k -> load_uint be BPP mem' k' = load_uint be BPP mem k') /\
    (forall off n, 0 <= off -> 0 <= n ->
       off + n <= k * (BPP / 8) \/ (k + 1) * (BPP / 8) <= off ->
       slice mem' off n = slice mem off n).
Proof.
  intros Hsup Hk Hlen.
  destruct (supported_bytes BPP Hsup) as [HB HBPP].
  set (B := BPP / 8) in *.
  assert (Henc : Z.of_nat (length (encode be (Z.to_nat B) v)) = B)
    by (rewrite length_encode; lia).
  unfold store_uint. fold B.
  rewrite store_bytes_done by nia.
  eexists. split; [reflexivity|].
  assert (Hlen' : length (List.upds mem (Z.to_nat (k * B)) (encode be (Z.to_nat B) v))
                  = length mem) by apply List.upds_length.
  split; [exact Hlen'|]. split; [|split].
  - rewrite load_uint_done by (fold B; rewrite ?Hlen'; lia). fold B.
    pose proof (slice_upds_same mem (k * B) (encode be (Z.to_nat B) v)) as Hs.
    rewrite Henc in Hs. rewrite Hs by nia.
    rewrite decode_encode. f_equal. f_equal. f_equal. lia.
  - intros k' Hk'. unfold load_uint, load_bytes. fold B.
    rewrite (in_bounds_length _ mem) by exact Hlen'.
    destruct (in_bounds mem (k' * B) B) eqn:Hin; [|reflexivity].
    unfold in_bounds in Hin. rewrite !andb_true_iff, !Z.leb_le in Hin.
    change (firstn (Z.to_nat B) (skipn (Z.to_nat (k' * B)) ?m))
      with (slice m (k' * B) B).
    simpl. rewrite slice_upds_disjoint by nia. reflexivity.
  - intros off n Hoff Hn Hdisj.
    apply slice_upds_disjoint; nia.
Qed.

Lemma copy_pixel_self be BPP mem k :
  supported BPP -> 0 <= k -> (k + 1) * (BPP / 8) <= Z.of_nat (length mem) ->
  copy_pixel be BPP 0 k mem = Done mem.
Proof.
  intros Hsup Hk Hlen.
  destruct (supported_bytes BPP Hsup) as [HB HBPP].
  unfold copy_pixel. rewrite Z.add_0_l.
  rewrite load_uint_done by lia. simpl.
  unfold store_uint.
  assert (Hl : length (slice mem (k * (BPP / 8)) (BPP / 8)) = Z.to_nat (BPP / 8))
    by (apply length_slice; nia).
  rewrite <- Hl at 1. rewrite encode_decode.
  rewrite store_bytes_done by (rewrite ?Hl; nia).
  rewrite upds_slice_id by nia. reflexivity.
Qed.

(** ** Arithmetic of the framebuffer *)

Lemma FrameBuffer_bounds client fb :
  FrameBuffer_ok client fb -> cells_fit_int client ->
  0 <= width client <= 65535 /\ 0 <= height client <= 65535 /\
  1 <= bitsPerPixel (format client) / 8 <= 4 /\
  bitsPerPixel (format client) = 8 * (bitsPerPixel (format client) / 8) /\
  width client * height client <= 2147483647 /\
  Z.of_nat (length fb)
  = width client * height client * (bitsPerPixel (format client) / 8).
Proof.
  intros [Hfb Hsup HW HH Hlen] Hint.
  destruct (supported_bytes _ Hsup) as [HB HBPP].
  unfold cells_fit_int, CInt.INT_MAX in Hint.
  repeat split; lia.
Qed.

(** Where the bytes fit, the cells do. *)
Lemma bytes_fit_cells client fb :
  FrameBuffer_ok client fb -> bytes_fit_int client -> cells_fit_int client.
Proof.
  intros [Hfb Hsup HW HH Hlen] Hint.
  unfold bytes_fit_int, cells_fit_int, CInt.INT_MAX in *.
  assert (0 <= width client * height client)
    by (apply Z.mul_nonneg_nonneg; lia).
  destruct Hsup as [E | [E | E]]; rewrite E in Hint;
    [ change (8 / 8) with 1 in Hint
    | change (16 / 8) with 2 in Hint
    | change (32 / 8) with 4 in Hint ]; lia.
Qed.

Lemma cell_index_inj (W a b px py : Z) :
  0 <= a < W -> 0 <= px < W -> py * W + px = b * W + a -> py = b /\ px = a.
Proof.
  intros Ha Hpx Heq.
  destruct (Z.lt_trichotomy py b) as [Hlt | [-> | Hgt]]; [exfalso | lia | exfalso].
  - assert ((py + 1) * W <= b * W) by (apply Z.mul_le_mono_nonneg_r; lia). lia.
  - assert ((b + 1) * W <= py * W) by (apply Z.mul_le_mono_nonneg_r; lia). lia.
Qed.

Lemma cell_in_buffer (W H B px py : Z) :
  0 <= px < W -> 0 <= py < H -> 1 <= B ->
  0 <= py * W + px /\ (py * W + px + 1) * B <= W * H * B.
Proof.
  intros Hpx Hpy HB.
  assert ((py + 1) * W <= H * W) by (apply Z.mul_le_mono_nonneg_r; lia).
  assert (0 <= py * W) by (apply Z.mul_nonneg_nonneg; lia).
  split; [lia|]. apply Z.mul_le_mono_nonneg_r; lia.
Qed.

Lemma rows_bound (W H y h : Z) :
  0 <= W -> 0 <= y -> 0 <= h -> y + h <= H ->
  0 <= y * W /\ y * W <= (y + h) * W /\ (y + h) * W <= H * W.
Proof.
  intros HW Hy Hh Hyh.
  split; [apply Z.mul_nonneg_nonneg; lia|].
  split; apply Z.mul_le_mono_nonneg_r; lia.
Qed.

Lemma row_bounds (W H y h k : Z) :
  0 <= W -> 0 <= y -> 0 <= k < h -> y + h <= H ->
  0 <= (y + k) * W /\ (y + k + 1) * W <= (y + h) * W /\
  (y + h) * W <= H * W.
Proof.
  intros HW Hy Hk Hyh.
  split; [apply Z.mul_nonneg_nonneg; lia|].
  split; apply Z.mul_le_mono_nonneg_r; lia.
Qed.

Ltac int_range :=
  unfold CInt.in_range, CInt.INT_MIN, CInt.INT_MAX in *; lia.

(** The three supported pixel widths, one by one. *)
Ltac split_bpp Hsup :=
  let E := fresh "E" in
  destruct Hsup as [E | [E | E]]; rewrite E in *;
  [ change (8 / 8) with 1 in *
  | change (16 / 8) with 2 in *
  | change (32 / 8) with 4 in * ].

(** ** FillRectangle *)

Lemma FILL_RECT_grid be client fb x y w h colour fuel fb0 :
  FrameBuffer_ok client fb -> cells_fit_int client -> contains client x y w h ->
  0 < width client -> fits fuel w -> fits fuel h ->
  FILL_RECT be (bitsPerPixel (format client)) fuel client x y w h colour fb0
  = run_list
      (fun a fb1 =>
         run_list
           (fun b fb2 =>
              store_uint be (bitsPerPixel (format client)) fb2
                ((y + Z.of_nat a) * width client + (x + Z.of_nat b)) colour)
           (seq 0 (Z.to_nat w)) fb1)
      (seq 0 (Z.to_nat h)) fb0.
Proof.
  intros Hok Hint Hin HWpos Hfw Hfh.
  destruct (FrameBuffer_bounds _ _ Hok Hint) as (HW & HH & HB & HBPP & HWH & Hlen).
  destruct Hin as (Hx & Hy & Hw & Hh & Hxw & Hyh).
  unfold fits in *. unfold FILL_RECT.
  set (W := width client) in *. set (H := height client) in *.
  pose proof (rows_bound W H y h) as Hall.
  assert (Hrows : forall k : nat, (k < Z.to_nat h)%nat ->
            0 <= (y + Z.of_nat k) * W /\
            (y + Z.of_nat k + 1) * W <= (y + h) * W /\
            (y + h) * W <= H * W)
    by (intros k Hk; apply row_bounds; lia).
  rewrite (add_small y h), (add_small x w) by int_range.
  rewrite (mul_small (y + h) W), (mul_small y W) by int_range.
  rewrite (for_loop_up _ (y * W) ((y + h) * W) W (Z.to_nat h));
    [ | intros k Hk; specialize (Hrows k Hk); lia
      | intros k Hk; specialize (Hrows k Hk); int_range
      | lia | lia ].
  rewrite run_list_map. apply run_list_ext. intros a fb1 Ha.
  apply in_seq in Ha.
  rewrite (for_loop_up _ x (x + w) 1 (Z.to_nat w));
    [ | intros; lia | intros; int_range | lia | lia ].
  rewrite run_list_map. apply run_list_ext. intros b fb2 Hb.
  apply in_seq in Hb. specialize (Hrows a ltac:(lia)).
  rewrite add_small by int_range. f_equal. lia.
Qed.

Lemma in_rect_true x y w h px py :
  in_rect x y w h px py = true <-> (x <= px < x + w /\ y <= py < y + h).
Proof.
  unfold in_rect. rewrite !andb_true_iff, !Z.leb_le, !Z.ltb_lt. lia.
Qed.

Lemma FILL_RECT_spec be client fb x y w h colour fuel :
  FrameBuffer_ok client fb -> cells_fit_int client -> contains client x y w h ->
  fits fuel w -> fits fuel h ->
  exists fb',
    FILL_RECT be (bitsPerPixel (format client)) fuel client x y w h colour fb
    = Done fb' /\
    length fb' = length fb /\
    forall px py, 0 <= px < width client -> 0 <= py < height client ->
      pixel be client fb' px py
      = if in_rect x y w h px py
        then Done (CInt.to_unsigned (bitsPerPixel (format client)) colour)
        else pixel be client fb px py.
Proof.
  intros Hok Hint Hin Hfw Hfh.
  destruct (FrameBuffer_bounds _ _ Hok Hint) as (HW & HH & HB & HBPP & HWH & Hlen).
  destruct (Z.eq_dec (width client) 0) as [HW0 | HW0].
  { (* no column: the row loop is left at once *)
    exists fb. split; [|split; [reflexivity|intros; lia]].
    unfold FILL_RECT. apply for_loop_exit.
    rewrite HW0. apply Z.ltb_ge.
    unfold CInt.mul. rewrite !Z.mul_0_r. reflexivity. }
  rewrite FILL_RECT_grid with (fb := fb) by (assumption || lia).
  pose proof (fb_bpp _ _ Hok) as Hsup.
  destruct Hin as (Hx & Hy & Hw & Hh & Hxw & Hyh).
  set (W := width client) in *. set (H := height client) in *.
  set (BPP := bitsPerPixel (format client)) in *.
  set (done := fun (a b : nat) (px py : Z) =>
         x <= px < x + w /\
         (y <= py < y + Z.of_nat a \/ (py = y + Z.of_nat a /\ px < x + Z.of_nat b))).
  set (Inv := fun (a b : nat) (fb' : list byte) =>
         length fb' = length fb /\
         forall px py, 0 <= px < W -> 0 <= py < H ->
           (done a b px py ->
              load_uint be BPP fb' (py * W + px) = Done (colour mod 2 ^ BPP)) /\
           (~ done a b px py ->
              load_uint be BPP fb' (py * W + px) = load_uint be BPP fb (py * W + px))).
  destruct (run_grid
              (fun a b fb2 =>
                 store_uint be BPP fb2
                   ((y + Z.of_nat a) * W + (x + Z.of_nat b)) colour)
              Inv (Z.to_nat h) (Z.to_nat w)) with (s := fb)
    as (fb' & Hrun & Hlen' & Hpix).
  - (* one store *)
    intros a b fb1 Ha Hb (Hl1 & Hp1).
    destruct (cell_in_buffer W H (BPP / 8) (x + Z.of_nat b) (y + Z.of_nat a))
      as [Hk0 Hk1]; try lia.
    destruct (store_uint_spec be BPP fb1
                ((y + Z.of_nat a) * W + (x + Z.of_nat b)) colour)
      as (fb2 & Hst & Hl2 & Hsame & Hother & _); try assumption; try lia.
    exists fb2. split; [exact Hst|]. split; [congruence|].
    intros px py Hpx Hpy.
    destruct (Z.eq_dec (py * W + px) ((y + Z.of_nat a) * W + (x + Z.of_nat b)))
      as [Heq | Hne].
    + apply cell_index_inj in Heq as [-> ->]; try lia.
      split; [intros _; exact Hsame|].
      intros Hnd. exfalso. apply Hnd. unfold done. lia.
    + rewrite Hother by exact Hne.
      destruct (Hp1 px py Hpx Hpy) as [Hd Hnd].
      split; intros Hcase.
      * apply Hd. unfold done in *.
        destruct Hcase as [Hc1 [Hc2 | [Hc2 Hc3]]]; [lia|].
        assert (px <> x + Z.of_nat b) by (intros ->; subst py; apply Hne; reflexivity).
        lia.
      * apply Hnd. unfold done in *. lia.
  - (* a row is complete *)
    intros a fb1 Ha (Hl1 & Hp1). split; [exact Hl1|].
    intros px py Hpx Hpy. destruct (Hp1 px py Hpx Hpy) as [Hd Hnd].
    split; intros Hcase; [apply Hd | apply Hnd]; unfold done in *; lia.
  - (* nothing is filled at the start *)
    split; [reflexivity|]. intros px py Hpx Hpy.
    split; [|reflexivity]. unfold done. lia.
  - exists fb'. split; [exact Hrun|]. split; [exact Hlen'|].
    intros px py Hpx Hpy. unfold pixel. fold W BPP.
    destruct (Hpix px py Hpx Hpy) as [Hd Hnd].
    destruct (in_rect x y w h px py) eqn:Hrect.
    + apply in_rect_true in Hrect. apply Hd. unfold done. lia.
    + apply Hnd. intros Hdone.
      assert (in_rect x y w h px py = true)
        by (apply in_rect_true; unfold done in Hdone; lia).
      congruence.
Qed.

Lemma CheckRect_spec client x y w h :
  CInt.in_range (x + w) -> CInt.in_range (y + h) ->
  CheckRect client x y w h = true
  <-> x + w <= width client /\ y + h <= height client.
Proof.
  intros Hx Hy. unfold CheckRect.
  rewrite !add_small by assumption.
  rewrite andb_true_iff, !Z.leb_le. reflexivity.
Qed.

Lemma CheckRect_contains client fb x y w h :
  FrameBuffer_ok client fb -> contains client x y w h ->
  CheckRect client x y w h = true.
Proof.
  intros Hok (Hx & Hy & Hw & Hh & Hxw & Hyh).
  pose proof (fb_width _ _ Hok) as HW. pose proof (fb_height _ _ Hok) as HH.
  apply CheckRect_spec; try int_range; lia.
Qed.

Lemma FillRectangle_fills be client fb x y w h colour fuel :
  FrameBuffer_ok client fb -> cells_fit_int client -> contains client x y w h ->
  fits fuel w -> fits fuel h ->
  exists fb',
    FillRectangle be fuel client x y w h colour
    = Done (set_frameBuffer client (Some fb')) /\
    length fb' = length fb /\
    forall px py, 0 <= px < width client -> 0 <= py < height client ->
      pixel be client fb' px py
      = if in_rect x y w h px py
        then Done (CInt.to_unsigned (bitsPerPixel (format client)) colour)
        else pixel be client fb px py.
Proof.
  intros Hok Hint Hin Hfw Hfh.
  destruct (FILL_RECT_spec be client fb x y w h colour fuel Hok Hint Hin Hfw Hfh)
    as (fb' & Hrun & Hrest).
  exists fb'. split; [|exact Hrest].
  unfold FillRectangle.
  rewrite (fb_held _ _ Hok), (CheckRect_contains _ _ _ _ _ _ Hok Hin). simpl.
  destruct (fb_bpp _ _ Hok) as [E | [E | E]]; rewrite E in Hrun |- *;
    rewrite Hrun; reflexivity.
Qed.

(** ** CopyRectangle *)

Lemma memcpy_spec (dst : list byte) (doff : Z) (src : list byte) (soff n : Z) :
  0 <= doff -> 0 <= n -> doff + n <= Z.of_nat (length dst) ->
  0 <= soff -> soff + n <= Z.of_nat (length src) ->
  exists dst',
    memcpy dst doff src soff n = Done dst' /\
    length dst' = length dst /\
    slice dst' doff n = slice src soff n /\
    (forall off m, 0 <= off -> 0 <= m ->
       off + m <= doff \/ doff + n <= off ->
       slice dst' off m = slice dst off m).
Proof.
  intros Hd Hn Hdl Hs Hsl. unfold memcpy.
  rewrite load_bytes_done by assumption. simpl.
  assert (Hl : Z.of_nat (length (slice src soff n)) = n)
    by (rewrite length_slice by assumption; lia).
  rewrite store_bytes_done by lia.
  eexists. split; [reflexivity|]. split; [apply List.upds_length|]. split.
  - pose proof (slice_upds_same dst doff (slice src soff n)) as Hsame.
    rewrite Hl in Hsame. apply Hsame; lia.
  - intros off m Hoff Hm Hdisj. apply slice_upds_disjoint; lia.
Qed.

Lemma memcpy_nothing (dst : list byte) (doff : Z) (src : list byte) :
  0 <= doff <= Z.of_nat (length dst) ->
  memcpy dst doff src 0 0 = Done dst.
Proof.
  intros Hd. unfold memcpy, load_bytes, store_bytes. simpl.
  rewrite in_bounds_true by lia. simpl.
  rewrite in_bounds_true by (simpl; lia). simpl.
  rewrite List.upds_nil'. reflexivity.
Qed.

Lemma scaled_small v BPP :
  supported BPP -> 0 <= v -> v * BPP <= CInt.INT_MAX ->
  v *i BPP /i 8 = v * (BPP / 8).
Proof.
  unfold CInt.INT_MAX. intros Hsup Hv Hmax.
  assert (Hq : forall B, 0 <= B -> v * (8 * B) <= 2147483647 ->
            v *i (8 * B) /i 8 = v * B).
  { intros B HB HvB.
    assert (0 <= v * B) by (apply Z.mul_nonneg_nonneg; lia).
    rewrite mul_small by int_range.
    replace (v * (8 * B)) with (v * B * 8) by lia.
    rewrite div_small; rewrite Z.quot_mul by lia; [reflexivity|int_range]. }
  destruct Hsup as [-> | [-> | ->]].
  - change (8 / 8) with 1. apply (Hq 1); lia.
  - change (16 / 8) with 2. apply (Hq 2); lia.
  - change (32 / 8) with 4. apply (Hq 4); lia.
Qed.

Lemma bytes_small BPP : supported BPP -> BPP /i 8 = BPP / 8.
Proof. intros [-> | [-> | ->]]; reflexivity. Qed.

(** Rows above or below, or the same row left or right: a cell outside the
    rectangle shares no byte with row [k] of the rectangle. *)
Lemma cell_off_row (W x y w h px py k : Z) :
  0 <= x -> 0 <= w -> x + w <= W -> 0 <= px < W ->
  0 <= k < h ->
  in_rect x y w h px py = false ->
  py * W + px + 1 <= (y + k) * W + x \/ (y + k) * W + x + w <= py * W + px.
Proof.
  intros Hx Hw Hxw Hpx Hk Hout.
  destruct (Z.lt_trichotomy py (y + k)) as [Hlt | [Heq | Hgt]].
  - left. assert ((py + 1) * W <= (y + k) * W)
      by (apply Z.mul_le_mono_nonneg_r; lia). lia.
  - subst py.
    assert (Hnot : ~ (x <= px < x + w)).
    { intros Hc. assert (in_rect x y w h px (y + k) = true)
        by (apply in_rect_true; lia). congruence. }
    lia.
  - right. assert ((y + k + 1) * W <= py * W)
      by (apply Z.mul_le_mono_nonneg_r; lia). lia.
Qed.

Lemma COPY_RECT_rows client fb buffer x y w h fuel :
  FrameBuffer_ok client fb -> bytes_fit_int client -> contains client x y w h ->
  x < width client ->
  w * h * (bitsPerPixel (format client) / 8) <= Z.of_nat (length buffer) ->
  fits fuel h ->
  exists fb' boff,
    COPY_RECT (bitsPerPixel (format client)) fuel client buffer x y w h fb
    = Done (fb', boff) /\
    length fb' = length fb /\
    (forall r, 0 <= r < h ->
       row_bytes client fb' x (y + r) w
       = slice buffer (r * (w * (bitsPerPixel (format client) / 8)))
               (w * (bitsPerPixel (format client) / 8))) /\
    (forall px py, 0 <= px < width client -> 0 <= py < height client ->
       in_rect x y w h px py = false ->
       row_bytes client fb' px py 1 = row_bytes client fb px py 1).
Proof.
  intros Hok Hint Hin HxW Hsrc Hfh.
  destruct (FrameBuffer_bounds _ _ Hok (bytes_fit_cells _ _ Hok Hint))
    as (HW & HH & HB & HBPP & HWH & Hlen).
  pose proof Hint as HWHB. unfold bytes_fit_int, CInt.INT_MAX in HWHB.
  pose proof (fb_bpp _ _ Hok) as Hsup.
  destruct Hin as (Hx & Hy & Hw & Hh & Hxw & Hyh).
  unfold fits in *. unfold COPY_RECT, row_bytes. cbv zeta.
  set (W := width client) in *. set (H := height client) in *.
  destruct (rows_bound W H y h) as (Hy0 & Hy1 & Hy2); try lia.
  assert (Hrows : forall k, 0 <= k < h ->
            0 <= (y + k) * W /\ (y + k + 1) * W <= (y + h) * W /\
            (y + h) * W <= H * W)
    by (intros k Hk; apply row_bounds; lia).
  assert (Hsrcs : forall k, 0 <= k < h -> 0 <= k * w /\ (k + 1) * w <= w * h).
  { intros k Hk. split; [apply Z.mul_nonneg_nonneg; lia|].
    rewrite (Z.mul_comm w h). apply Z.mul_le_mono_nonneg_r; lia. }
  rewrite (scaled_small w _), (scaled_small W _), (bytes_small _)
    by (assumption || (unfold CInt.INT_MAX; split_bpp Hsup; lia)).
  remember (bitsPerPixel (format client) / 8) as B eqn:HeqB.
  assert (HB3 : B = 1 \/ B = 2 \/ B = 4)
    by (destruct Hsup as [E | [E | E]]; rewrite E in HeqB; subst B; auto).
  clear HeqB HBPP Hsup.
  set (Inv := fun (k : nat) (s : list byte * Z) =>
         snd s = Z.of_nat k * (w * B) /\
         length (fst s) = length fb /\
         (forall r, 0 <= r < Z.of_nat k ->
            slice (fst s) (((y + r) * W + x) * B) (w * B)
            = slice buffer (r * (w * B)) (w * B)) /\
         (forall px py, 0 <= px < W -> 0 <= py < H ->
            in_rect x y w h px py = false ->
            slice (fst s) ((py * W + px) * B) (1 * B)
            = slice fb ((py * W + px) * B) (1 * B))).
  assert (Hgoal : exists s',
            run_list
              (fun (a : nat) '(fb0, boff) =>
                 fb'0 <- memcpy fb0 (x * B + y * (W * B) + Z.of_nat a * (W * B))
                           buffer boff (w * B) ;;
                 Done (fb'0, boff + w * B))
              (seq 0 (Z.to_nat h)) (fb, 0) = Done s' /\ Inv (Z.to_nat h) s').
  { apply run_line.
    - intros k [fb1 boff1] Hk (Hb1 & Hl1 & Hr1 & Ho1).
      cbn [fst snd] in *. subst boff1.
      destruct (Hrows (Z.of_nat k)) as (Hk0 & Hk1 & Hk2); [lia|].
      destruct (Hsrcs (Z.of_nat k)) as (Hs0 & Hs1); [lia|].
      assert (Hcp : exists fb2,
                memcpy fb1 (x * B + y * (W * B) + Z.of_nat k * (W * B))
                  buffer (Z.of_nat k * (w * B)) (w * B) = Done fb2 /\
                length fb2 = length fb1 /\
                slice fb2 (x * B + y * (W * B) + Z.of_nat k * (W * B)) (w * B)
                = slice buffer (Z.of_nat k * (w * B)) (w * B) /\
                (forall off m, 0 <= off -> 0 <= m ->
                   off + m <= x * B + y * (W * B) + Z.of_nat k * (W * B) \/
                   x * B + y * (W * B) + Z.of_nat k * (W * B) + w * B <= off ->
                   slice fb2 off m = slice fb1 off m)).
      { apply memcpy_spec; destruct HB3 as [-> | [-> | ->]]; lia. }
      destruct Hcp as (fb2 & Hcp & Hl2 & Hnew & Hold).
      rewrite Hcp. cbn [obind]. eexists. split; [reflexivity|].
      unfold Inv. cbn [fst snd]. split; [lia|]. split; [congruence|]. split.
      + intros r Hr. destruct (Z.eq_dec r (Z.of_nat k)) as [-> | Hne].
        * rewrite <- Hnew. f_equal. lia.
        * destruct (Hrows r) as (Hr0 & _ & _); [lia|].
          assert ((y + r + 1) * W <= (y + Z.of_nat k) * W)
            by (apply Z.mul_le_mono_nonneg_r; lia).
          rewrite Hold; [apply Hr1; lia| | |];
            destruct HB3 as [-> | [-> | ->]]; lia.
      + intros px py Hpx Hpy Hrect.
        assert (0 <= py * W) by (apply Z.mul_nonneg_nonneg; lia).
        assert (Hoff : py * W + px + 1 <= (y + Z.of_nat k) * W + x \/
                       (y + Z.of_nat k) * W + x + w <= py * W + px)
          by (apply (cell_off_row W x y w h); assumption || lia).
        rewrite Hold; [apply Ho1; assumption| | |];
          destruct HB3 as [-> | [-> | ->]]; lia.
    - unfold Inv. cbn [fst snd]. split; [lia|]. split; [reflexivity|].
      split; [intros; lia|]. intros; reflexivity. }
  destruct Hgoal as ([fb' boff] & Hrun & Hboff & Hlen' & Hdone & Hout).
  cbn [fst snd] in *.
  exists fb', boff. split; [|split; [exact Hlen'|split; [|exact Hout]]].
  - rewrite <- Hrun.
    assert (HyhW : 0 <= (y + h) * W <= H * W) by lia.
    destruct HB3 as [-> | [-> | ->]];
      (rewrite (add_small y h), (mul_small x _), (mul_small y (W * _)),
         (mul_small (y + h) (W * _)) by int_range);
      (rewrite (add_small (x * _) (y * (W * _))) by int_range);
      (rewrite (for_loop_up _ _ _ _ (Z.to_nat h));
         [ rewrite run_list_map; reflexivity
         | intros k Hk; destruct (Hrows (Z.of_nat k)); lia
         | intros k Hk; destruct (Hrows (Z.of_nat k)); [lia|int_range]
         | lia | lia ]).
  - intros r Hr. apply Hdone. lia.
Qed.

(** A rectangle of no width on the right edge: the row loop runs, and each
    [memcpy] moves nothing. *)
Lemma COPY_RECT_edge client fb buffer x y w h fuel :
  FrameBuffer_ok client fb -> bytes_fit_int client -> contains client x y w h ->
  x = width client -> fits fuel h ->
  COPY_RECT (bitsPerPixel (format client)) fuel client buffer x y w h fb
  = Done (fb, 0).
Proof.
  intros Hok Hint Hin HxW Hfh.
  destruct (FrameBuffer_bounds _ _ Hok (bytes_fit_cells _ _ Hok Hint))
    as (HW & HH & HB & HBPP & HWH & Hlen).
  pose proof Hint as HWHB. unfold bytes_fit_int, CInt.INT_MAX in HWHB.
  pose proof (fb_bpp _ _ Hok) as Hsup.
  destruct Hin as (Hx & Hy & Hw & Hh & Hxw & Hyh).
  unfold fits in *. unfold COPY_RECT. cbv zeta.
  set (W := width client) in *. set (H := height client) in *.
  assert (w = 0) by lia. subst w x.
  destruct (rows_bound W H y h) as (Hy0 & Hy1 & Hy2); try lia.
  assert (Hrows : forall k, 0 <= k < h - 1 ->
            0 <= (y + k) * W /\ (y + k + 2) * W <= (y + h) * W).
  { intros k Hk. split; [apply Z.mul_nonneg_nonneg; lia|].
    apply Z.mul_le_mono_nonneg_r; lia. }
  rewrite (scaled_small 0 _), (scaled_small W _), (bytes_small _)
    by (assumption || (unfold CInt.INT_MAX; split_bpp Hsup; lia)).
  remember (bitsPerPixel (format client) / 8) as B eqn:HeqB.
  assert (HB3 : B = 1 \/ B = 2 \/ B = 4)
    by (destruct Hsup as [E | [E | E]]; rewrite E in HeqB; subst B; auto).
  clear HeqB HBPP Hsup.
  destruct (Z.eq_dec W 0) as [HW0 | HW0].
  { apply for_loop_exit. apply Z.ltb_ge.
    destruct HB3 as [-> | [-> | ->]];
      rewrite (add_small y h), (mul_small W _), (mul_small y (W * _)),
        (mul_small (y + h) (W * _)), (add_small (W * _) (y * (W * _)))
        by int_range; lia. }
  assert (Hgoal : run_list
            (fun (a : nat) '(fb0, boff) =>
               fb'0 <- memcpy fb0 (W * B + y * (W * B) + Z.of_nat a * (W * B))
                         buffer boff (0 * B) ;;
               Done (fb'0, boff + 0 * B))
            (seq 0 (Z.to_nat (h - 1))) (fb, 0) = Done (fb, 0)).
  { destruct (run_line
                (fun (a : nat) '(fb0, boff) =>
                   fb'0 <- memcpy fb0 (W * B + y * (W * B) + Z.of_nat a * (W * B))
                             buffer boff (0 * B) ;;
                   Done (fb'0, boff + 0 * B))
                (fun _ s => s = (fb, 0)) (Z.to_nat (h - 1))) with (s := (fb, 0))
      as (s' & Hrun & ->); [|reflexivity|exact Hrun].
    intros k s Hk ->. destruct (Hrows (Z.of_nat k)) as (Hk0 & Hk1); [lia|].
    rewrite Z.mul_0_l, memcpy_nothing
      by (destruct HB3 as [-> | [-> | ->]]; lia).
    cbn [obind]. eexists. split; reflexivity. }
  rewrite <- Hgoal.
  destruct HB3 as [-> | [-> | ->]];
    (rewrite (add_small y h), (mul_small W _), (mul_small y (W * _)),
       (mul_small (y + h) (W * _)) by int_range);
    (rewrite (add_small (W * _) (y * (W * _))) by int_range);
    (rewrite (for_loop_up _ _ _ _ (Z.to_nat (h - 1)));
       [ rewrite run_list_map; reflexivity
       | intros k Hk; destruct (Hrows (Z.of_nat k)); lia
       | intros k Hk; destruct (Hrows (Z.of_nat k)); [lia|int_range]
       | destruct (Z.le_gt_cases 1 h);
         [ rewrite Z2Nat.id by lia; lia
         | assert (h = 0) by lia; subst h; simpl; lia ]
       | lia ]).
Qed.

Lemma CopyRectangle_copies client fb buffer x y w h fuel :
  FrameBuffer_ok client fb -> bytes_fit_int client -> contains client x y w h ->
  w * h * (bitsPerPixel (format client) / 8) <= Z.of_nat (length buffer) ->
  fits fuel h ->
  exists fb',
    CopyRectangle fuel client buffer x y w h
    = Done (set_frameBuffer client (Some fb')) /\
    length fb' = length fb /\
    (forall r, 0 <= r < h ->
       row_bytes client fb' x (y + r) w
       = slice buffer (r * (w * (bitsPerPixel (format client) / 8)))
               (w * (bitsPerPixel (format client) / 8))) /\
    (forall px py, 0 <= px < width client -> 0 <= py < height client ->
       in_rect x y w h px py = false ->
       row_bytes client fb' px py 1 = row_bytes client fb px py 1).
Proof.
  intros Hok Hint Hin Hsrc Hfh.
  assert (Hrun : exists fb' boff,
            COPY_RECT (bitsPerPixel (format client)) fuel client buffer x y w h fb
            = Done (fb', boff) /\
            length fb' = length fb /\
            (forall r, 0 <= r < h ->
               row_bytes client fb' x (y + r) w
               = slice buffer (r * (w * (bitsPerPixel (format client) / 8)))
                       (w * (bitsPerPixel (format client) / 8))) /\
            (forall px py, 0 <= px < width client -> 0 <= py < height client ->
               in_rect x y w h px py = false ->
               row_bytes client fb' px py 1 = row_bytes client fb px py 1)).
  { destruct (Z.eq_dec x (width client)) as [HxW | HxW].
    - exists fb, 0. split; [apply (COPY_RECT_edge client fb); assumption|].
      split; [reflexivity|]. split; [|reflexivity].
      intros r Hr. destruct Hin as (Hx & Hy & Hw & Hh & Hxw & Hyh).
      assert (w = 0) by lia. subst w. unfold row_bytes, slice.
      rewrite !Z.mul_0_l. reflexivity.
    - apply COPY_RECT_rows; try assumption.
      destruct Hin as (Hx & Hy & Hw & Hh & Hxw & Hyh). lia. }
  destruct Hrun as (fb' & boff & Hrun & Hrest).
  exists fb'. split; [|exact Hrest].
  unfold CopyRectangle.
  rewrite (fb_held _ _ Hok), (CheckRect_contains _ _ _ _ _ _ Hok Hin). simpl.
  destruct (fb_bpp _ _ Hok) as [E | [E | E]]; rewrite E in Hrun |- *;
    rewrite Hrun; reflexivity.
Qed.

(** ** CopyRectangleFromRectangle *)

(** Copying one cell through [uintN_t] moves its bytes. *)
Lemma copy_pixel_spec be BPP off k mem :
  supported BPP ->
  0 <= k -> (k + 1) * (BPP / 8) <= Z.of_nat (length mem) ->
  0 <= off + k -> (off + k + 1) * (BPP / 8) <= Z.of_nat (length mem) ->
  exists mem',
    copy_pixel be BPP off k mem = Done mem' /\
    length mem' = length mem /\
    slice mem' (k * (BPP / 8)) (BPP / 8)
    = slice mem ((off + k) * (BPP / 8)) (BPP / 8) /\
    (forall o n, 0 <= o -> 0 <= n ->
       o + n <= k * (BPP / 8) \/ (k + 1) * (BPP / 8) <= o ->
       slice mem' o n = slice mem o n).
Proof.
  intros Hsup Hk Hlen Hs Hslen.
  destruct (supported_bytes BPP Hsup) as [HB HBPP].
  set (B := BPP / 8) in *.
  unfold copy_pixel. rewrite load_uint_done by (fold B; lia). cbn [obind].
  unfold store_uint. fold B.
  assert (Hl : length (slice mem ((off + k) * B) B) = Z.to_nat B)
    by (apply length_slice; nia).
  pose proof (encode_decode be (slice mem ((off + k) * B) B)) as Henc.
  rewrite Hl in Henc. rewrite Henc.
  rewrite store_bytes_done by (rewrite ?Hl; nia).
  eexists. split; [reflexivity|]. split; [apply List.upds_length|]. split.
  - pose proof (slice_upds_same mem (k * B) (slice mem ((off + k) * B) B)) as Hsame.
    rewrite Hl in Hsame. rewrite Z2Nat.id in Hsame by lia. apply Hsame; nia.
  - intros o n Ho Hn Hdisj. apply slice_upds_disjoint; rewrite ?Hl; nia.
Qed.

Lemma COPY_RECT_FROM_RECT_grid be client fb sx sy w h dx dy fuel fb0 :
  FrameBuffer_ok client fb -> cells_fit_int client ->
  contains client sx sy w h -> contains client dx dy w h ->
  0 < width client -> fits fuel w -> fits fuel h ->
  COPY_RECT_FROM_RECT be (bitsPerPixel (format client)) fuel client
    sx sy w h dx dy fb0
  = run_list
      (fun a fb1 =>
         run_list
           (fun b fb2 =>
              copy_pixel be (bitsPerPixel (format client))
                ((sy - dy) * width client + sx - dx)
                (visit_row sy h dy a * width client + visit_col sx w dx b) fb2)
           (seq 0 (Z.to_nat w)) fb1)
      (seq 0 (Z.to_nat h)) fb0.
Proof.
  intros Hok Hint Hsrc Hdst HWpos Hfw Hfh.
  destruct (FrameBuffer_bounds _ _ Hok Hint) as (HW & HH & HB & HBPP & HWH & Hlen).
  destruct Hsrc as (Hsx & Hsy & Hw & Hh & Hsxw & Hsyh).
  destruct Hdst as (Hdx & Hdy & _ & _ & Hdxw & Hdyh).
  unfold fits in *. unfold COPY_RECT_FROM_RECT, visit_row, visit_col. cbv zeta.
  set (W := width client) in *. set (H := height client) in *.
  destruct (rows_bound W H dy h) as (Hy0 & Hy1 & Hy2); try lia.
  assert (Hrows : forall k, 0 <= k < h ->
            0 <= (dy + k) * W /\ (dy + k + 1) * W <= (dy + h) * W /\
            (dy + h) * W <= H * W)
    by (intros k Hk; apply row_bounds; lia).
  assert (Hoff : - (H * W) <= (sy - dy) * W <= H * W).
  { split; [rewrite <- Z.mul_opp_l|]; apply Z.mul_le_mono_nonneg_r; lia. }
  rewrite (sub_small sy dy), (add_small dy h), (add_small dx w) by int_range.
  rewrite (sub_small (dy + h) 1), (sub_small (dx + w) 1) by int_range.
  rewrite (mul_small (sy - dy) W), (mul_small (dy + h) W), (mul_small dy W),
    (mul_small (dy + h - 1) W) by int_range.
  assert (Hinner : forall j fb1 (a : nat), (a < Z.to_nat h)%nat ->
            j = (if dy <? sy then dy + Z.of_nat a else dy + h - 1 - Z.of_nat a) * W ->
            (if dx <? sx
             then for_loop fuel (fun i => i <? dx + w) (fun i => i +i 1)
                    (fun i fb2 => copy_pixel be (bitsPerPixel (format client))
                                    ((sy - dy) * W + sx - dx) (j +i i) fb2)
                    dx fb1
             else for_loop fuel (fun i => i >=? dx) (fun i => i -i 1)
                    (fun i fb2 => copy_pixel be (bitsPerPixel (format client))
                                    ((sy - dy) * W + sx - dx) (j +i i) fb2)
                    (dx + w - 1) fb1)
            = run_list
                (fun b fb2 =>
                   copy_pixel be (bitsPerPixel (format client))
                     ((sy - dy) * W + sx - dx)
                     (j + (if dx <? sx then dx + Z.of_nat b
                           else dx + w - 1 - Z.of_nat b)) fb2)
                (seq 0 (Z.to_nat w)) fb1).
  { intros j fb1 a Ha Hj.
    assert (Hjr : 0 <= j /\ j + W <= W * H).
    { destruct (dy <? sy); subst j.
      - destruct (Hrows (Z.of_nat a)); lia.
      - destruct (Hrows (h - 1 - Z.of_nat a)) as (Ha0 & Ha1 & Ha2); [lia|].
        replace (dy + (h - 1 - Z.of_nat a)) with (dy + h - 1 - Z.of_nat a)
          in * by lia.
        lia. }
    destruct (dx <? sx).
    - rewrite (for_loop_up _ dx (dx + w) 1 (Z.to_nat w));
        [ | intros; lia | intros; int_range | lia | lia ].
      rewrite run_list_map. apply run_list_ext. intros b fb2 Hb.
      apply in_seq in Hb. rewrite add_small by int_range. f_equal. lia.
    - rewrite (for_loop_down _ dx (dx + w - 1) 1 (Z.to_nat w));
        [ | intros; lia | intros; int_range | lia | lia ].
      rewrite run_list_map. apply run_list_ext. intros b fb2 Hb.
      apply in_seq in Hb. rewrite add_small by int_range. f_equal. lia. }
  destruct (dy <? sy) eqn:Hdir.
  - rewrite (for_loop_up _ (dy * W) ((dy + h) * W) W (Z.to_nat h));
      [ | intros k Hk; destruct (Hrows (Z.of_nat k)); lia
        | intros k Hk; destruct (Hrows (Z.of_nat k)); [lia|int_range]
        | rewrite Z2Nat.id by lia; lia | lia ].
    rewrite run_list_map. apply run_list_ext. intros a fb1 Ha.
    apply in_seq in Ha.
    rewrite (Hinner _ fb1 a) by (lia || (rewrite Hdir; lia)).
    apply run_list_ext. intros b fb2 Hb. f_equal. lia.
  - rewrite (for_loop_down _ (dy * W) ((dy + h - 1) * W) W (Z.to_nat h));
      [ | intros k Hk; destruct (Hrows (Z.of_nat k)); lia
        | intros k Hk; destruct (Hrows (Z.of_nat k)); [lia|int_range]
        | rewrite Z2Nat.id by lia; lia | lia ].
    rewrite run_list_map. apply run_list_ext. intros a fb1 Ha.
    apply in_seq in Ha.
    rewrite (Hinner _ fb1 a) by (lia || (rewrite Hdir; lia)).
    apply run_list_ext. intros b fb2 Hb. f_equal. lia.
Qed.

Lemma COPY_RECT_FROM_RECT_spec be client fb sx sy w h dx dy fuel :
  FrameBuffer_ok client fb -> cells_fit_int client ->
  contains client sx sy w h -> contains client dx dy w h ->
  0 < width client -> fits fuel w -> fits fuel h ->
  exists fb',
    COPY_RECT_FROM_RECT be (bitsPerPixel (format client)) fuel client
      sx sy w h dx dy fb = Done fb' /\
    length fb' = length fb /\
    forall px py, 0 <= px < width client -> 0 <= py < height client ->
      row_bytes client fb' px py 1
      = if in_rect dx dy w h px py
        then row_bytes client fb (px + sx - dx) (py + sy - dy) 1
        else row_bytes client fb px py 1.
Proof.
  intros Hok Hint Hsrc Hdst HWpos Hfw Hfh.
  rewrite COPY_RECT_FROM_RECT_grid with (fb := fb) by assumption.
  destruct (FrameBuffer_bounds _ _ Hok Hint) as (HW & HH & HB & HBPP & HWH & Hlen).
  pose proof (fb_bpp _ _ Hok) as Hsup.
  destruct Hsrc as (Hsx & Hsy & Hw & Hh & Hsxw & Hsyh).
  destruct Hdst as (Hdx & Hdy & _ & _ & Hdxw & Hdyh).
  unfold row_bytes. rewrite Z.mul_1_l.
  set (W := width client) in *. set (H := height client) in *.
  set (BPP := bitsPerPixel (format client)) in *.
  set (B := BPP / 8) in *.
  set (off := (sy - dy) * W + sx - dx).
  (* position of a cell of the destination in the order of the visit *)
  set (ra := fun py => if dy <? sy then py - dy else dy + h - 1 - py).
  set (cb := fun px => if dx <? sx then px - dx else dx + w - 1 - px).
  set (done := fun (a b : nat) (px py : Z) =>
         (dx <= px < dx + w /\ dy <= py < dy + h) /\
         (ra py < Z.of_nat a \/ (ra py = Z.of_nat a /\ cb px < Z.of_nat b))).
  set (Inv := fun (a b : nat) (fb' : list byte) =>
         length fb' = length fb /\
         forall px py, 0 <= px < W -> 0 <= py < H ->
           (done a b px py ->
              slice fb' ((py * W + px) * B) B
              = slice fb (((py + sy - dy) * W + (px + sx - dx)) * B) B) /\
           (~ done a b px py ->
              slice fb' ((py * W + px) * B) B = slice fb ((py * W + px) * B) B)).
  destruct (run_grid
              (fun a b fb2 =>
                 copy_pixel be BPP off
                   (visit_row sy h dy a * W + visit_col sx w dx b) fb2)
              Inv (Z.to_nat h) (Z.to_nat w)) with (s := fb)
    as (fb' & Hrun & Hlen' & Hcells).
  - (* one cell *)
    intros a b fb1 Ha Hb (Hl1 & Hc1).
    set (qy := visit_row sy h dy a). set (qx := visit_col sx w dx b).
    assert (Hq : (dx <= qx < dx + w /\ dy <= qy < dy + h) /\
                 ra qy = Z.of_nat a /\ cb qx = Z.of_nat b).
    { unfold qx, qy, ra, cb, visit_row, visit_col.
      destruct (dy <? sy), (dx <? sx); lia. }
    destruct Hq as (Hqin & Hqa & Hqb).
    destruct (cell_in_buffer W H B qx qy) as [Hk0 Hk1]; try lia.
    destruct (cell_in_buffer W H B (qx + sx - dx) (qy + sy - dy))
      as [Hs0 Hs1]; try lia.
    assert (Hoff : off + (qy * W + qx) = (qy + sy - dy) * W + (qx + sx - dx))
      by (unfold off; lia).
    destruct (copy_pixel_spec be BPP off (qy * W + qx) fb1)
      as (fb2 & Hcp & Hl2 & Hnew & Hold); try assumption;
      rewrite ?Hoff; try lia.
    exists fb2. split; [exact Hcp|]. split; [congruence|].
    rewrite Hoff in Hnew. fold B in Hnew, Hold.
    intros px py Hpx Hpy.
    destruct (Z.eq_dec (py * W + px) (qy * W + qx)) as [Heq | Hne].
    + apply cell_index_inj in Heq as [-> ->]; try lia.
      split.
      * intros _. rewrite Hnew.
        (* the source cell has not been written yet *)
        apply (Hc1 (qx + sx - dx) (qy + sy - dy)); try lia.
        unfold done. intros [[Hin1 Hin2] Hbefore].
        revert Hqa Hqb Hbefore. unfold ra, cb.
        destruct (Z.ltb_spec dy sy), (Z.ltb_spec dx sx); lia.
      * intros Hnd. exfalso. apply Hnd. unfold done. lia.
    + assert (Hdisj : (py * W + px + 1) * B <= (qy * W + qx) * B \/
                      (qy * W + qx + 1) * B <= (py * W + px) * B).
      { destruct (Z_lt_le_dec (py * W + px) (qy * W + qx)); [left | right];
          apply Z.mul_le_mono_nonneg_r; lia. }
      assert (0 <= (py * W + px) * B).
      { apply Z.mul_nonneg_nonneg; [|lia].
        assert (0 <= py * W) by (apply Z.mul_nonneg_nonneg; lia). lia. }
      rewrite Hold by lia.
      destruct (Hc1 px py Hpx Hpy) as [Hd Hnd].
      assert (Hwhich : px <> qx \/ py <> qy)
        by (destruct (Z.eq_dec px qx), (Z.eq_dec py qy); subst; auto;
            exfalso; apply Hne; reflexivity).
      split; intros Hcase.
      * apply Hd. revert Hcase Hqa Hqb Hwhich. unfold done, ra, cb.
        destruct (Z.ltb_spec dy sy), (Z.ltb_spec dx sx); lia.
      * apply Hnd. revert Hcase Hqa Hqb Hwhich. unfold done, ra, cb.
        destruct (Z.ltb_spec dy sy), (Z.ltb_spec dx sx); lia.
  - (* a row is complete *)
    intros a fb1 Ha (Hl1 & Hc1). split; [exact Hl1|].
    intros px py Hpx Hpy. destruct (Hc1 px py Hpx Hpy) as [Hd Hnd].
    split; intros Hcase; [apply Hd | apply Hnd];
      revert Hcase; unfold done, ra, cb;
      destruct (Z.ltb_spec dy sy), (Z.ltb_spec dx sx); lia.
  - (* nothing is copied at the start *)
    split; [reflexivity|]. intros px py Hpx Hpy.
    split; [|reflexivity]. unfold done, ra, cb.
    destruct (Z.ltb_spec dy sy), (Z.ltb_spec dx sx); lia.
  - exists fb'. split; [exact Hrun|]. split; [exact Hlen'|].
    intros px py Hpx Hpy.
    destruct (Hcells px py Hpx Hpy) as [Hd Hnd].
    destruct (in_rect dx dy w h px py) eqn:Hrect.
    + apply in_rect_true in Hrect. rewrite Hd; [reflexivity|].
      unfold done, ra, cb.
      destruct (Z.ltb_spec dy sy), (Z.ltb_spec dx sx); lia.
    + apply Hnd. intros [Hdone _].
      assert (in_rect dx dy w h px py = true) by (apply in_rect_true; lia).
      congruence.
Qed.

Lemma pixel_bytes be client fb px py :
  FrameBuffer_ok client fb -> forall fb1, length fb1 = length fb ->
  0 <= px < width client -> 0 <= py < height client ->
  pixel be client fb1 px py = Done (decode be (row_bytes client fb1 px py 1)).
Proof.
  intros Hok fb1 Hl Hpx Hpy.
  destruct (supported_bytes _ (fb_bpp _ _ Hok)) as [HB HBPP].
  pose proof (fb_length _ _ Hok) as Hlen.
  destruct (cell_in_buffer (width client) (height client)
              (bitsPerPixel (format client) / 8) px py) as [Hk0 Hk1]; try lia.
  unfold pixel, row_bytes. rewrite Z.mul_1_l.
  apply load_uint_done; lia.
Qed.

Lemma CopyRectangleFromRectangle_moves be client fb sx sy w h dx dy fuel :
  FrameBuffer_ok client fb -> cells_fit_int client ->
  contains client sx sy w h -> contains client dx dy w h ->
  0 < width client -> fits fuel w -> fits fuel h ->
  exists fb',
    CopyRectangleFromRectangle be fuel client sx sy w h dx dy
    = Done (set_frameBuffer client (Some fb')) /\
    length fb' = length fb /\
    forall px py, 0 <= px < width client -> 0 <= py < height client ->
      pixel be client fb' px py
      = if in_rect dx dy w h px py
        then pixel be client fb (px + sx - dx) (py + sy - dy)
        else pixel be client fb px py.
Proof.
  intros Hok Hint Hsrc Hdst HWpos Hfw Hfh.
  destruct (COPY_RECT_FROM_RECT_spec be client fb sx sy w h dx dy fuel)
    as (fb' & Hrun & Hlen' & Hcells); try assumption.
  exists fb'. split; [|split; [exact Hlen'|]].
  - unfold CopyRectangleFromRectangle.
    rewrite (fb_held _ _ Hok), (CheckRect_contains _ _ _ _ _ _ Hok Hsrc),
      (CheckRect_contains _ _ _ _ _ _ Hok Hdst). simpl.
    destruct (fb_bpp _ _ Hok) as [E | [E | E]]; rewrite E in Hrun |- *;
      rewrite Hrun; reflexivity.
  - intros px py Hpx Hpy.
    rewrite (pixel_bytes be client fb px py Hok fb') by assumption.
    rewrite Hcells by assumption.
    destruct (in_rect dx dy w h px py) eqn:Hrect.
    + apply in_rect_true in Hrect.
      destruct Hsrc as (Hsx & Hsy & Hw & Hh & Hsxw & Hsyh).
      rewrite (pixel_bytes be client fb _ _ Hok fb) by (reflexivity || lia).
      reflexivity.
    + rewrite (pixel_bytes be client fb _ _ Hok fb) by (reflexivity || lia).
      reflexivity.
Qed.

Lemma CopyRectangleFromRectangle_same_place be client fb x y w h fuel :
  FrameBuffer_ok client fb -> cells_fit_int client -> contains client x y w h ->
  0 < width client -> fits fuel w -> fits fuel h ->
  CopyRectangleFromRectangle be fuel client x y w h x y
  = Done (set_frameBuffer client (Some fb)).
Proof.
  intros Hok Hint Hin HWpos Hfw Hfh.
  assert (Hrun : COPY_RECT_FROM_RECT be (bitsPerPixel (format client)) fuel
                   client x y w h x y fb = Done fb).
  { rewrite COPY_RECT_FROM_RECT_grid with (fb := fb) by assumption.
    destruct (FrameBuffer_bounds _ _ Hok Hint) as (HW & HH & HB & HBPP & HWH & Hlen).
    pose proof (fb_bpp _ _ Hok) as Hsup.
    destruct Hin as (Hx & Hy & Hw & Hh & Hxw & Hyh).
    destruct (run_grid
                (fun a b fb2 =>
                   copy_pixel be (bitsPerPixel (format client))
                     ((y - y) * width client + x - x)
                     (visit_row y h y a * width client + visit_col x w x b) fb2)
                (fun _ _ fb' => fb' = fb) (Z.to_nat h) (Z.to_nat w))
      with (s := fb) as (fb' & Hrun & ->); [| |reflexivity|exact Hrun].
    - intros a b fb1 Ha Hb ->. exists fb. split; [|reflexivity].
      replace ((y - y) * width client + x - x) with 0 by lia.
      assert (Hq : x <= visit_col x w x b < x + w /\
                   y <= visit_row y h y a < y + h).
      { unfold visit_row, visit_col. rewrite !Z.ltb_irrefl. lia. }
      destruct (cell_in_buffer (width client) (height client)
                  (bitsPerPixel (format client) / 8)
                  (visit_col x w x b) (visit_row y h y a)) as [Hk0 Hk1];
        try lia.
      apply copy_pixel_self; try assumption; lia.
    - intros; assumption. }
  unfold CopyRectangleFromRectangle.
  rewrite (fb_held _ _ Hok), (CheckRect_contains _ _ _ _ _ _ Hok Hin). simpl.
  destruct (fb_bpp _ _ Hok) as [E | [E | E]]; rewrite E in Hrun |- *;
    rewrite Hrun; reflexivity.
Qed.

(** ** MallocFrameBuffer *)

Lemma allocSize_set_frameBuffer client fb :
  allocSize (set_frameBuffer client fb) = allocSize client.
Proof. reflexivity. Qed.

Lemma MallocFrameBuffer_failure_paths SIZE_MAX malloc client evs ok client' :
  MallocFrameBuffer SIZE_MAX malloc client = (evs, (ok, client')) ->
  (SIZE_MAX < allocSize client -> ok = false) /\
  (malloc (allocSize client mod (SIZE_MAX + 1)) = None -> ok = false) /\
  (ok = false ->
     frameBuffer client' = None /\
     forall old, frameBuffer client = Some old ->
       hd_error evs = Some (HeapFree old)).
Proof.
  unfold MallocFrameBuffer. intros Hrun.
  destruct (frameBuffer client) as [old|] eqn:Hfb;
    rewrite ?allocSize_set_frameBuffer in Hrun;
    destruct (Z.geb_spec (allocSize client) SIZE_MAX) as [Hbig | Hsmall];
    try destruct (malloc (allocSize client mod (SIZE_MAX + 1))) as [blk|] eqn:Hm;
    inversion Hrun; subst; clear Hrun; simpl;
    repeat split; intros; try congruence; try lia.
Qed.

(** ** rfbClientCleanup *)

Lemma closed_sockets_app evs1 evs2 :
  closed_sockets (evs1 ++ evs2) = closed_sockets evs1 ++ closed_sockets evs2.
Proof. apply flat_map_app. Qed.

Lemma closed_sockets_inflateEnd inflateEnd stream :
  closed_sockets (inflateEnd_events inflateEnd stream) = [].
Proof.
  unfold inflateEnd_events.
  destruct (inflateEnd stream) as [rc [m|]], stream, (negb (rc =? Z_OK));
    reflexivity.
Qed.

Lemma closed_sockets_free_if_set p : closed_sockets (free_if_set p) = [].
Proof. destruct p; reflexivity. Qed.

Lemma closed_sockets_frees (nodes : list ptr) :
  closed_sockets (map (fun node => Free (Some node)) nodes) = [].
Proof. induction nodes; simpl; auto. Qed.

Lemma closed_sockets_streams inflateEnd (active : list bool) (ids : list nat) :
  closed_sockets
    (flat_map (fun i => if nth i active false
                        then inflateEnd_events inflateEnd (Some i) else [])
              ids) = [].
Proof.
  induction ids as [|i ids IH]; simpl; [reflexivity|].
  rewrite closed_sockets_app, IH.
  destruct (nth i active false);
    rewrite ?closed_sockets_inflateEnd; reflexivity.
Qed.

(** The teardown closes [sock] and [listenSock], each when it is valid,
    and nothing else. *)
Lemma rfbClientCleanup_closes INVALID libz sasl inflateEnd client :
  closed_sockets (rfbClientCleanup INVALID libz sasl inflateEnd client)
  = (if sock client =? INVALID then [] else [sock client])
    ++ (if listenSock client =? INVALID then [] else [listenSock client]).
Proof.
  unfold rfbClientCleanup.
  repeat rewrite closed_sockets_app.
  rewrite !closed_sockets_free_if_set, closed_sockets_frees.
  assert (Hz : closed_sockets
                 (if libz
                  then flat_map
                         (fun i => if nth i (zlibStreamActive client) false
                                   then inflateEnd_events inflateEnd (Some i)
                                   else [])
                         (seq 0 4)
                       ++ (if decompStreamInited client
                           then inflateEnd_events inflateEnd None else [])
                  else []) = []).
  { destruct libz; [|reflexivity].
    rewrite closed_sockets_app, closed_sockets_streams.
    destruct (decompStreamInited client);
      rewrite ?closed_sockets_inflateEnd; reflexivity. }
  rewrite Hz.
  assert (Hs : closed_sockets (if sasl then free_if_set (saslSecret client) else [])
               = []).
  { destruct sasl; [apply closed_sockets_free_if_set|reflexivity]. }
  rewrite Hs. unfold close_if_valid.
  destruct (sock client =? INVALID), (listenSock client =? INVALID);
    reflexivity.
Qed.

(** ** Credential callbacks *)

Lemma quiet_ret {A} (a : A) : quiet (Cred.ret a).
Proof.
  intros st. split; [reflexivity|]. exists []. rewrite app_nil_r. auto.
Qed.

Lemma quiet_fault {A} : quiet (@Cred.fault A).
Proof.
  intros st. split; [reflexivity|]. exists []. rewrite app_nil_r. auto.
Qed.

Lemma quiet_emit e :
  Cred.consults_env_or_terminal e = false -> quiet (Cred.emit e).
Proof.
  intros He st. split; [reflexivity|]. exists [e]. simpl. rewrite He. auto.
Qed.

Lemma quiet_bind {A B} (m : Cred.M A) (k : A -> Cred.M B) :
  quiet m -> (forall a, quiet (k a)) -> quiet (Cred.bind m k).
Proof.
  intros Hm Hk st. unfold Cred.bind.
  specialize (Hm st). destruct (m st) as [[a| |] st1]; simpl in *; auto.
  specialize (Hk a st1). destruct (k a st1) as [r st2]. simpl in *.
  destruct Hm as (Hin1 & new1 & Ht1 & Hq1), Hk as (Hin2 & new2 & Ht2 & Hq2).
  split; [congruence|]. exists (new1 ++ new2).
  rewrite Ht2, Ht1, app_assoc, forallb_app, Hq1, Hq2. auto.
Qed.

Ltac quiet_steps :=
  repeat first
    [ apply quiet_ret
    | apply quiet_fault
    | apply quiet_emit; reflexivity
    | apply quiet_bind; [|intros ?] ].

Lemma quiet_read_into w out target : quiet (Cred.read_into w out target).
Proof.
  unfold Cred.read_into. apply quiet_bind; [quiet_steps|intros _].
  destruct (Cred.getline (Cred.getline_eof w) out) as [[len line] rest].
  destruct (len >? 0); [|quiet_steps].
  apply quiet_bind; [|intros ?; quiet_steps].
  unfold Cred.assign. destruct target; quiet_steps.
Qed.

Lemma quiet_deref p : quiet (Cred.deref p).
Proof. unfold Cred.deref. destruct p; quiet_steps. Qed.

Lemma quiet_RunAuthCommand w user pass : quiet (Cred.RunAuthCommand w user pass).
Proof.
  unfold Cred.RunAuthCommand.
  apply quiet_bind; [quiet_steps|intros _].
  destruct (negb (Cred.pipe_ok w)); [quiet_steps|].
  destruct (negb (Cred.fdopen_ok w)); [quiet_steps|].
  apply quiet_bind; [quiet_steps|intros _].
  destruct (Cred.fork_pid w =? -1); [quiet_steps|].
  apply quiet_bind; [quiet_steps|intros _].
  apply quiet_bind; [quiet_steps|intros _].
  apply quiet_bind; [quiet_steps|intros _].
  destruct (Cred.waitpid_rc w <? 0); [quiet_steps|].
  destruct (negb (Cred.wifexited w)); [quiet_steps|].
  apply quiet_bind.
  { destruct user; [apply quiet_read_into|quiet_steps]. }
  intros [user1 out1].
  apply quiet_bind; [apply quiet_read_into|].
  intros [pass1 out2].
  apply quiet_bind; [apply quiet_deref|intros u].
  apply quiet_bind.
  { destruct (Cred.is_set u); [|quiet_steps].
    apply quiet_bind; [apply quiet_deref|intros ?; quiet_steps]. }
  intros missing_user.
  apply quiet_bind.
  { destruct missing_user; [quiet_steps|].
    apply quiet_bind; [apply quiet_deref|intros ?; quiet_steps]. }
  intros missing. destruct missing; quiet_steps.
Qed.

Lemma quiet_ReadPassword w cmd :
  Cred.auth_command w = Some cmd -> quiet (Cred.ReadPassword w).
Proof.
  intros Hcmd. unfold Cred.ReadPassword. rewrite Hcmd.
  apply quiet_bind; [apply quiet_RunAuthCommand|].
  intros [[rc user] pass]. destruct (rc <? 0); [quiet_steps|].
  destruct pass; quiet_steps.
Qed.

Lemma quiet_ReadUsernameAndPassword w cmd :
  Cred.auth_command w = Some cmd -> quiet (Cred.ReadUsernameAndPassword w).
Proof.
  intros Hcmd. unfold Cred.ReadUsernameAndPassword. rewrite Hcmd.
  apply quiet_bind; [apply quiet_RunAuthCommand|].
  intros [[rc user] pass]. destruct (rc <? 0); quiet_steps.
Qed.

Lemma alike_ret {A} (a : A) : alike (Cred.ret a) (Cred.ret a).
Proof. intros st st'. reflexivity. Qed.

Lemma alike_fault {A} : alike (@Cred.fault A) (@Cred.fault A).
Proof. intros st st'. reflexivity. Qed.

Lemma alike_emit e e' : alike (Cred.emit e) (Cred.emit e').
Proof. intros st st'. reflexivity. Qed.

Lemma alike_bind {A B} (m m' : Cred.M A) (k k' : A -> Cred.M B) :
  alike m m' -> (forall a, alike (k a) (k' a)) ->
  alike (Cred.bind m k) (Cred.bind m' k').
Proof.
  intros Hm Hk st st'. unfold Cred.bind.
  specialize (Hm st st').
  destruct (m st) as [[a| |] st1], (m' st') as [[a'| |] st1'];
    simpl in Hm; try discriminate; try reflexivity.
  inversion Hm; subst. apply Hk.
Qed.

Ltac alike_steps :=
  repeat first
    [ apply alike_ret
    | apply alike_fault
    | apply alike_emit
    | apply alike_bind; [|intros ?] ].

Lemma alike_read_into w out target :
  alike (Cred.read_into w out target) (Cred.read_into w out target).
Proof.
  unfold Cred.read_into. apply alike_bind; [alike_steps|intros _].
  destruct (Cred.getline (Cred.getline_eof w) out) as [[len line] rest].
  destruct (len >? 0); [|alike_steps].
  apply alike_bind; [|intros ?; alike_steps].
  unfold Cred.assign. destruct target; alike_steps.
Qed.

Lemma alike_deref p : alike (Cred.deref p) (Cred.deref p).
Proof. unfold Cred.deref. destruct p; alike_steps. Qed.

Lemma read_into_same w w' out target :
  Cred.getline_eof w' = Cred.getline_eof w ->
  Cred.read_into w' out target = Cred.read_into w out target.
Proof. intros H. unfold Cred.read_into. rewrite H. reflexivity. Qed.

Lemma alike_RunAuthCommand w w' user pass :
  same_command_run w w' ->
  alike (Cred.RunAuthCommand w' user pass) (Cred.RunAuthCommand w user pass).
Proof.
  intros [Hcmd Hsh Hpipe Hfd Hfork Hwait Hexit Hout Heof].
  unfold Cred.RunAuthCommand.
  rewrite Hcmd, Hsh, Hpipe, Hfd, Hfork, Hwait, Hexit, Hout.
  rewrite !(read_into_same w w') by assumption.
  apply alike_bind; [alike_steps|intros _].
  destruct (negb (Cred.pipe_ok w)); [alike_steps|].
  destruct (negb (Cred.fdopen_ok w)); [alike_steps|].
  apply alike_bind; [alike_steps|intros _].
  destruct (Cred.fork_pid w =? -1); [alike_steps|].
  apply alike_bind; [alike_steps|intros _].
  apply alike_bind; [alike_steps|intros _].
  apply alike_bind; [alike_steps|intros _].
  destruct (Cred.waitpid_rc w <? 0); [alike_steps|].
  destruct (negb (Cred.wifexited w)); [alike_steps|].
  apply alike_bind.
  { destruct user; [apply alike_read_into|alike_steps]. }
  intros [user1 out1].
  rewrite !(read_into_same w w') by assumption.
  apply alike_bind; [apply alike_read_into|].
  intros [pass1 out2].
  apply alike_bind; [apply alike_deref|intros u].
  apply alike_bind.
  { destruct (Cred.is_set u); [|alike_steps].
    apply alike_bind; [apply alike_deref|intros ?; alike_steps]. }
  intros missing_user.
  apply alike_bind.
  { destruct missing_user; [alike_steps|].
    apply alike_bind; [apply alike_deref|intros ?; alike_steps]. }
  intros missing. destruct missing; alike_steps.
Qed.

Lemma alike_ReadPassword w w' cmd :
  Cred.auth_command w = Some cmd -> same_command_run w w' ->
  alike (Cred.ReadPassword w') (Cred.ReadPassword w).
Proof.
  intros Hcmd Hsame. unfold Cred.ReadPassword.
  rewrite (same_auth_command _ _ Hsame), Hcmd.
  apply alike_bind; [apply alike_RunAuthCommand; assumption|].
  intros [[rc user] pass]. destruct (rc <? 0); [alike_steps|].
  destruct pass; alike_steps.
Qed.

Lemma alike_ReadUsernameAndPassword w w' cmd :
  Cred.auth_command w = Some cmd -> same_command_run w w' ->
  alike (Cred.ReadUsernameAndPassword w') (Cred.ReadUsernameAndPassword w).
Proof.
  intros Hcmd Hsame. unfold Cred.ReadUsernameAndPassword.
  rewrite (same_auth_command _ _ Hsame), Hcmd.
  apply alike_bind; [apply alike_RunAuthCommand; assumption|].
  intros [[rc user] pass]. destruct (rc <? 0); alike_steps.
Qed.

Ltac run_auth w Hran :=
  destruct Hran as [Hpipe Hfd Hfork Hwait Hexit];
  unfold Cred.RunAuthCommand, Cred.bind, Cred.emit, Cred.ret;
  rewrite Hpipe, Hfd, Hexit; cbn [negb];
  destruct (Z.eqb_spec (Cred.fork_pid w) (-1)) as [|_]; [contradiction|];
  destruct (Z.ltb_spec (Cred.waitpid_rc w) 0) as [|_]; [lia|].

(** Without a username slot the test of the results reads through the NULL
    pointer, whatever the command printed. *)
Lemma RunAuthCommand_null_username w pass st :
  command_ran w ->
  fst (Cred.RunAuthCommand w None (Some pass) st) = Fault.
Proof.
  intros Hran. run_auth w Hran.
  unfold Cred.read_into, Cred.bind, Cred.emit, Cred.ret.
  destruct (Cred.getline _ _) as [[len line] rest].
  destruct (len >? 0); reflexivity.
Qed.

(** With a username slot, an output of less than two lines is reported. *)
Lemma RunAuthCommand_short_output w st :
  command_ran w ->
  snd (Cred.take_line (command_output w)) = EmptyString ->
  exists user pass,
    fst (Cred.RunAuthCommand w (Some None) (Some None) st)
    = Done (-1, user, pass).
Proof.
  intros Hran Hshort. run_auth w Hran.
  unfold command_output, shell_of in Hshort.
  unfold Cred.read_into, Cred.bind, Cred.emit, Cred.ret, Cred.getline.
  destruct (Cred.child_stdout w _ _) as [|c out] eqn:Hout.
  - simpl. eauto.
  - destruct (Cred.take_line (String c out)) as [l r]. simpl in Hshort.
    subst r.
    destruct (Z.of_nat (String.length l) >? 0); simpl; eauto.
Qed.

(** ** The bottom-to-top row loop on a buffer of no width *)

Lemma COPY_RECT_FROM_RECT_zero_width be BPP client sx sy w h dx dy fb :
  width client = 0 ->
  contains client sx sy w h -> contains client dx dy w h ->
  sy <= dy ->
  forall fuel,
    COPY_RECT_FROM_RECT be BPP fuel client sx sy w h dx dy fb = Diverge.
Proof.
  intros HW0 Hsrc Hdst Hdir fuel.
  destruct Hsrc as (Hsx & Hsy & Hw & Hh & Hsxw & Hsyh).
  destruct Hdst as (Hdx & Hdy & _ & _ & Hdxw & Hdyh).
  rewrite HW0 in *.
  assert (w = 0) by lia. assert (dx = 0) by lia. assert (sx = 0) by lia.
  subst w dx sx.
  unfold COPY_RECT_FROM_RECT. cbv zeta. rewrite HW0.
  destruct (Z.ltb_spec dy sy) as [|_]; [lia|].
  unfold CInt.mul. rewrite !Z.mul_0_r.
  change (CInt.wrap 0) with 0.
  apply for_loop_stuck; try reflexivity.
  apply for_loop_exit. reflexivity.
Qed.

Lemma CopyRectangleFromRectangle_zero_width be client fb sx sy w h dx dy :
  frameBuffer client = Some fb ->
  supported (bitsPerPixel (format client)) ->
  width client = 0 -> 0 <= height client <= 65535 ->
  contains client sx sy w h -> contains client dx dy w h ->
  sy <= dy ->
  forall fuel,
    CopyRectangleFromRectangle be fuel client sx sy w h dx dy = Diverge.
Proof.
  intros Hfb Hsup HW0 HH Hsrc Hdst Hdir fuel.
  pose proof (COPY_RECT_FROM_RECT_zero_width be (bitsPerPixel (format client))
                client sx sy w h dx dy fb HW0 Hsrc Hdst Hdir fuel) as Hrun.
  unfold CopyRectangleFromRectangle. rewrite Hfb.
  assert (Hc1 : CheckRect client sx sy w h = true).
  { destruct Hsrc as (? & ? & ? & ? & ? & ?).
    apply CheckRect_spec; int_range || lia. }
  assert (Hc2 : CheckRect client dx dy w h = true).
  { destruct Hdst as (? & ? & ? & ? & ? & ?).
    apply CheckRect_spec; int_range || lia. }
  rewrite Hc1, Hc2. simpl.
  destruct Hsup as [E | [E | E]]; rewrite E in Hrun |- *;
    rewrite Hrun; reflexivity.
Qed.

(** ** Sessions as the code makes them *)

(** A session built by [rfbGetClient] holds no valid descriptor, and its
    teardown closes none. *)
Lemma fresh_session_closes_nothing INVALID libz sasl be inflateEnd host
    bitsPerSample samplesPerPixel bytesPerPixel client :
  rfbGetClient INVALID be true host bitsPerSample samplesPerPixel bytesPerPixel
  = Some client ->
  sock client = INVALID /\ listenSock client = INVALID /\
  listen6Sock client = INVALID /\
  closed_sockets (rfbClientCleanup INVALID libz sasl inflateEnd client) = [].
Proof.
  unfold rfbGetClient. simpl. intros Hnew. inversion Hnew; subst; clear Hnew.
  rewrite rfbClientCleanup_closes. simpl. rewrite Z.eqb_refl. auto.
Qed.

(** [MallocFrameBuffer] on a session of width 0 asks [malloc] for 0 bytes;
    where [malloc] answers with a block, the session holds a framebuffer of
    no byte. *)
Example zero_width_session_is_allocated :
  MallocFrameBuffer 18446744073709551615 (fun _ => Some []) (session None 0 2 16)
  = ([HeapMalloc 0], (true, session (Some []) 0 2 16)).
Proof. reflexivity. Qed.

(** The example of the relocation by one cell down and right: the cells
    1 2 / 3 4 at (0,0) arrive at (1,1) in the same arrangement. *)
Example selfcopy_down_right (be : bool) :
  (pasted <- CopyRectangle 2 (session (Some (zeroed 16)) 4 4 8)
               (map byte.of_Z [1; 2; 3; 4]) 0 0 2 2 ;;
   moved <- CopyRectangleFromRectangle be 2 pasted 0 0 2 2 1 1 ;;
   Done (pixel_rows be moved))
  = Done [[Done 1; Done 2; Done 0; Done 0];
          [Done 3; Done 1; Done 2; Done 0];
          [Done 0; Done 3; Done 4; Done 0];
          [Done 0; Done 0; Done 0; Done 0]].
Proof. destruct be; vm_compute; reflexivity. Qed.

(** Without an auth command the password is asked for at the terminal. *)
Example ReadPassword_at_terminal :
  Cred.ReadPassword (scripted_world vnc_env None EmptyString)
    (at_terminal (line "typed"))
  = (Done (Some "typed"%string),
     {| Cred.stdin := EmptyString;
        Cred.trace := [Cred.EvTcGetAttr; Cred.EvTcSetAttr false;
                       Cred.EvPrompt "Password"; Cred.EvReadStdin;
                       Cred.EvTcSetAttr true] |}).
Proof. reflexivity. Qed.

(** * The properties of the specification *)

Lemma session_ok fb W H bpp :
  supported bpp -> 0 <= W <= 65535 -> 0 <= H <= 65535 ->
  Z.of_nat (length fb) = W * H * (bpp / 8) ->
  FrameBuffer_ok (session (Some fb) W H bpp) fb.
Proof. intros. constructor; simpl; auto. Qed.

(** C1 (SelfCopy as an overlapping-region move).  On a framebuffer of
    width 0 -- a zero-length buffer, which [malloc] may well return as a
    non-NULL pointer -- the bottom-to-top row loop
    [for (j = (dest_y+h-1)*width; j >= dest_y*width; j -= width)]
    never leaves: the call with the source at (0,0), the destination one
    row below at (0,1), and both rectangles contained, uses up any amount of
    fuel.  The session is the one [MallocFrameBuffer] makes
    ([zero_width_session_is_allocated]).  For every framebuffer of positive
    width whose number of cells fits an [int] the move is correct in all
    four directions: [CopyRectangleFromRectangle_moves]. *)
Theorem CopyRectangleFromRectangle_hangs_on_zero_width (be : bool) (fuel : nat) :
  CopyRectangleFromRectangle be fuel (session (Some []) 0 2 16) 0 0 0 1 0 1
  = Diverge.
Proof.
  apply CopyRectangleFromRectangle_zero_width with (fb := []);
    try reflexivity; unfold contains, supported; simpl; lia.
Qed.

(** C2 (failure of Allocate).  [MallocFrameBuffer] answers FALSE when the
    64-bit size computed from width, height and bitsPerPixel exceeds
    [SIZE_MAX], and when [malloc] returns NULL; whenever it answers FALSE
    the session is left with a NULL framebuffer, and a buffer held before
    the call was freed first. *)
Theorem MallocFrameBuffer_fails_cleanly (SIZE_MAX : Z)
    (malloc : Z -> option (list byte)) (client : rfbClient) :
  let r := MallocFrameBuffer SIZE_MAX malloc client in
  (SIZE_MAX < allocSize client -> fst (snd r) = false) /\
  (malloc (allocSize client mod (SIZE_MAX + 1)) = None ->
     fst (snd r) = false) /\
  (fst (snd r) = false ->
     frameBuffer (snd (snd r)) = None /\
     forall old, frameBuffer client = Some old ->
       hd_error (fst r) = Some (HeapFree old)).
Proof.
  intros r.
  destruct r as [evs [ok client']] eqn:Hr. simpl.
  exact (MallocFrameBuffer_failure_paths SIZE_MAX malloc client evs ok client' Hr).
Qed.

Lemma MallocFrameBuffer_fails_cleanly_witness :
  let client := session (Some (zeroed 4)) 65535 65535 32 in
  let r := MallocFrameBuffer 4294967295 (fun _ => Some []) client in
  fst (snd r) = false /\
  frameBuffer (snd (snd r)) = None /\
  hd_error (fst r) = Some (HeapFree (zeroed 4)).
Proof.
  intros client r.
  destruct (MallocFrameBuffer_fails_cleanly 4294967295 (fun _ => Some []) client)
    as (Hbig & _ & Hfail).
  assert (Hfalse : fst (snd r) = false) by (apply Hbig; vm_compute; reflexivity).
  destruct (Hfail Hfalse) as [Hnull Hfreed].
  split; [exact Hfalse|]. split; [exact Hnull|].
  apply Hfreed. reflexivity.
Defined.

(** C3 (rectangles that fail the check).  When [CheckRect] fails -- for
    sums within [int], exactly when [x + w <= width] and [y + h <= height]
    do not both hold -- FillRectangle and CopyRectangle return the session
    as it was, framebuffer included; CopyRectangleFromRectangle does so when
    the source or the destination rectangle fails the check. *)
Theorem rect_out_of_bounds_noop (be : bool) (fuel : nat) (client : rfbClient)
    (buffer : list byte) (x y w h colour sx sy dx dy : Z) :
  (CInt.in_range (x + w) -> CInt.in_range (y + h) ->
     (CheckRect client x y w h = false
      <-> ~ (x + w <= width client /\ y + h <= height client))) /\
  (CheckRect client x y w h = false ->
     FillRectangle be fuel client x y w h colour = Done client /\
     CopyRectangle fuel client buffer x y w h = Done client) /\
  (CheckRect client sx sy w h = false \/ CheckRect client dx dy w h = false ->
     CopyRectangleFromRectangle be fuel client sx sy w h dx dy = Done client).
Proof.
  unfold FillRectangle, CopyRectangle, CopyRectangleFromRectangle.
  split; [|split].
  - intros Hx Hy. rewrite <- (CheckRect_spec client x y w h Hx Hy).
    destruct (CheckRect client x y w h); split; congruence.
  - intros Hchk. rewrite Hchk. destruct (frameBuffer client); auto.
  - intros [Hchk | Hchk]; destruct (frameBuffer client); try reflexivity.
    + rewrite Hchk. reflexivity.
    + rewrite Hchk. destruct (CheckRect client sx sy w h); reflexivity.
Qed.

Lemma rect_out_of_bounds_noop_witness :
  let client := session (Some (zeroed 32)) 4 4 16 in
  FillRectangle false 0 client 3 3 2 2 65535 = Done client /\
  CopyRectangle 0 client (zeroed 8) 3 3 2 2 = Done client /\
  CopyRectangleFromRectangle false 0 client 0 0 2 2 3 3 = Done client.
Proof.
  intros client.
  destruct (rect_out_of_bounds_noop false 0 client (zeroed 8)
              3 3 2 2 65535 0 0 3 3) as (_ & Hfill & Hself).
  destruct Hfill as [Hf Hc]; [reflexivity|].
  split; [exact Hf|]. split; [exact Hc|].
  apply Hself. right. reflexivity.
Defined.

(** The example of the data model: on the zeroed 4x4 buffer of 16-bit
    pixels, filling rect{0,0,2,2} with 0xFFFF sets the cells (0,0), (1,0),
    (0,1), (1,1) and leaves the others zero. *)
Example fill_top_left (be : bool) :
  (client' <- FillRectangle be 2 (session (Some (zeroed 32)) 4 4 16)
                0 0 2 2 65535 ;;
   Done (pixel_rows be client'))
  = Done [[Done 65535; Done 65535; Done 0; Done 0];
          [Done 65535; Done 65535; Done 0; Done 0];
          [Done 0; Done 0; Done 0; Done 0];
          [Done 0; Done 0; Done 0; Done 0]].
Proof. destruct be; vm_compute; reflexivity. Qed.

(** C4 (Fill).  [FILL_RECT] counts pixel cells in an [int]:
    [for (j = y * client->width; j < (y + h) * client->width; ...)].
    A framebuffer of 65535 x 65535 pixels of 8 bits satisfies the
    invariant of the data model, and [MallocFrameBuffer], which widens its
    own product to 64 bits for this very reason, grants it wherever
    [size_t] has 64 bits.  The rectangle {0, 65534, 1, 1} of its last row
    is contained and passes [CheckRect], but 65534 * 65535 does not fit an
    [int]: with the wrap-around of two's complement the first store lands
    196606 cells before the buffer, whatever the buffer holds.  For every
    framebuffer whose number of cells fits an [int] the claim holds
    ([FillRectangle_fills]), and so does its example
    ([fill_top_left]). *)
Theorem FillRectangle_overflows_int (be : bool) (fb : list byte)
    (colour : Z) (fuel : nat) :
  let client := session (Some fb) 65535 65535 8 in
  MallocFrameBuffer 18446744073709551615 (fun _ => Some fb)
    (session None 65535 65535 8)
  = ([HeapMalloc 4294836225], (true, client)) /\
  (Z.of_nat (length fb) = 65535 * 65535 * (8 / 8) ->
   FrameBuffer_ok client fb) /\
  contains client 0 65534 1 1 /\
  CheckRect client 0 65534 1 1 = true /\
  FillRectangle be (Datatypes.S fuel) client 0 65534 1 1 colour = Fault.
Proof.
  intros client. split; [reflexivity|]. split; [|split; [|split]].
  - intros Hlen. apply session_ok; unfold supported; (lia || auto).
  - unfold contains; simpl; lia.
  - reflexivity.
  - reflexivity.
Qed.

(** C5 (BlockCopy).  [COPY_RECT] counts bytes in an [int]:
    [for (j = x * (BPP / 8) + y * rs2; j < (y + h) * rs2; j += rs2)] with
    [rs2 = client->width * BPP / 8].  On the framebuffer of
    65535 x 65535 pixels of 8 bits (see C4: within the data model, and
    granted by [MallocFrameBuffer]) the contained rectangle
    {0, 65534, 1, 1} makes [y * rs2] = 65534 * 65535 leave the [int]
    range: with the wrap-around of two's complement the [memcpy] of the
    row is aimed 196606 bytes before the buffer, whatever buffer and
    source hold.  It is the defect of C4.  For every framebuffer whose
    size in bytes, plus one row, fits an [int] the claim holds:
    [CopyRectangle_copies]. *)
Theorem CopyRectangle_overflows_int (fb buffer : list byte) (fuel : nat) :
  let client := session (Some fb) 65535 65535 8 in
  (Z.of_nat (length fb) = 65535 * 65535 * (8 / 8) ->
   FrameBuffer_ok client fb) /\
  contains client 0 65534 1 1 /\
  CheckRect client 0 65534 1 1 = true /\
  CopyRectangle (Datatypes.S fuel) client buffer 0 65534 1 1 = Fault.
Proof.
  intros client. split; [|split; [|split]].
  - intros Hlen. apply session_ok; unfold supported; (lia || auto).
  - unfold contains; simpl; lia.
  - reflexivity.
  - unfold CopyRectangle, client, COPY_RECT, memcpy. cbn.
    destruct (load_bytes buffer 0 1) as [bs| |] eqn:Hload; try reflexivity.
    unfold load_bytes in Hload. destruct (in_bounds buffer 0 1); discriminate.
Qed.

(** C6 (sockets at teardown).  A session that holds the open descriptors
    3 (primary), 4 (IPv4 listener) and 5 (IPv6 listener): [rfbClientCleanup]
    hands 3 and 4 to [rfbCloseSocket], and never 5.  In general the
    descriptors closed are [sock] and [listenSock], each when it is not the
    invalid sentinel: [rfbClientCleanup_closes]. *)
Theorem rfbClientCleanup_leaves_listen6Sock_open :
  closed_sockets
    (rfbClientCleanup (-1) true true (fun _ => (Z_OK, None))
       (session_with (3, 4, 5) None 0 0 32))
  = [3; 4].
Proof. reflexivity. Qed.

(** With an auth command configured, ReadPassword and
    ReadUsernameAndPassword leave [stdin] untouched and produce no event
    that reads VNC_USERNAME or VNC_PASSWORD, prompts, or changes the
    terminal; and they end alike in any other world in which the command
    runs alike, whatever that world's environment, terminal and pending
    input. *)
Lemma auth_command_consults_nothing_else (w : Cred.world) (command : string)
    (st : Cred.state) :
  Cred.auth_command w = Some command ->
  quiet_step st (snd (Cred.ReadPassword w st)) /\
  quiet_step st (snd (Cred.ReadUsernameAndPassword w st)) /\
  forall w' st', same_command_run w w' ->
    fst (Cred.ReadPassword w' st') = fst (Cred.ReadPassword w st) /\
    fst (Cred.ReadUsernameAndPassword w' st')
    = fst (Cred.ReadUsernameAndPassword w st).
Proof.
  intros Hcmd. split; [|split].
  - apply (quiet_ReadPassword w command Hcmd).
  - apply (quiet_ReadUsernameAndPassword w command Hcmd).
  - intros w' st' Hsame. split.
    + apply (alike_ReadPassword w w' command Hcmd Hsame).
    + apply (alike_ReadUsernameAndPassword w w' command Hcmd Hsame).
Qed.

(** C7 (precedence of the auth command).  An auth command is configured,
    both credential variables are set and a line is pending at the
    terminal.  ReadUsernameAndPassword obtains the credential from the
    command: it spawns the shell with the command, reads the two lines it
    printed and returns them, and it reads neither variable nor the
    terminal.  ReadPassword spawns the command and reads its line in the
    same way, but it does not obtain the password: it has passed NULL for
    [username], and the test [( *username && ! *username) || ! *password]
    of RunAuthCommand reads through that pointer before anything is
    returned.  It is the defect of C8.  That neither callback consults the
    environment or the terminal holds in every world:
    [auth_command_consults_nothing_else]. *)
Theorem ReadPassword_obtains_no_password_from_the_command :
  let st := at_terminal (line "typed") in
  Cred.ReadUsernameAndPassword
    (scripted_world vnc_env (Some "pass show vnc"%string)
       (line "alice" ++ line "secret")%string) st
  = (Done (Some {| Cred.username := Some "alice"%string;
                   Cred.password := Some "secret"%string |}),
     {| Cred.stdin := line "typed";
        Cred.trace := [Cred.EvPipe; Cred.EvFork; Cred.EvGetenv "SHELL";
                       Cred.EvExec "/bin/sh" (Some "pass show vnc"%string);
                       Cred.EvWaitpid; Cred.EvReadPipe; Cred.EvReadPipe;
                       Cred.EvFclose] |}) /\
  Cred.ReadPassword
    (scripted_world vnc_env (Some "pass show vnc"%string) (line "secret")) st
  = (Fault,
     {| Cred.stdin := line "typed";
        Cred.trace := [Cred.EvPipe; Cred.EvFork; Cred.EvGetenv "SHELL";
                       Cred.EvExec "/bin/sh" (Some "pass show vnc"%string);
                       Cred.EvWaitpid; Cred.EvReadPipe] |}).
Proof. split; reflexivity. Qed.

(** C8 (missing output lines).  ReadPassword calls RunAuthCommand with a
    NULL username; the command runs to its end and prints nothing, so there
    is no password line.  The test
    [( *username && ! *username) || ! *password] then reads through the
    NULL [username]: the call faults instead of returning -1.  With a
    username slot, an output of less than two lines is reported with -1:
    [RunAuthCommand_short_output]. *)
Theorem RunAuthCommand_password_only_faults :
  fst (Cred.RunAuthCommand
         (scripted_world (fun _ => None) (Some "pass show vnc"%string)
            EmptyString)
         None (Some None) (at_terminal EmptyString))
  = Fault.
Proof. reflexivity. Qed.

(** C9 (no framebuffer).  With a NULL framebuffer, FillRectangle,
    CopyRectangle and CopyRectangleFromRectangle return the session as it
    was, for every argument and without a fault. *)
Theorem null_framebuffer_noop (be : bool) (fuel : nat) (client : rfbClient)
    (buffer : list byte) (x y w h colour sx sy dx dy : Z) :
  frameBuffer client = None ->
  FillRectangle be fuel client x y w h colour = Done client /\
  CopyRectangle fuel client buffer x y w h = Done client /\
  CopyRectangleFromRectangle be fuel client sx sy w h dx dy = Done client.
Proof.
  intros Hnull.
  unfold FillRectangle, CopyRectangle, CopyRectangleFromRectangle.
  rewrite Hnull. auto.
Qed.

Lemma null_framebuffer_noop_witness :
  let client := session None 4 4 16 in
  FillRectangle false 0 client 0 0 2 2 65535 = Done client /\
  CopyRectangle 0 client (zeroed 8) 0 0 2 2 = Done client /\
  CopyRectangleFromRectangle false 0 client 0 0 2 2 1 1 = Done client.
Proof.
  intros client.
  apply (null_framebuffer_noop false 0 client (zeroed 8) 0 0 2 2 65535 0 0 1 1).
  reflexivity.
Defined.

(** C10 (SelfCopy onto itself).  On a framebuffer of width 0 the call with
    the same origin for source and destination does not return: the row
    loop runs bottom-to-top (the destination is not above the source) and
    its counter never moves.  It is the defect of C1.  For every
    framebuffer of positive width whose number of cells fits an [int] the
    call returns the buffer byte for byte:
    [CopyRectangleFromRectangle_same_place]. *)
Theorem CopyRectangleFromRectangle_same_place_hangs_on_zero_width
    (be : bool) (fuel : nat) :
  CopyRectangleFromRectangle be fuel (session (Some []) 0 0 8) 0 0 0 0 0 0
  = Diverge.
Proof.
  apply CopyRectangleFromRectangle_zero_width with (fb := []);
    try reflexivity; unfold contains, supported; simpl; lia.
Qed.

(** * Further properties of the code *)

(** ** Loops that keep an invariant *)









Lemma set_frameBuffer_same client :
  set_frameBuffer client (frameBuffer client) = client.
Proof. destruct client; reflexivity. Qed.

(** The dispatch on the pixel width falls through for every other width. *)
Lemma rect_dispatch {A : Type} (b : Z) (k8 k16 k32 d : A) :
  b <> 8 -> b <> 16 -> b <> 32 ->
  match b with 8 => k8 | 16 => k16 | 32 => k32 | _ => d end = d.
Proof.
  intros H8 H16 H32.
  destruct b as [|p|p]; try reflexivity.
  do 6 (try destruct p as [p|p|]; try reflexivity); congruence.
Qed.





Lemma FrameBuffer_ok_set client fb fb' :
  FrameBuffer_ok client fb -> length fb' = length fb ->
  FrameBuffer_ok (set_frameBuffer client (Some fb')) fb'.
Proof.
  intros [Hfb Hsup HW HH Hlen] Hl.
  constructor; simpl; try assumption; [reflexivity|]. rewrite Hl. exact Hlen.
Qed.

Lemma pixel_set_frameBuffer be client fb0 fb px py :
  pixel be (set_frameBuffer client fb0) fb px py = pixel be client fb px py.
Proof. reflexivity. Qed.

Lemma contains_set_frameBuffer client fb0 x y w h :
  contains (set_frameBuffer client fb0) x y w h <-> contains client x y w h.
Proof. reflexivity. Qed.

Lemma set_frameBuffer_twice client fb1 fb2 :
  set_frameBuffer (set_frameBuffer client fb1) fb2 = set_frameBuffer client fb2.
Proof. reflexivity. Qed.

(** ** The rectangle operations: frame, dispatch and composition *)

Lemma run_list_fault {S : Type} (body : nat -> S -> outcome S)
    (Inv : nat -> S -> Prop) (n k : nat) :
  (k < n)%nat ->
  (forall i s, (i < k)%nat -> Inv i s ->
     exists s', body i s = Done s' /\ Inv (Datatypes.S i) s') ->
  (forall s, Inv k s -> body k s = Fault) ->
  forall s, Inv 0%nat s -> run_list body (seq 0 n) s = Fault.
Proof.
  intros Hk Hstep Hfault s Hinv.
  replace n with (k + (n - k))%nat by lia.
  rewrite seq_app, run_list_app.
  destruct (run_line body Inv k Hstep s Hinv) as (s' & -> & Hinv').
  cbn [obind]. simpl.
  destruct (n - k)%nat as [|m] eqn:Hm; [lia|].
  simpl. rewrite (Hfault s' Hinv'). reflexivity.
Qed.

Lemma COPY_RECT_unrolled client fb buffer x y w h fuel fb0 :
  FrameBuffer_ok client fb -> bytes_fit_int client -> contains client x y w h ->
  x < width client -> fits fuel h ->
  COPY_RECT (bitsPerPixel (format client)) fuel client buffer x y w h fb0
  = run_list
      (fun (a : nat) '(m, boff) =>
         m' <- memcpy m
                 (x * (bitsPerPixel (format client) / 8)
                  + y * (width client * (bitsPerPixel (format client) / 8))
                  + Z.of_nat a
                    * (width client * (bitsPerPixel (format client) / 8)))
                 buffer boff (w * (bitsPerPixel (format client) / 8)) ;;
         Done (m', boff + w * (bitsPerPixel (format client) / 8)))
      (seq 0 (Z.to_nat h)) (fb0, 0).
Proof.
  intros Hok Hint Hin HxW Hfh.
  destruct (FrameBuffer_bounds _ _ Hok (bytes_fit_cells _ _ Hok Hint))
    as (HW & HH & HB & HBPP & HWH & Hlen).
  pose proof Hint as HWHB. unfold bytes_fit_int, CInt.INT_MAX in HWHB.
  pose proof (fb_bpp _ _ Hok) as Hsup.
  destruct Hin as (Hx & Hy & Hw & Hh & Hxw & Hyh).
  unfold fits in *. unfold COPY_RECT. cbv zeta.
  set (W := width client) in *. set (H := height client) in *.
  destruct (rows_bound W H y h) as (Hy0 & Hy1 & Hy2); try lia.
  assert (Hrows : forall k, 0 <= k < h ->
            0 <= (y + k) * W /\ (y + k + 1) * W <= (y + h) * W /\
            (y + h) * W <= H * W)
    by (intros k Hk; apply row_bounds; lia).
  rewrite (scaled_small w _), (scaled_small W _), (bytes_small _)
    by (assumption || (unfold CInt.INT_MAX; split_bpp Hsup; lia)).
  remember (bitsPerPixel (format client) / 8) as B eqn:HeqB.
  assert (HB3 : B = 1 \/ B = 2 \/ B = 4)
    by (destruct Hsup as [E | [E | E]]; rewrite E in HeqB; subst B; auto).
  clear HeqB HBPP Hsup.
  assert (HyhW : 0 <= (y + h) * W <= H * W) by lia.
  destruct HB3 as [-> | [-> | ->]];
    (rewrite (add_small y h), (mul_small x _), (mul_small y (W * _)),
       (mul_small (y + h) (W * _)) by int_range);
    (rewrite (add_small (x * _) (y * (W * _))) by int_range);
    (rewrite (for_loop_up _ _ _ _ (Z.to_nat h));
       [ rewrite run_list_map; reflexivity
       | intros k Hk; destruct (Hrows (Z.of_nat k)); lia
       | intros k Hk; destruct (Hrows (Z.of_nat k)); [lia|int_range]
       | lia | lia ]).
Qed.

Lemma load_bytes_fault (mem : list byte) (off n : Z) :
  Z.of_nat (length mem) < off + n -> load_bytes mem off n = Fault.
Proof.
  intros H. unfold load_bytes, in_bounds.
  destruct (Z.leb_spec (off + n) (Z.of_nat (length mem))); [lia|].
  rewrite andb_false_r. reflexivity.
Qed.

Lemma COPY_RECT_short_source client fb buffer x y w h fuel :
  FrameBuffer_ok client fb -> bytes_fit_int client -> contains client x y w h ->
  x < width client -> 0 < w ->
  Z.of_nat (length buffer) < w * h * (bitsPerPixel (format client) / 8) ->
  fits fuel h ->
  COPY_RECT (bitsPerPixel (format client)) fuel client buffer x y w h fb
  = Fault.
Proof.
  intros Hok Hint Hin HxW Hwpos Hshort Hfh.
  rewrite (COPY_RECT_unrolled client fb) by assumption.
  destruct (FrameBuffer_bounds _ _ Hok (bytes_fit_cells _ _ Hok Hint))
    as (HW & HH & HB & HBPP & HWH & Hlen).
  pose proof Hint as HWHB. unfold bytes_fit_int, CInt.INT_MAX in HWHB.
  pose proof (fb_bpp _ _ Hok) as Hsup.
  destruct Hin as (Hx & Hy & Hw & Hh & Hxw & Hyh).
  set (W := width client) in *. set (H := height client) in *.
  remember (bitsPerPixel (format client) / 8) as B eqn:HeqB.
  assert (HB3 : B = 1 \/ B = 2 \/ B = 4)
    by (destruct Hsup as [E | [E | E]]; rewrite E in HeqB; subst B; auto).
  clear HeqB HBPP Hsup.
  (* the rows of the destination lie in the framebuffer *)
  assert (Hdst : forall k, 0 <= k < h ->
            0 <= x * B + y * (W * B) + k * (W * B) /\
            x * B + y * (W * B) + k * (W * B) + w * B
            <= Z.of_nat (length fb)).
  { intros k Hk.
    pose proof (row_bounds W H y h k ltac:(lia) ltac:(lia) ltac:(lia)
                  ltac:(lia)) as (Hk0 & Hk1 & Hk2).
    destruct HB3 as [-> | [-> | ->]]; lia. }
  (* the rows that the source holds in full *)
  assert (Hq : 0 < w * B) by (destruct HB3 as [-> | [-> | ->]]; lia).
  replace (w * h * B) with (w * B * h) in Hshort by lia.
  set (q := w * B) in *.
  set (len := Z.of_nat (length buffer)) in *.
  assert (Hlen0 : 0 <= len) by (unfold len; lia).
  pose proof (Z.mul_div_le len q Hq) as Hfull.
  pose proof (Z.mul_succ_div_gt len q Hq) as Hpart.
  assert (Hk0 : 0 <= len / q) by (apply Z.div_pos; lia).
  assert (Hkh : len / q < h) by (apply Z.div_lt_upper_bound; lia).
  set (k0 := len / q) in *.
  apply (run_list_fault _
           (fun (k : nat) (s : list byte * Z) =>
              snd s = Z.of_nat k * q /\ length (fst s) = length fb)
           (Z.to_nat h) (Z.to_nat k0)).
  - lia.
  - intros i [m boff] Hi (Hb & Hl). cbn [fst snd] in *. subst boff.
    destruct (Hdst (Z.of_nat i)) as (Hd0 & Hd1); [lia|].
    assert (Hsrc : 0 <= Z.of_nat i * q /\ Z.of_nat i * q + q <= len).
    { assert ((Z.of_nat i + 1) * q <= k0 * q)
        by (apply Z.mul_le_mono_nonneg_r; lia).
      assert (0 <= Z.of_nat i * q) by (apply Z.mul_nonneg_nonneg; lia).
      lia. }
    destruct (memcpy_spec m (x * B + y * (W * B) + Z.of_nat i * (W * B))
                buffer (Z.of_nat i * q) q)
      as (m' & Hcp & Hl' & _); try lia.
    rewrite Hcp. cbn [obind]. eexists. split; [reflexivity|].
    cbn [fst snd]. split; [lia|congruence].
  - intros [m boff] (Hb & Hl). cbn [fst snd] in *. subst boff.
    unfold memcpy. rewrite load_bytes_fault; [reflexivity|].
    rewrite Z2Nat.id by lia. fold len. lia.
  - cbn [fst snd]. split; [lia|reflexivity].
Qed.




(** X1.  On a framebuffer of positive width whose number of cells,
    width x height, fits an [int] ([cells_fit_int]: the loops count cells in
    an [int]), SelfCopy moves the block as a whole: for contained
    rectangles, every cell of the destination holds what the corresponding
    cell of the source held before the call, also where the two rectangles
    overlap, and every cell outside the destination holds what it held. *)
Theorem SelfCopy_moves_the_block (be : bool) (client : rfbClient)
    (fb : list byte) (sx sy w h dx dy : Z) (fuel : nat) :
  FrameBuffer_ok client fb -> cells_fit_int client ->
  contains client sx sy w h -> contains client dx dy w h ->
  0 < width client -> fits fuel w -> fits fuel h ->
  exists fb',
    CopyRectangleFromRectangle be fuel client sx sy w h dx dy
    = Done (set_frameBuffer client (Some fb')) /\
    length fb' = length fb /\
    forall px py, 0 <= px < width client -> 0 <= py < height client ->
      pixel be client fb' px py
      = if in_rect dx dy w h px py
        then pixel be client fb (px + sx - dx) (py + sy - dy)
        else pixel be client fb px py.
Proof. apply CopyRectangleFromRectangle_moves. Qed.

Lemma SelfCopy_moves_the_block_witness :
  let client := session (Some (map byte.of_Z [1; 2; 3; 4; 5; 6; 7; 8; 9])) 3 3 8 in
  exists fb',
    CopyRectangleFromRectangle false 2 client 0 0 2 2 1 1
    = Done (set_frameBuffer client (Some fb')) /\
    length fb' = 9%nat /\
    forall px py, 0 <= px < 3 -> 0 <= py < 3 ->
      pixel false client fb' px py
      = if in_rect 1 1 2 2 px py
        then pixel false client (map byte.of_Z [1; 2; 3; 4; 5; 6; 7; 8; 9])
               (px + 0 - 1) (py + 0 - 1)
        else pixel false client (map byte.of_Z [1; 2; 3; 4; 5; 6; 7; 8; 9])
               px py.
Proof.
  intros client.
  apply (SelfCopy_moves_the_block false client
           (map byte.of_Z [1; 2; 3; 4; 5; 6; 7; 8; 9]) 0 0 2 2 1 1 2%nat).
  - apply session_ok; unfold supported, CInt.INT_MAX; simpl; lia.
  - unfold cells_fit_int, CInt.INT_MAX; simpl; lia.
  - unfold contains; simpl; lia.
  - unfold contains; simpl; lia.
  - simpl; lia.
  - unfold fits; lia.
  - unfold fits; lia.
Defined.

(** X2.  SelfCopy of a contained rectangle onto itself, on a framebuffer
    of positive width whose number of cells fits an [int]
    ([cells_fit_int]), returns the session with the same bytes. *)
Theorem SelfCopy_onto_itself_is_identity (be : bool) (client : rfbClient)
    (fb : list byte) (x y w h : Z) (fuel : nat) :
  FrameBuffer_ok client fb -> cells_fit_int client -> contains client x y w h ->
  0 < width client -> fits fuel w -> fits fuel h ->
  CopyRectangleFromRectangle be fuel client x y w h x y = Done client.
Proof.
  intros Hok Hint Hin HW Hfw Hfh.
  rewrite (CopyRectangleFromRectangle_same_place be client fb) by assumption.
  rewrite <- (fb_held _ _ Hok), set_frameBuffer_same. reflexivity.
Qed.

Lemma SelfCopy_onto_itself_is_identity_witness :
  let client := session (Some (map byte.of_Z [1; 2; 3; 4; 5; 6; 7; 8])) 2 2 16 in
  CopyRectangleFromRectangle true 2 client 0 1 2 1 0 1 = Done client.
Proof.
  intros client.
  apply (SelfCopy_onto_itself_is_identity true client
           (map byte.of_Z [1; 2; 3; 4; 5; 6; 7; 8]) 0 1 2 1 2%nat).
  - apply session_ok; unfold supported, CInt.INT_MAX; simpl; lia.
  - unfold cells_fit_int, CInt.INT_MAX; simpl; lia.
  - unfold contains; simpl; lia.
  - simpl; lia.
  - unfold fits; lia.
  - unfold fits; lia.
Defined.





(** X5.  For a pixel width other than 8, 16 and 32 bits the three
    operations return the session as it was: the [switch] has no case for
    it, so nothing is read or written, whatever the rectangle. *)
Theorem unsupported_pixel_width_noop (be : bool) (fuel : nat)
    (client : rfbClient) (buffer : list byte)
    (x y w h colour sx sy dx dy : Z) :
  ~ supported (bitsPerPixel (format client)) ->
  FillRectangle be fuel client x y w h colour = Done client /\
  CopyRectangle fuel client buffer x y w h = Done client /\
  CopyRectangleFromRectangle be fuel client sx sy w h dx dy = Done client.
Proof.
  unfold supported. intros Hnot.
  assert (H8 : bitsPerPixel (format client) <> 8) by tauto.
  assert (H16 : bitsPerPixel (format client) <> 16) by tauto.
  assert (H32 : bitsPerPixel (format client) <> 32) by tauto.
  unfold FillRectangle, CopyRectangle, CopyRectangleFromRectangle.
  destruct (frameBuffer client) as [fb|]; [|auto].
  rewrite !rect_dispatch by assumption.
  destruct (negb (CheckRect client x y w h)),
    (negb (CheckRect client sx sy w h)), (negb (CheckRect client dx dy w h));
    auto.
Qed.

Lemma unsupported_pixel_width_noop_witness :
  let client := session (Some (zeroed 12)) 2 2 24 in
  FillRectangle false 0 client 0 0 2 2 16777215 = Done client /\
  CopyRectangle 0 client (zeroed 12) 0 0 2 2 = Done client /\
  CopyRectangleFromRectangle false 0 client 0 0 1 1 1 1 = Done client.
Proof.
  intros client.
  apply (unsupported_pixel_width_noop false 0 client (zeroed 12)
           0 0 2 2 16777215 0 0 1 1).
  unfold supported; simpl; lia.
Defined.

(** X6.  Two fills in a row, on a framebuffer whose number of cells fits
    an [int] ([cells_fit_int]): where the rectangles overlap the later
    colour wins, the rest of the first rectangle keeps the first colour,
    and every other cell holds what it held. *)
Theorem FillRectangle_twice (be : bool) (client : rfbClient) (fb : list byte)
    (x1 y1 w1 h1 colour1 x2 y2 w2 h2 colour2 : Z) (fuel : nat) :
  FrameBuffer_ok client fb -> cells_fit_int client ->
  contains client x1 y1 w1 h1 -> contains client x2 y2 w2 h2 ->
  fits fuel w1 -> fits fuel h1 -> fits fuel w2 -> fits fuel h2 ->
  exists fb',
    (client1 <- FillRectangle be fuel client x1 y1 w1 h1 colour1 ;;
     FillRectangle be fuel client1 x2 y2 w2 h2 colour2)
    = Done (set_frameBuffer client (Some fb')) /\
    forall px py, 0 <= px < width client -> 0 <= py < height client ->
      pixel be client fb' px py
      = if in_rect x2 y2 w2 h2 px py
        then Done (CInt.to_unsigned (bitsPerPixel (format client)) colour2)
        else if in_rect x1 y1 w1 h1 px py
        then Done (CInt.to_unsigned (bitsPerPixel (format client)) colour1)
        else pixel be client fb px py.
Proof.
  intros Hok Hint Hin1 Hin2 Hfw1 Hfh1 Hfw2 Hfh2.
  destruct (FillRectangle_fills be client fb x1 y1 w1 h1 colour1 fuel)
    as (fb1 & Hrun1 & Hl1 & Hpix1); try assumption.
  pose proof (FrameBuffer_ok_set client fb fb1 Hok Hl1) as Hok1.
  destruct (FillRectangle_fills be (set_frameBuffer client (Some fb1)) fb1
              x2 y2 w2 h2 colour2 fuel)
    as (fb2 & Hrun2 & Hl2 & Hpix2); try assumption.
  exists fb2. rewrite Hrun1. cbn [obind]. split; [exact Hrun2|].
  intros px py Hpx Hpy.
  specialize (Hpix2 px py Hpx Hpy). specialize (Hpix1 px py Hpx Hpy).
  rewrite !pixel_set_frameBuffer in Hpix2. rewrite Hpix2.
  destruct (in_rect x2 y2 w2 h2 px py); [reflexivity|exact Hpix1].
Qed.

Lemma FillRectangle_twice_witness :
  let client := session (Some (zeroed 9)) 3 3 8 in
  exists fb',
    (client1 <- FillRectangle false 2 client 0 0 2 2 7 ;;
     FillRectangle false 2 client1 1 1 2 2 9)
    = Done (set_frameBuffer client (Some fb')) /\
    forall px py, 0 <= px < 3 -> 0 <= py < 3 ->
      pixel false client fb' px py
      = if in_rect 1 1 2 2 px py then Done (CInt.to_unsigned 8 9)
        else if in_rect 0 0 2 2 px py then Done (CInt.to_unsigned 8 7)
        else pixel false client (zeroed 9) px py.
Proof.
  intros client.
  apply (FillRectangle_twice false client (zeroed 9) 0 0 2 2 7 1 1 2 2 9 2%nat).
  - apply session_ok; unfold supported, CInt.INT_MAX; simpl; lia.
  - unfold cells_fit_int, CInt.INT_MAX; simpl; lia.
  - unfold contains; simpl; lia.
  - unfold contains; simpl; lia.
  - unfold fits; lia.
  - unfold fits; lia.
  - unfold fits; lia.
  - unfold fits; lia.
Defined.

(** X7.  Fill, then SelfCopy of the filled rectangle to another place of
    a framebuffer of positive width whose number of cells fits an [int]
    ([cells_fit_int]): afterwards the cells of both rectangles hold the
    colour, and every other cell holds what it held before the two
    calls. *)
Theorem Fill_then_SelfCopy (be : bool) (client : rfbClient) (fb : list byte)
    (x y w h colour dx dy : Z) (fuel : nat) :
  FrameBuffer_ok client fb -> cells_fit_int client ->
  contains client x y w h -> contains client dx dy w h ->
  0 < width client -> fits fuel w -> fits fuel h ->
  exists fb',
    (client1 <- FillRectangle be fuel client x y w h colour ;;
     CopyRectangleFromRectangle be fuel client1 x y w h dx dy)
    = Done (set_frameBuffer client (Some fb')) /\
    forall px py, 0 <= px < width client -> 0 <= py < height client ->
      pixel be client fb' px py
      = if in_rect x y w h px py || in_rect dx dy w h px py
        then Done (CInt.to_unsigned (bitsPerPixel (format client)) colour)
        else pixel be client fb px py.
Proof.
  intros Hok Hint Hsrc Hdst HW Hfw Hfh.
  destruct (FillRectangle_fills be client fb x y w h colour fuel)
    as (fb1 & Hrun1 & Hl1 & Hpix1); try assumption.
  pose proof (FrameBuffer_ok_set client fb fb1 Hok Hl1) as Hok1.
  destruct (CopyRectangleFromRectangle_moves be
              (set_frameBuffer client (Some fb1)) fb1 x y w h dx dy fuel)
    as (fb2 & Hrun2 & Hl2 & Hpix2); try assumption.
  exists fb2. rewrite Hrun1. cbn [obind]. split; [exact Hrun2|].
  intros px py Hpx Hpy.
  specialize (Hpix2 px py Hpx Hpy).
  rewrite !pixel_set_frameBuffer in Hpix2. rewrite Hpix2.
  destruct Hsrc as (Hx & Hy & Hw & Hh & Hxw & Hyh).
  destruct (in_rect dx dy w h px py) eqn:Hd.
  - apply in_rect_true in Hd.
    rewrite orb_true_r.
    rewrite Hpix1 by (cbn [width height set_frameBuffer] in *; lia).
    assert (Hs : in_rect x y w h (px + x - dx) (py + y - dy) = true)
      by (apply in_rect_true; lia).
    rewrite Hs. reflexivity.
  - rewrite orb_false_r. apply Hpix1; assumption.
Qed.

Lemma Fill_then_SelfCopy_witness :
  let client := session (Some (zeroed 18)) 3 3 16 in
  exists fb',
    (client1 <- FillRectangle true 2 client 0 0 2 1 258 ;;
     CopyRectangleFromRectangle true 2 client1 0 0 2 1 1 2)
    = Done (set_frameBuffer client (Some fb')) /\
    forall px py, 0 <= px < 3 -> 0 <= py < 3 ->
      pixel true client fb' px py
      = if in_rect 0 0 2 1 px py || in_rect 1 2 2 1 px py
        then Done (CInt.to_unsigned 16 258)
        else pixel true client (zeroed 18) px py.
Proof.
  intros client.
  apply (Fill_then_SelfCopy true client (zeroed 18) 0 0 2 1 258 1 2 2%nat).
  - apply session_ok; unfold supported, CInt.INT_MAX; simpl; lia.
  - unfold cells_fit_int, CInt.INT_MAX; simpl; lia.
  - unfold contains; simpl; lia.
  - unfold contains; simpl; lia.
  - simpl; lia.
  - unfold fits; lia.
  - unfold fits; lia.
Defined.

(** X8.  BlockCopy does not know the length of its source: when the
    source holds fewer than w x h pixels, for a contained rectangle with at
    least one column, the [memcpy] of the first row that is not there in
    full reads past the end of the source.  The framebuffer is one whose
    byte offsets fit an [int] ([bytes_fit_int]), so that the loop gets as
    far as that row. *)
Theorem CopyRectangle_short_source_faults (client : rfbClient)
    (fb buffer : list byte) (x y w h : Z) (fuel : nat) :
  FrameBuffer_ok client fb -> bytes_fit_int client -> contains client x y w h -> 0 < w ->
  Z.of_nat (length buffer) < w * h * (bitsPerPixel (format client) / 8) ->
  fits fuel h ->
  CopyRectangle fuel client buffer x y w h = Fault.
Proof.
  intros Hok Hint Hin Hw Hshort Hfh.
  assert (Hrun : COPY_RECT (bitsPerPixel (format client)) fuel client buffer
                   x y w h fb = Fault).
  { apply COPY_RECT_short_source; try assumption.
    destruct Hin as (? & ? & ? & ? & ? & ?). lia. }
  unfold CopyRectangle.
  rewrite (fb_held _ _ Hok), (CheckRect_contains _ _ _ _ _ _ Hok Hin). simpl.
  destruct (fb_bpp _ _ Hok) as [E | [E | E]]; rewrite E in Hrun |- *;
    rewrite Hrun; reflexivity.
Qed.

Lemma CopyRectangle_short_source_faults_witness :
  CopyRectangle 2 (session (Some (zeroed 32)) 4 4 16)
    (map byte.of_Z [1; 0; 2; 0; 3; 0]) 1 1 2 2 = Fault.
Proof.
  apply (CopyRectangle_short_source_faults (session (Some (zeroed 32)) 4 4 16)
           (zeroed 32) (map byte.of_Z [1; 0; 2; 0; 3; 0]) 1 1 2 2 2%nat).
  - apply session_ok; unfold supported, CInt.INT_MAX; simpl; lia.
  - unfold bytes_fit_int, CInt.INT_MAX; simpl; lia.
  - unfold contains; simpl; lia.
  - lia.
  - simpl; lia.
  - unfold fits; lia.
Defined.



(** ** MallocFrameBuffer *)

Lemma allocSize_value client :
  0 <= width client <= 65535 -> 0 <= height client <= 65535 ->
  0 <= bitsPerPixel (format client) <= 255 ->
  allocSize client
  = width client * height client * bitsPerPixel (format client) / 8 /\
  0 <= allocSize client < 2 ^ 37.
Proof.
  intros HW HH HB. unfold allocSize, U64.div, U64.mul, U64.of_Z, CInt.to_unsigned.
  set (W := width client) in *. set (H := height client) in *.
  set (b := bitsPerPixel (format client)) in *.
  assert (HWH : 0 <= W * H <= 65535 * 65535)
    by (split; [apply Z.mul_nonneg_nonneg | apply Z.mul_le_mono_nonneg]; lia).
  assert (HWHb : 0 <= W * H * b <= 65535 * 65535 * 255)
    by (split; [apply Z.mul_nonneg_nonneg | apply Z.mul_le_mono_nonneg]; lia).
  change (2 ^ 64) with 18446744073709551616.
  rewrite (Z.mod_small W), (Z.mod_small H), (Z.mod_small b),
    (Z.mod_small 8) by lia.
  rewrite (Z.mod_small (W * H)), (Z.mod_small (W * H * b)) by lia.
  split; [reflexivity|].
  split; [apply Z.div_pos; lia|].
  apply Z.div_lt_upper_bound; [lia|]. change (2 ^ 37) with 137438953472. lia.
Qed.

Lemma allocSize_nonneg client : 0 <= allocSize client.
Proof.
  unfold allocSize, U64.div, U64.mul, U64.of_Z, CInt.to_unsigned.
  apply Z.div_pos; [|reflexivity].
  apply Z.mod_pos_bound. reflexivity.
Qed.

(** X10.  For dimensions in the 16-bit range of the protocol and a pixel
    width that fits its 8-bit field, the 64-bit product of
    [MallocFrameBuffer] does not wrap: the size is width x height x
    bitsPerPixel / 8, and it stays below 2^37. *)
Theorem allocSize_is_exact (client : rfbClient) :
  0 <= width client <= 65535 -> 0 <= height client <= 65535 ->
  0 <= bitsPerPixel (format client) <= 255 ->
  allocSize client
  = width client * height client * bitsPerPixel (format client) / 8 /\
  0 <= allocSize client < 2 ^ 37.
Proof. apply allocSize_value. Qed.

Lemma allocSize_is_exact_witness :
  allocSize (session None 65535 65535 32) = 65535 * 65535 * 32 / 8 /\
  0 <= allocSize (session None 65535 65535 32) < 2 ^ 37.
Proof.
  apply (allocSize_is_exact (session None 65535 65535 32)); simpl; lia.
Defined.

Lemma MallocFrameBuffer_paths (SIZE_MAX : Z)
    (malloc : Z -> option (list byte)) (client : rfbClient) :
  let r := MallocFrameBuffer SIZE_MAX malloc client in
  let size := allocSize client mod (SIZE_MAX + 1) in
  (fst (snd r) = true <-> allocSize client < SIZE_MAX /\ malloc size <> None) /\
  (allocSize client < SIZE_MAX ->
     size = allocSize client /\ frameBuffer (snd (snd r)) = malloc size) /\
  snd (snd r) = set_frameBuffer client (frameBuffer (snd (snd r))) /\
  released (fst r)
  = match frameBuffer client with Some old => [old] | None => [] end /\
  requested (fst r) = if allocSize client <? SIZE_MAX then [size] else [].
Proof.
  intros r size. subst r size. unfold MallocFrameBuffer.
  pose proof (allocSize_nonneg client) as Hnn.
  assert (Hsame : forall fb, frameBuffer client = fb ->
            client = set_frameBuffer client fb)
    by (intros fb <-; symmetry; apply set_frameBuffer_same).
  destruct (frameBuffer client) as [old|] eqn:Hfb;
    rewrite ?allocSize_set_frameBuffer;
    destruct (Z.geb_spec (allocSize client) SIZE_MAX) as [Hbig | Hsmall];
    destruct (Z.ltb_spec (allocSize client) SIZE_MAX) as [Hlt | Hge];
    try lia;
    try destruct (malloc (allocSize client mod (SIZE_MAX + 1))) as [blk|] eqn:Hm;
    cbn [fst snd frameBuffer set_frameBuffer];
    repeat match goal with
           | |- _ /\ _ => split
           | |- _ <-> _ => split
           end;
    try reflexivity;
    try (intros; discriminate);
    try (intros; lia);
    try (intros [? ?]; lia || congruence);
    try (intros; split; [lia | congruence]);
    try (intros; split; [apply Z.mod_small; lia | reflexivity]);
    try (apply Hsame; reflexivity);
    try (symmetry; apply set_frameBuffer_same).
Qed.


(** X11.  The outcome of [MallocFrameBuffer] on every path: it answers
    TRUE exactly when the size is below [SIZE_MAX] and [malloc] does not
    return NULL, and the session then holds the new block; a buffer held
    before is released exactly once, and nothing else is; [malloc] is
    called at most once, with the size, and only after the size check; no
    other field of the session changes. *)
Theorem MallocFrameBuffer_outcome (SIZE_MAX : Z)
    (malloc : Z -> option (list byte)) (client : rfbClient) :
  let r := MallocFrameBuffer SIZE_MAX malloc client in
  let size := allocSize client mod (SIZE_MAX + 1) in
  (fst (snd r) = true <-> allocSize client < SIZE_MAX /\ malloc size <> None) /\
  (allocSize client < SIZE_MAX ->
     size = allocSize client /\ frameBuffer (snd (snd r)) = malloc size) /\
  snd (snd r) = set_frameBuffer client (frameBuffer (snd (snd r))) /\
  released (fst r)
  = match frameBuffer client with Some old => [old] | None => [] end /\
  requested (fst r) = if allocSize client <? SIZE_MAX then [size] else [].
Proof. apply MallocFrameBuffer_paths. Qed.

(** X12.  Allocate twice: the second call releases the block that the
    first one obtained, once; after a first call that failed there is
    nothing to release, since the failed call left the framebuffer NULL;
    and the second call asks [malloc] for the same size. *)
Theorem MallocFrameBuffer_again (SIZE_MAX : Z)
    (malloc malloc' : Z -> option (list byte)) (client : rfbClient) :
  let r1 := MallocFrameBuffer SIZE_MAX malloc client in
  let r2 := MallocFrameBuffer SIZE_MAX malloc' (snd (snd r1)) in
  (fst (snd r1) = true ->
     exists blk, malloc (allocSize client mod (SIZE_MAX + 1)) = Some blk /\
                 released (fst r2) = [blk]) /\
  (fst (snd r1) = false -> released (fst r2) = []) /\
  requested (fst r2) = requested (fst r1).
Proof.
  intros r1 r2.
  destruct (MallocFrameBuffer_paths SIZE_MAX malloc client)
    as (Hok & Hnew & Hsame & _ & Hreq1).
  destruct (MallocFrameBuffer_paths SIZE_MAX malloc' (snd (snd r1)))
    as (_ & _ & _ & Hrel2 & Hreq2).
  fold r1 in Hok, Hnew, Hsame, Hreq1. fold r2 in Hrel2, Hreq2.
  assert (Hsize : allocSize (snd (snd r1)) = allocSize client)
    by (rewrite Hsame; apply allocSize_set_frameBuffer).
  split; [|split].
  - intros Htrue. apply Hok in Htrue as [Hlt Hsome].
    destruct (Hnew Hlt) as [_ Hfb]. rewrite Hrel2, Hfb.
    destruct (malloc (allocSize client mod (SIZE_MAX + 1))) as [blk|];
      [eauto|congruence].
  - intros Hfalse. rewrite Hrel2.
    destruct r1 as [evs [ok client1]] eqn:Hr1. cbn [fst snd] in *.
    destruct (MallocFrameBuffer_failure_paths SIZE_MAX malloc client
                evs ok client1 Hr1) as (_ & _ & Hfail).
    destruct (Hfail Hfalse) as [-> _]. reflexivity.
  - rewrite Hreq2, Hreq1, Hsize. reflexivity.
Qed.



(** ** rfbClientCleanup and rfbGetClient *)

Lemma freed_pointers_app evs1 evs2 :
  freed_pointers (evs1 ++ evs2) = freed_pointers evs1 ++ freed_pointers evs2.
Proof. apply flat_map_app. Qed.

Lemma inflate_calls_app evs1 evs2 :
  inflate_calls (evs1 ++ evs2) = inflate_calls evs1 ++ inflate_calls evs2.
Proof. apply flat_map_app. Qed.

Lemma logged_app evs1 evs2 : logged (evs1 ++ evs2) = logged evs1 ++ logged evs2.
Proof. apply flat_map_app. Qed.

(** What one call of [inflateEnd] contributes. *)
Lemma inflateEnd_events_parts inflateEnd stream :
  freed_pointers (inflateEnd_events inflateEnd stream) = [] /\
  inflate_calls (inflateEnd_events inflateEnd stream) = [stream] /\
  logged (inflateEnd_events inflateEnd stream) = complaint inflateEnd stream /\
  forallb (fun e => negb (is_FreeClient e)) (inflateEnd_events inflateEnd stream)
  = true.
Proof.
  unfold inflateEnd_events, complaint.
  destruct (inflateEnd stream) as [rc [m|]], stream, (rc =? Z_OK);
    repeat split; reflexivity.
Qed.

Lemma streams_loop_parts inflateEnd (active : list bool) (ids : list nat) :
  let evs := flat_map
               (fun i => if nth i active false
                         then inflateEnd_events inflateEnd (Some i) else [])
               ids in
  freed_pointers evs = [] /\
  inflate_calls evs = map Some (filter (fun i => nth i active false) ids) /\
  logged evs = flat_map (complaint inflateEnd)
                 (map Some (filter (fun i => nth i active false) ids)) /\
  forallb (fun e => negb (is_FreeClient e)) evs = true.
Proof.
  induction ids as [|i ids (IH1 & IH2 & IH3 & IH4)];
    [repeat split; reflexivity|].
  cbn [flat_map filter].
  rewrite freed_pointers_app, inflate_calls_app, logged_app, forallb_app.
  rewrite IH1, IH2, IH3, IH4.
  destruct (inflateEnd_events_parts inflateEnd (Some i)) as (E1 & E2 & E3 & E4).
  destruct (nth i active false).
  - rewrite E1, E2, E3, E4. repeat split; reflexivity.
  - repeat split; reflexivity.
Qed.

Lemma streams_part_parts inflateEnd libz client :
  freed_pointers (streams_part inflateEnd libz client) = [] /\
  inflate_calls (streams_part inflateEnd libz client) = ended_streams libz client /\
  logged (streams_part inflateEnd libz client)
  = flat_map (complaint inflateEnd) (ended_streams libz client) /\
  forallb (fun e => negb (is_FreeClient e)) (streams_part inflateEnd libz client) = true.
Proof.
  unfold streams_part, ended_streams.
  destruct libz; [|repeat split; reflexivity].
  rewrite freed_pointers_app, inflate_calls_app, logged_app, forallb_app,
    flat_map_app.
  destruct (streams_loop_parts inflateEnd (zlibStreamActive client) (seq 0 4))
    as (-> & -> & -> & ->).
  destruct (decompStreamInited client).
  - destruct (inflateEnd_events_parts inflateEnd None) as (-> & -> & -> & ->).
    simpl. rewrite app_nil_r. repeat split; reflexivity.
  - simpl. repeat split; reflexivity.
Qed.

Lemma free_if_set_parts p :
  freed_pointers (free_if_set p) = pointer_of p /\
  inflate_calls (free_if_set p) = [] /\ logged (free_if_set p) = [] /\
  forallb (fun e => negb (is_FreeClient e)) (free_if_set p) = true.
Proof. destruct p; repeat split; reflexivity. Qed.

Lemma free_parts p :
  freed_pointers [Free p] = pointer_of p.
Proof. destruct p; reflexivity. Qed.

Lemma close_if_valid_parts INVALID fd :
  freed_pointers (close_if_valid INVALID fd) = [] /\
  inflate_calls (close_if_valid INVALID fd) = [] /\
  logged (close_if_valid INVALID fd) = [] /\
  forallb (fun e => negb (is_FreeClient e)) (close_if_valid INVALID fd) = true.
Proof.
  unfold close_if_valid. destruct (negb (fd =? INVALID));
    repeat split; reflexivity.
Qed.

Lemma clientData_parts (nodes : list ptr) :
  freed_pointers (map (fun node => Free (Some node)) nodes) = nodes /\
  inflate_calls (map (fun node => Free (Some node)) nodes) = [] /\
  logged (map (fun node => Free (Some node)) nodes) = [] /\
  forallb (fun e => negb (is_FreeClient e))
    (map (fun node => Free (Some node)) nodes) = true.
Proof.
  induction nodes as [|n nodes (IH1 & IH2 & IH3 & IH4)]; simpl;
    [repeat split; reflexivity|].
  rewrite IH1. repeat split; assumption.
Qed.

Lemma sasl_parts (sasl : bool) p :
  freed_pointers (if sasl then free_if_set p else [])
  = (if sasl then pointer_of p else []) /\
  inflate_calls (if sasl then free_if_set p else []) = [] /\
  logged (if sasl then free_if_set p else []) = [] /\
  forallb (fun e => negb (is_FreeClient e))
    (if sasl then free_if_set p else []) = true.
Proof. destruct sasl; [apply free_if_set_parts|repeat split; reflexivity]. Qed.

Lemma rfbClientCleanup_unfold INVALID inflateEnd libz sasl client :
  rfbClientCleanup INVALID libz sasl inflateEnd client
  = streams_part inflateEnd libz client
    ++ free_if_set (ultra_buffer client)
    ++ free_if_set (raw_buffer client)
    ++ [FreeTLS]
    ++ map (fun node => Free (Some node)) (clientData client)
    ++ [Free (vncRec client)]
    ++ close_if_valid INVALID (sock client)
    ++ close_if_valid INVALID (listenSock client)
    ++ [Free (desktopName client); Free (serverHost client)]
    ++ free_if_set (destHost client)
    ++ free_if_set (clientAuthSchemes client)
    ++ (if sasl then free_if_set (saslSecret client) else [])
    ++ [FreeClient].
Proof. reflexivity. Qed.

Lemma rfbClientCleanup_frees INVALID inflateEnd libz sasl client :
  freed_pointers (rfbClientCleanup INVALID libz sasl inflateEnd client)
  = owned_pointers sasl client.
Proof.
  rewrite rfbClientCleanup_unfold. unfold owned_pointers.
  repeat rewrite freed_pointers_app.
  destruct (streams_part_parts inflateEnd libz client) as (-> & _).
  destruct (free_if_set_parts (ultra_buffer client)) as (-> & _).
  destruct (free_if_set_parts (raw_buffer client)) as (-> & _).
  destruct (free_if_set_parts (destHost client)) as (-> & _).
  destruct (free_if_set_parts (clientAuthSchemes client)) as (-> & _).
  destruct (clientData_parts (clientData client)) as (-> & _).
  destruct (close_if_valid_parts INVALID (sock client)) as (-> & _).
  destruct (close_if_valid_parts INVALID (listenSock client)) as (-> & _).
  destruct (sasl_parts sasl (saslSecret client)) as (-> & _).
  rewrite free_parts.
  change [Free (desktopName client); Free (serverHost client)]
    with ([Free (desktopName client)] ++ [Free (serverHost client)]).
  rewrite freed_pointers_app, !free_parts.
  simpl. rewrite <- !app_assoc, app_nil_r. reflexivity.
Qed.

Lemma rfbClientCleanup_frees_client_last INVALID inflateEnd libz sasl client :
  exists before,
    rfbClientCleanup INVALID libz sasl inflateEnd client
    = before ++ [FreeClient] /\
    forallb (fun e => negb (is_FreeClient e)) before = true.
Proof.
  rewrite rfbClientCleanup_unfold.
  eexists. split.
  - repeat rewrite app_assoc. reflexivity.
  - repeat rewrite forallb_app.
    destruct (streams_part_parts inflateEnd libz client) as (_ & _ & _ & ->).
    destruct (free_if_set_parts (ultra_buffer client)) as (_ & _ & _ & ->).
    destruct (free_if_set_parts (raw_buffer client)) as (_ & _ & _ & ->).
    destruct (free_if_set_parts (destHost client)) as (_ & _ & _ & ->).
    destruct (free_if_set_parts (clientAuthSchemes client)) as (_ & _ & _ & ->).
    destruct (clientData_parts (clientData client)) as (_ & _ & _ & ->).
    destruct (close_if_valid_parts INVALID (sock client)) as (_ & _ & _ & ->).
    destruct (close_if_valid_parts INVALID (listenSock client)) as (_ & _ & _ & ->).
    destruct (sasl_parts sasl (saslSecret client)) as (_ & _ & _ & ->).
    reflexivity.
Qed.

Lemma rfbClientCleanup_streams INVALID inflateEnd libz sasl client :
  inflate_calls (rfbClientCleanup INVALID libz sasl inflateEnd client)
  = ended_streams libz client /\
  logged (rfbClientCleanup INVALID libz sasl inflateEnd client)
  = flat_map (complaint inflateEnd) (ended_streams libz client).
Proof.
  rewrite rfbClientCleanup_unfold.
  repeat rewrite inflate_calls_app. repeat rewrite logged_app.
  destruct (streams_part_parts inflateEnd libz client) as (_ & -> & -> & _).
  destruct (free_if_set_parts (ultra_buffer client)) as (_ & -> & -> & _).
  destruct (free_if_set_parts (raw_buffer client)) as (_ & -> & -> & _).
  destruct (free_if_set_parts (destHost client)) as (_ & -> & -> & _).
  destruct (free_if_set_parts (clientAuthSchemes client)) as (_ & -> & -> & _).
  destruct (clientData_parts (clientData client)) as (_ & -> & -> & _).
  destruct (close_if_valid_parts INVALID (sock client)) as (_ & -> & -> & _).
  destruct (close_if_valid_parts INVALID (listenSock client)) as (_ & -> & -> & _).
  destruct (sasl_parts sasl (saslSecret client)) as (_ & -> & -> & _).
  simpl. rewrite !app_nil_r. split; reflexivity.
Qed.


(** X14.  The teardown hands to [free] exactly the blocks the session
    refers to -- the two decoding buffers, every node of [clientData],
    [vncRec], the three strings, [clientAuthSchemes] and, in a build with
    SASL, [saslSecret] -- each once and in this order, so that no block is
    released twice unless two fields share it; the session object itself
    is released last and once.  The framebuffer is not among them: the
    calls are the same whatever the session holds as framebuffer. *)
Theorem rfbClientCleanup_frees_what_the_session_owns (INVALID : Z)
    (libz sasl : bool) (inflateEnd : option nat -> Z * option string)
    (client : rfbClient) :
  let evs := rfbClientCleanup INVALID libz sasl inflateEnd client in
  freed_pointers evs = owned_pointers sasl client /\
  (exists before,
     evs = before ++ [FreeClient] /\
     forallb (fun e => negb (is_FreeClient e)) before = true) /\
  forall fb,
    rfbClientCleanup INVALID libz sasl inflateEnd (set_frameBuffer client fb)
    = evs.
Proof.
  intros evs. subst evs. split; [|split].
  - apply rfbClientCleanup_frees.
  - apply rfbClientCleanup_frees_client_last.
  - intros fb. reflexivity.
Qed.

(** X15.  In a build with zlib the teardown calls [inflateEnd] on the
    streams marked active among the four of [zlibStream], in order, then on
    [decompStream] when it is initialised, and on no other; it logs the
    message of exactly those calls that did not return [Z_OK] and left a
    message.  In a build without zlib it ends no stream. *)
Theorem rfbClientCleanup_ends_the_active_streams (INVALID : Z)
    (libz sasl : bool) (inflateEnd : option nat -> Z * option string)
    (client : rfbClient) :
  let evs := rfbClientCleanup INVALID libz sasl inflateEnd client in
  inflate_calls evs = ended_streams libz client /\
  logged evs = flat_map (complaint inflateEnd) (ended_streams libz client).
Proof. apply rfbClientCleanup_streams. Qed.

(** X16.  The descriptors that the teardown closes are [sock] and
    [listenSock], each when it differs from [RFB_INVALID_SOCKET]; the
    descriptor of the IPv6 listener is closed only when it is one of
    these two. *)
Theorem rfbClientCleanup_closes_two_sockets (INVALID : Z) (libz sasl : bool)
    (inflateEnd : option nat -> Z * option string) (client : rfbClient) :
  let closed := closed_sockets
                  (rfbClientCleanup INVALID libz sasl inflateEnd client) in
  closed = (if sock client =? INVALID then [] else [sock client])
           ++ (if listenSock client =? INVALID then [] else [listenSock client])
  /\ (In (listen6Sock client) closed ->
      listen6Sock client = sock client \/
      listen6Sock client = listenSock client).
Proof.
  intros closed. subst closed. rewrite rfbClientCleanup_closes.
  split; [reflexivity|].
  destruct (sock client =? INVALID), (listenSock client =? INVALID); simpl;
    intuition auto.
Qed.

Lemma rfbClientCleanup_closes_two_sockets_witness :
  closed_sockets
    (rfbClientCleanup (-1) true false (fun _ => (Z_OK, None))
       (session_with (7, -1, 9) None 0 0 32)) = [7].
Proof.
  exact (proj1 (rfbClientCleanup_closes_two_sockets (-1) true false
                  (fun _ => (Z_OK, None))
                  (session_with (7, -1, 9) None 0 0 32))).
Defined.

(** X17.  Construction, then teardown: [rfbGetClient] fails only when
    [calloc] does, and the teardown of the session it returns ends no
    stream, closes no socket, and releases the host-name string and the
    session object, in every build and for every pixel layout asked for. *)
Theorem rfbGetClient_then_rfbClientCleanup (INVALID : Z) (libz sasl be : bool)
    (inflateEnd : option nat -> Z * option string) (calloc_ok : bool)
    (host : option ptr) (bitsPerSample samplesPerPixel bytesPerPixel : Z) :
  match rfbGetClient INVALID be calloc_ok host
          bitsPerSample samplesPerPixel bytesPerPixel with
  | None => calloc_ok = false
  | Some client =>
      calloc_ok = true /\
      rfbClientCleanup INVALID libz sasl inflateEnd client
      = [FreeTLS; Free None; Free None; Free host; FreeClient]
  end.
Proof.
  unfold rfbGetClient. destruct calloc_ok; [|reflexivity]. cbn [negb].
  split; [reflexivity|].
  unfold rfbClientCleanup, close_if_valid. cbn.
  rewrite Z.eqb_refl. destruct libz, sasl; reflexivity.
Qed.

(** The three channels of the layouts that [rfbGetClient] makes. *)
Lemma channel_masks_disjoint (n : nat) (s1 s2 : Z) :
  (n <= 16)%nat -> 0 <= s1 -> s1 + Z.of_nat n <= s2 ->
  Z.land (channel_mask (2 ^ Z.of_nat n - 1) s1)
         (channel_mask (2 ^ Z.of_nat n - 1) s2) = 0.
Proof.
  intros Hn Hs1 Hs2. unfold channel_mask.
  replace (2 ^ Z.of_nat n - 1) with (Z.ones (Z.of_nat n))
    by (rewrite Z.ones_equiv; lia).
  apply Z.bits_inj'. intros k Hk.
  rewrite Z.land_spec, Z.bits_0, !Z.shiftl_spec by lia.
  destruct (Z.lt_ge_cases k s2) as [Hlt | Hge].
  - rewrite (Z.testbit_neg_r _ (k - s2)) by lia. apply andb_false_r.
  - rewrite (Z.ones_spec_high (Z.of_nat n) (k - s1)) by lia. reflexivity.
Qed.

Lemma sample_max (n : nat) :
  (n <= 16)%nat ->
  CInt.to_unsigned 16 (CInt.wrap (Z.shiftl 1 (Z.of_nat n)) -i 1)
  = 2 ^ Z.of_nat n - 1.
Proof.
  intros Hn.
  do 17 (destruct n as [|n]; [reflexivity|]). lia.
Qed.

Lemma sample_shift (n : nat) (k : Z) :
  (n <= 16)%nat -> 0 <= k <= 3 ->
  CInt.to_unsigned 8 (Z.of_nat n *i k) = Z.of_nat n * k.
Proof.
  intros Hn Hk. unfold CInt.to_unsigned.
  rewrite mul_small by (unfold CInt.in_range, CInt.INT_MIN, CInt.INT_MAX; nia).
  apply Z.mod_small. change (2 ^ 8) with 256. nia.
Qed.

(** X18.  The pixel layout that [rfbGetClient] sets up for up to 16 bits
    per sample: the red, green and blue channels occupy pairwise disjoint
    bits of the pixel, in each of its four layouts (the 8-bit 3-3-2
    layout, little endian, big endian with 24 bits, big endian
    otherwise). *)
Theorem rfbGetClient_channels_disjoint (INVALID : Z) (be calloc_ok : bool)
    (host : option ptr) (bitsPerSample samplesPerPixel bytesPerPixel : Z)
    (client : rfbClient) :
  rfbGetClient INVALID be calloc_ok host
    bitsPerSample samplesPerPixel bytesPerPixel = Some client ->
  0 <= bitsPerSample <= 16 ->
  let f := format client in
  let red := channel_mask (redMax f) (redShift f) in
  let green := channel_mask (greenMax f) (greenShift f) in
  let blue := channel_mask (blueMax f) (blueShift f) in
  Z.land red green = 0 /\ Z.land green blue = 0 /\ Z.land red blue = 0.
Proof.
  intros Hnew Hbits.
  assert (Hn : exists n, (n <= 16)%nat /\ bitsPerSample = Z.of_nat n)
    by (exists (Z.to_nat bitsPerSample); lia).
  destruct Hn as (n & Hn & ->).
  unfold rfbGetClient in Hnew. destruct calloc_ok; [|discriminate].
  cbn [negb] in Hnew. injection Hnew as <-.
  cbv zeta. cbn [format].
  pose proof (sample_max n Hn) as Hmax.
  pose proof (sample_shift n 1 Hn ltac:(lia)) as Hs1.
  pose proof (sample_shift n 2 Hn ltac:(lia)) as Hs2.
  pose proof (sample_shift n 3 Hn ltac:(lia)) as Hs3.
  assert (Hs0 : CInt.to_unsigned 8 (Z.of_nat n) = Z.of_nat n)
    by (unfold CInt.to_unsigned; apply Z.mod_small; change (2 ^ 8) with 256; lia).
  destruct (CInt.to_unsigned 8 (bytesPerPixel *i 8) =? 8);
    [cbn; auto|].
  destruct be; cbn [negb];
    [destruct (Z.eqb _ _)|];
    cbn [redMax greenMax blueMax redShift greenShift blueShift];
    rewrite ?Hmax, ?Hs0, ?Hs1, ?Hs2, ?Hs3;
    repeat split;
    rewrite 1?Z.land_comm;
    try (apply channel_masks_disjoint; lia);
    rewrite 1?Z.land_comm; apply channel_masks_disjoint; lia.
Qed.

Lemma rfbGetClient_channels_disjoint_witness :
  Z.land (channel_mask 255 0) (channel_mask 255 8) = 0 /\
  Z.land (channel_mask 255 8) (channel_mask 255 16) = 0 /\
  Z.land (channel_mask 255 0) (channel_mask 255 16) = 0.
Proof.
  refine (rfbGetClient_channels_disjoint (-1) false true None 8 3 4 _ eq_refl _).
  lia.
Defined.

(** ** Lines of text *)

Lemma append_assoc (a b c : string) :
  ((a ++ b) ++ c)%string = (a ++ (b ++ c))%string.
Proof. induction a as [|x a IH]; simpl; congruence. Qed.

Lemma plain_cons c l :
  plain (String c l) = true ->
  Ascii.eqb c Cred.newline = false /\ Ascii.eqb c Cred.NUL = false /\
  plain l = true.
Proof.
  cbn [plain]. rewrite !andb_true_iff, !negb_true_iff. tauto.
Qed.

Lemma take_line_plain l rest :
  plain l = true ->
  Cred.take_line (l ++ String Cred.newline rest)
  = (line l, rest).
Proof.
  unfold line. induction l as [|c l IH]; intros Hl.
  - reflexivity.
  - apply plain_cons in Hl as (Hnl & _ & Hl).
    cbn [append Cred.take_line]. rewrite Hnl, (IH Hl). reflexivity.
Qed.

Lemma take_line_unterminated l :
  plain l = true -> Cred.take_line l = (l, EmptyString).
Proof.
  induction l as [|c l IH]; intros Hl.
  - reflexivity.
  - apply plain_cons in Hl as (Hnl & _ & Hl).
    cbn [Cred.take_line]. rewrite Hnl, (IH Hl). reflexivity.
Qed.

Lemma substring_prefix l r : substring 0 (String.length l) (l ++ r) = l.
Proof.
  induction l as [|c l IH]; simpl.
  - destruct r; reflexivity.
  - rewrite IH. reflexivity.
Qed.

Lemma length_snoc l c :
  String.length (l ++ String c EmptyString) = Datatypes.S (String.length l).
Proof. induction l as [|x l IH]; simpl; congruence. Qed.

Lemma chop_snoc l c : Cred.chop (l ++ String c EmptyString) = l.
Proof.
  unfold Cred.chop. rewrite length_snoc.
  replace (Datatypes.S (String.length l) - 1)%nat with (String.length l) by lia.
  apply substring_prefix.
Qed.

Lemma c_string_plain l : plain l = true -> Cred.c_string l = l.
Proof.
  induction l as [|c l IH]; intros Hl.
  - reflexivity.
  - apply plain_cons in Hl as (_ & Hnul & Hl).
    cbn [Cred.c_string]. rewrite Hnul, (IH Hl). reflexivity.
Qed.

Lemma take_line_first c s :
  exists l r, Cred.take_line (String c s) = (String c l, r).
Proof.
  cbn [Cred.take_line]. destruct (Ascii.eqb c Cred.newline); [eauto|].
  destruct (Cred.take_line s) as [l r]. eauto.
Qed.

Lemma trimmed_line_line eof l rest :
  plain l = true ->
  trimmed_line eof (line l ++ rest) = (Some l, rest).
Proof.
  intros Hl. unfold line. rewrite append_assoc. cbn [append].
  unfold trimmed_line.
  rewrite (take_line_plain l rest Hl). cbn [fst snd]. unfold line.
  rewrite chop_snoc, (c_string_plain l Hl).
  destruct l; reflexivity.
Qed.

Lemma trimmed_line_unterminated eof l c :
  plain (l ++ String c EmptyString) = true ->
  trimmed_line eof (l ++ String c EmptyString)
  = (Some (Cred.c_string l), EmptyString).
Proof.
  intros Hl. unfold trimmed_line.
  rewrite (take_line_unterminated _ Hl). cbn [fst snd].
  rewrite chop_snoc. destruct l; reflexivity.
Qed.

(** ** The credential callbacks, step by step *)

Lemma ReadLine_runs w title st :
  Cred.ReadLine w title st
  = (Done (fst (trimmed_line (Cred.getline_eof w) (Cred.stdin st))),
     {| Cred.stdin := snd (trimmed_line (Cred.getline_eof w) (Cred.stdin st));
        Cred.trace := Cred.trace st ++ [Cred.EvPrompt title; Cred.EvReadStdin] |}).
Proof.
  unfold Cred.ReadLine, Cred.bind, Cred.emit. cbn [Cred.stdin Cred.trace].
  rewrite <- app_assoc. cbn [app].
  destruct (Cred.stdin st) as [|c s]; [reflexivity|].
  unfold Cred.getline, trimmed_line.
  destruct (take_line_first c s) as (l & r & E). rewrite E. reflexivity.
Qed.

Lemma read_into_runs w out v st :
  Cred.read_into w out (Some v) st
  = (Done (match out with
           | EmptyString => Some v
           | _ => Some (fst (trimmed_line (Cred.getline_eof w) out))
           end,
           snd (trimmed_line (Cred.getline_eof w) out)),
     {| Cred.stdin := Cred.stdin st;
        Cred.trace := Cred.trace st ++ [Cred.EvReadPipe] |}).
Proof.
  unfold Cred.read_into, Cred.bind, Cred.emit, Cred.ret, Cred.assign.
  destruct out as [|c s]; [reflexivity|].
  unfold Cred.getline, trimmed_line.
  destruct (take_line_first c s) as (l & r & E). rewrite E. reflexivity.
Qed.

Lemma ReadLine_line w title l rest st :
  plain l = true ->
  Cred.stdin st = (line l ++ rest)%string ->
  Cred.ReadLine w title st
  = (Done (Some l),
     {| Cred.stdin := rest;
        Cred.trace := Cred.trace st ++ [Cred.EvPrompt title; Cred.EvReadStdin] |}).
Proof.
  intros Hl Hin. rewrite ReadLine_runs, Hin, trimmed_line_line by assumption.
  reflexivity.
Qed.

(** X19.  ReadLine consumes one line of [stdin] and returns it without
    its terminator: with the text [l] (free of newline and NUL), a
    newline and [rest] pending, it prompts, returns [l] and leaves
    [rest]. *)
Theorem ReadLine_returns_the_line (w : Cred.world) (title l rest : string)
    (st : Cred.state) :
  plain l = true ->
  Cred.stdin st = (line l ++ rest)%string ->
  Cred.ReadLine w title st
  = (Done (Some l),
     {| Cred.stdin := rest;
        Cred.trace := Cred.trace st ++ [Cred.EvPrompt title; Cred.EvReadStdin] |}).
Proof. apply ReadLine_line. Qed.

Lemma ReadLine_returns_the_line_witness :
  Cred.ReadLine (scripted_world (fun _ => None) None EmptyString) "User"
    (at_terminal (line "alice" ++ "next")%string)
  = (Done (Some "alice"%string),
     {| Cred.stdin := "next";
        Cred.trace := [] ++ [Cred.EvPrompt "User"; Cred.EvReadStdin] |}).
Proof.
  apply (ReadLine_returns_the_line
           (scripted_world (fun _ => None) None EmptyString) "User" "alice" "next"
           (at_terminal (line "alice" ++ "next")%string)); reflexivity.
Defined.

(** X20.  The two edges of ReadLine.  At the end of [stdin] it returns
    whatever [getline] left in the line buffer -- NULL or a block, as the C
    library has it: [getline_eof], a parameter of the world -- without
    trimming it.  When the input ends without a newline, the trimming cuts
    the last character of the text: typing [l] and [c] and closing the
    input yields [l]. *)
Theorem ReadLine_at_the_end_of_input (w : Cred.world) (title : string)
    (st : Cred.state) :
  (Cred.stdin st = EmptyString ->
   fst (Cred.ReadLine w title st) = Done (Cred.getline_eof w) /\
   Cred.stdin (snd (Cred.ReadLine w title st)) = EmptyString) /\
  (forall l c,
     plain (l ++ String c EmptyString) = true ->
     Cred.stdin st = (l ++ String c EmptyString)%string ->
     fst (Cred.ReadLine w title st) = Done (Some (Cred.c_string l)) /\
     Cred.stdin (snd (Cred.ReadLine w title st)) = EmptyString).
Proof.
  rewrite ReadLine_runs. cbn [fst snd Cred.stdin]. split.
  - intros ->. split; reflexivity.
  - intros l c Hl ->. rewrite trimmed_line_unterminated by assumption.
    split; reflexivity.
Qed.

Lemma ReadLine_at_the_end_of_input_witness :
  fst (Cred.ReadLine (scripted_world (fun _ => None) None EmptyString) "User"
         (at_terminal "alice")) = Done (Some "alic"%string).
Proof.
  exact (proj1 (proj2 (ReadLine_at_the_end_of_input
                         (scripted_world (fun _ => None) None EmptyString)
                         "User" (at_terminal "alice"))
                  "alic"%string "e"%char eq_refl eq_refl)).
Defined.

Lemma ReadLineNoEcho_runs w title st :
  Cred.ReadLineNoEcho w title st
  = if Cred.tcgetattr_ok w && Cred.tcsetattr_ok w then
      let flushed := {| Cred.stdin := Cred.tcflush w (Cred.stdin st);
                        Cred.trace := Cred.trace st |} in
      (fst (Cred.ReadLine w title flushed),
       {| Cred.stdin :=
            Cred.tcflush w (Cred.stdin (snd (Cred.ReadLine w title flushed)));
          Cred.trace := Cred.trace st
                        ++ [Cred.EvTcGetAttr; Cred.EvTcSetAttr false;
                            Cred.EvPrompt title; Cred.EvReadStdin;
                            Cred.EvTcSetAttr true] |})
    else
      (Done None,
       {| Cred.stdin := Cred.stdin st;
          Cred.trace := Cred.trace st
                        ++ Cred.EvTcGetAttr
                           :: (if Cred.tcgetattr_ok w
                               then [Cred.EvTcSetAttr false] else []) |}).
Proof.
  unfold Cred.ReadLineNoEcho, Cred.tcsetattr, Cred.bind, Cred.emit, Cred.ret.
  destruct (Cred.tcgetattr_ok w); cbn [negb andb]; [|reflexivity].
  destruct (Cred.tcsetattr_ok w); cbn [negb Cred.stdin Cred.trace];
    [|rewrite <- app_assoc; reflexivity].
  cbv zeta. rewrite !ReadLine_runs.
  cbn [fst snd Cred.stdin Cred.trace].
  repeat rewrite <- app_assoc. reflexivity.
Qed.

(** X21.  ReadLineNoEcho switches the echo off with [TCSAFLUSH], which
    discards the input received and not yet read; it then reads like
    ReadLine from the input that is left, and switches the echo back on,
    which discards once more what is pending.  When [tcgetattr] or the
    first [tcsetattr] fails it returns NULL and has neither prompted nor
    read nor discarded anything. *)
Theorem ReadLineNoEcho_brackets_the_prompt (w : Cred.world) (title : string)
    (st : Cred.state) :
  let r := Cred.ReadLineNoEcho w title st in
  let flushed := {| Cred.stdin := Cred.tcflush w (Cred.stdin st);
                    Cred.trace := Cred.trace st |} in
  if Cred.tcgetattr_ok w && Cred.tcsetattr_ok w then
    fst r = fst (Cred.ReadLine w title flushed) /\
    Cred.stdin (snd r)
    = Cred.tcflush w (Cred.stdin (snd (Cred.ReadLine w title flushed))) /\
    new_events st (snd r)
      [Cred.EvTcGetAttr; Cred.EvTcSetAttr false; Cred.EvPrompt title;
       Cred.EvReadStdin; Cred.EvTcSetAttr true]
  else
    fst r = Done None /\ Cred.stdin (snd r) = Cred.stdin st /\
    new_events st (snd r)
      (Cred.EvTcGetAttr
       :: if Cred.tcgetattr_ok w then [Cred.EvTcSetAttr false] else []).
Proof.
  intros r flushed. subst r flushed. rewrite ReadLineNoEcho_runs.
  unfold new_events.
  destruct (Cred.tcgetattr_ok w && Cred.tcsetattr_ok w);
    repeat split; reflexivity.
Qed.

Lemma snd_trimmed_line eof s :
  snd (trimmed_line eof s) = snd (Cred.take_line s).
Proof. destruct s; reflexivity. Qed.

(** The run of the auth command for a credential whose two fields are
    NULL, as [ReadUsernameAndPassword] passes it. *)
Lemma RunAuthCommand_runs w st :
  Cred.RunAuthCommand w (Some None) (Some None) st
  = if negb (Cred.pipe_ok w) then
      (Done (-1, Some None, Some None),
       logging st [Cred.EvPipe; Cred.EvLog "Failed to create pipe"])
    else if negb (Cred.fdopen_ok w) then
      (Done (-1, Some None, Some None),
       logging st [Cred.EvPipe; Cred.EvLog "Failed to open output stream"])
    else if Cred.fork_pid w =? -1 then
      (Done (-1, Some None, Some None),
       logging st [Cred.EvPipe; Cred.EvFork; Cred.EvLog "Failed to fork"])
    else if Cred.waitpid_rc w <? 0 then
      (Done (Cred.waitpid_rc w, Some None, Some None),
       logging st (spawning w
                   ++ [Cred.EvLog "Failed to wait for auth script";
                       Cred.EvFclose]))
    else if negb (Cred.wifexited w) then
      (Done (Cred.waitpid_rc w, Some None, Some None),
       logging st (spawning w
                   ++ [Cred.EvLog "Auth script exited with a failure";
                       Cred.EvFclose]))
    else
      let out := command_output w in
      let user := match out with
                  | EmptyString => None
                  | _ => fst (trimmed_line (Cred.getline_eof w) out)
                  end in
      let out1 := snd (Cred.take_line out) in
      let pass := match out1 with
                  | EmptyString => None
                  | _ => fst (trimmed_line (Cred.getline_eof w) out1)
                  end in
      if short_output w then
        (Done (-1, Some user, Some pass),
         logging st (spawning w
                     ++ [Cred.EvReadPipe; Cred.EvReadPipe;
                         Cred.EvLog "Did not get credentials from auth script"]))
      else
        (Done (Cred.waitpid_rc w, Some user, Some pass),
         logging st (spawning w
                     ++ [Cred.EvReadPipe; Cred.EvReadPipe; Cred.EvFclose])).
Proof.
  unfold Cred.RunAuthCommand, logging, spawning, short_output.
  unfold Cred.bind at 1. unfold Cred.emit at 1.
  destruct (Cred.pipe_ok w); cbn [negb];
    [|unfold Cred.bind, Cred.emit, Cred.ret; cbn [Cred.stdin Cred.trace];
      rewrite <- app_assoc; reflexivity].
  destruct (Cred.fdopen_ok w); cbn [negb];
    [|unfold Cred.bind, Cred.emit, Cred.ret; cbn [Cred.stdin Cred.trace];
      rewrite <- app_assoc; reflexivity].
  unfold Cred.bind at 1. unfold Cred.emit at 1.
  destruct (Cred.fork_pid w =? -1);
    [unfold Cred.bind, Cred.emit, Cred.ret; cbn [Cred.stdin Cred.trace];
     repeat rewrite <- app_assoc; reflexivity|].
  unfold Cred.bind at 1. unfold Cred.emit at 1.
  unfold Cred.bind at 1. unfold Cred.emit at 1.
  unfold Cred.bind at 1. unfold Cred.emit at 1.
  cbn [Cred.stdin Cred.trace].
  destruct (Cred.waitpid_rc w <? 0);
    [unfold Cred.bind, Cred.emit, Cred.ret; cbn [Cred.stdin Cred.trace];
     repeat rewrite <- app_assoc; reflexivity|].
  destruct (Cred.wifexited w); cbn [negb];
    [|unfold Cred.bind, Cred.emit, Cred.ret; cbn [Cred.stdin Cred.trace];
      repeat rewrite <- app_assoc; reflexivity].
  fold (shell_of w). fold (command_output w).
  unfold Cred.bind at 1. rewrite read_into_runs.
  unfold Cred.bind at 1. rewrite read_into_runs.
  rewrite snd_trimmed_line.
  cbv zeta.
  destruct (snd (Cred.take_line (command_output w))) as [|c r] eqn:Hrest;
    unfold Cred.bind, Cred.deref, Cred.emit, Cred.ret;
    cbn [Cred.is_set negb Cred.stdin Cred.trace];
    destruct (command_output w) as [|c0 out];
    cbn [Cred.is_set negb Cred.stdin Cred.trace fst snd trimmed_line];
    repeat rewrite <- app_assoc; try reflexivity.
Qed.

Lemma short_output_two_lines w u p rest :
  plain u = true ->
  command_output w = (line u ++ line p ++ rest)%string ->
  short_output w = false /\
  fst (trimmed_line (Cred.getline_eof w) (command_output w)) = Some u /\
  snd (Cred.take_line (command_output w)) = (line p ++ rest)%string.
Proof.
  intros Hu Hout. unfold short_output.
  rewrite <- (snd_trimmed_line (Cred.getline_eof w)).
  rewrite Hout, trimmed_line_line by assumption. cbn [fst snd].
  repeat split. unfold line. rewrite append_assoc.
  destruct p; reflexivity.
Qed.

Lemma RunAuthCommand_two_lines w u p rest st :
  command_ran w -> plain u = true -> plain p = true ->
  command_output w = (line u ++ line p ++ rest)%string ->
  Cred.RunAuthCommand w (Some None) (Some None) st
  = (Done (Cred.waitpid_rc w, Some (Some u), Some (Some p)),
     logging st (spawning w
                 ++ [Cred.EvReadPipe; Cred.EvReadPipe; Cred.EvFclose])).
Proof.
  intros [Hpipe Hfd Hfork Hwait Hexit] Hu Hp Hout.
  rewrite RunAuthCommand_runs, Hpipe, Hfd, Hexit. cbn [negb].
  destruct (Z.eqb_spec (Cred.fork_pid w) (-1)) as [|_]; [contradiction|].
  destruct (Z.ltb_spec (Cred.waitpid_rc w) 0) as [|_]; [lia|].
  destruct (short_output_two_lines w u p rest Hu Hout) as (-> & Huser & ->).
  cbv zeta. rewrite Huser, trimmed_line_line by assumption. cbn [fst].
  assert (Hne : command_output w <> EmptyString).
  { rewrite Hout. unfold line. destruct u; discriminate. }
  destruct (command_output w); [congruence|].
  unfold line. rewrite append_assoc.
  destruct p; reflexivity.
Qed.

(** X22.  The round trip through the auth command: when the command runs
    to its end and prints a user line and a password line (texts free of
    newline and NUL), RunAuthCommand stores the two texts and returns what
    [waitpid] returned, whatever follows the two lines; and
    ReadUsernameAndPassword returns the credential made of them. *)
Theorem auth_command_round_trip (w : Cred.world) (command u p rest : string)
    (st : Cred.state) :
  Cred.auth_command w = Some command ->
  command_ran w -> plain u = true -> plain p = true ->
  command_output w = (line u ++ line p ++ rest)%string ->
  fst (Cred.RunAuthCommand w (Some None) (Some None) st)
  = Done (Cred.waitpid_rc w, Some (Some u), Some (Some p)) /\
  fst (Cred.ReadUsernameAndPassword w st)
  = Done (Some {| Cred.username := Some u; Cred.password := Some p |}).
Proof.
  intros Hcmd Hran Hu Hp Hout.
  pose proof (RunAuthCommand_two_lines w u p rest st Hran Hu Hp Hout) as Hrun.
  split; [rewrite Hrun; reflexivity|].
  unfold Cred.ReadUsernameAndPassword. rewrite Hcmd.
  unfold Cred.bind. rewrite Hrun.
  destruct (Z.ltb_spec (Cred.waitpid_rc w) 0) as [Hneg|_];
    [destruct Hran; lia|].
  reflexivity.
Qed.

Lemma auth_command_round_trip_witness :
  let w := scripted_world (fun _ => None) (Some "pass show vnc"%string)
             (line "alice" ++ line "secret" ++ "ignored")%string in
  fst (Cred.RunAuthCommand w (Some None) (Some None) (at_terminal EmptyString))
  = Done (4242, Some (Some "alice"%string), Some (Some "secret"%string)) /\
  fst (Cred.ReadUsernameAndPassword w (at_terminal EmptyString))
  = Done (Some {| Cred.username := Some "alice"%string;
                  Cred.password := Some "secret"%string |}).
Proof.
  intros w.
  apply (auth_command_round_trip w "pass show vnc" "alice" "secret" "ignored"
           (at_terminal EmptyString)); try reflexivity.
  constructor; simpl; (reflexivity || lia).
Defined.

(** X23.  The return code of RunAuthCommand, called for both fields: it is
    negative exactly when the process control failed ([pipe], [fdopen],
    [fork] or [waitpid]) or when the command exited normally and its output
    lacks the second line.  A command that did not exit normally (killed by
    a signal) is logged, but the code returned is the non-negative one of
    [waitpid]. *)
Theorem RunAuthCommand_failure_code (w : Cred.world) (st : Cred.state) :
  exists rc user pass,
    fst (Cred.RunAuthCommand w (Some None) (Some None) st)
    = Done (rc, user, pass) /\
    (rc < 0 <-> spawn_failed w = true \/
                (Cred.wifexited w = true /\ short_output w = true)).
Proof.
  rewrite RunAuthCommand_runs. unfold spawn_failed.
  destruct (Cred.pipe_ok w); cbn [negb orb];
    [|do 3 eexists; split; [reflexivity|]; split; [auto|lia]].
  destruct (Cred.fdopen_ok w); cbn [negb orb];
    [|do 3 eexists; split; [reflexivity|]; split; [auto|lia]].
  destruct (Cred.fork_pid w =? -1); cbn [orb];
    [do 3 eexists; split; [reflexivity|]; split; [auto|lia]|].
  destruct (Z.ltb_spec (Cred.waitpid_rc w) 0) as [Hneg | Hpos];
    [do 3 eexists; split; [reflexivity|]; split; [auto|lia]|].
  destruct (Cred.wifexited w); cbn [negb].
  - cbv zeta. destruct (short_output w);
      do 3 eexists; (split; [reflexivity|]); split;
      try (intros; lia); try (intros; auto);
      intuition discriminate.
  - do 3 eexists; split; [reflexivity|]. split; [lia|].
    intuition discriminate.
Qed.

(** X24.  The stream that [fdopen] opened on the pipe is closed on the
    paths that leave through the label [out], and on no other: it stays
    open when [fork] fails and when the output lacks the second line
    (both return -1 directly). *)
Theorem RunAuthCommand_closes_the_stream (w : Cred.world) (st : Cred.state) :
  exists evs,
    new_events st (snd (Cred.RunAuthCommand w (Some None) (Some None) st)) evs /\
    (In Cred.EvFclose evs
     <-> Cred.pipe_ok w = true /\ Cred.fdopen_ok w = true /\
         Cred.fork_pid w <> -1 /\
         (Cred.waitpid_rc w < 0 \/ Cred.wifexited w = false \/
          short_output w = false)).
Proof.
  rewrite RunAuthCommand_runs. unfold new_events, logging, spawning.
  destruct (Cred.pipe_ok w); cbn [negb];
    [|eexists; split; [reflexivity|]; simpl; intuition discriminate].
  destruct (Cred.fdopen_ok w); cbn [negb];
    [|eexists; split; [reflexivity|]; simpl; intuition discriminate].
  destruct (Z.eqb_spec (Cred.fork_pid w) (-1)) as [Hfork | Hfork];
    [eexists; split; [reflexivity|]; simpl; intuition (discriminate || lia)|].
  destruct (Z.ltb_spec (Cred.waitpid_rc w) 0) as [Hneg | Hpos];
    [eexists; split; [reflexivity|]; simpl; intuition (discriminate || lia)|].
  destruct (Cred.wifexited w); cbn [negb];
    [|eexists; split; [reflexivity|]; simpl; intuition (discriminate || lia)].
  cbv zeta. destruct (short_output w);
    (eexists; split; [reflexivity|]); simpl;
    intuition (discriminate || lia).
Qed.

(** X25.  An auth command that does not exit normally: RunAuthCommand
    stores nothing and returns the code of [waitpid], so that
    ReadUsernameAndPassword returns a credential -- not NULL -- whose
    username and password are both NULL. *)
Theorem abnormal_exit_yields_empty_credential (w : Cred.world)
    (command : string) (st : Cred.state) :
  Cred.auth_command w = Some command ->
  Cred.pipe_ok w = true -> Cred.fdopen_ok w = true ->
  Cred.fork_pid w <> -1 -> 0 <= Cred.waitpid_rc w ->
  Cred.wifexited w = false ->
  fst (Cred.ReadUsernameAndPassword w st)
  = Done (Some {| Cred.username := None; Cred.password := None |}).
Proof.
  intros Hcmd Hpipe Hfd Hfork Hwait Hexit.
  unfold Cred.ReadUsernameAndPassword. rewrite Hcmd.
  unfold Cred.bind. rewrite RunAuthCommand_runs, Hpipe, Hfd, Hexit.
  cbn [negb].
  destruct (Z.eqb_spec (Cred.fork_pid w) (-1)) as [|_]; [contradiction|].
  destruct (Z.ltb_spec (Cred.waitpid_rc w) 0) as [|_]; [lia|].
  destruct (Z.ltb_spec (Cred.waitpid_rc w) 0) as [|_]; [lia|].
  reflexivity.
Qed.

Lemma abnormal_exit_yields_empty_credential_witness :
  fst (Cred.ReadUsernameAndPassword
         {| Cred.auth_command := Some "pass show vnc"%string;
            Cred.getenv := fun _ => None;
            Cred.pipe_ok := true; Cred.fdopen_ok := true;
            Cred.fork_pid := 4242; Cred.waitpid_rc := 4242;
            Cred.wifexited := false; Cred.wexitstatus := 0;
            Cred.child_stdout := fun _ _ => EmptyString;
            Cred.getline_eof := None;
            Cred.tcgetattr_ok := true; Cred.tcsetattr_ok := true;
            Cred.tcflush := fun pending => pending |}
         (at_terminal EmptyString))
  = Done (Some {| Cred.username := None; Cred.password := None |}).
Proof.
  apply (abnormal_exit_yields_empty_credential _ "pass show vnc"%string);
    simpl; (reflexivity || lia).
Defined.

Lemma ReadPassword_with_auth_command w command st :
  Cred.auth_command w = Some command ->
  fst (Cred.ReadPassword w st)
  = if spawn_failed w then Done None
    else if Cred.wifexited w then Fault else Done None.
Proof.
  intros Hcmd. unfold Cred.ReadPassword, spawn_failed. rewrite Hcmd.
  unfold Cred.RunAuthCommand, Cred.bind, Cred.emit, Cred.ret.
  destruct (Cred.pipe_ok w); cbn [negb orb]; [|reflexivity].
  destruct (Cred.fdopen_ok w); cbn [negb orb]; [|reflexivity].
  destruct (Cred.fork_pid w =? -1); cbn [orb]; [reflexivity|].
  destruct (Cred.waitpid_rc w <? 0) eqn:Hrc; [rewrite Hrc; reflexivity|].
  destruct (Cred.wifexited w); cbn [negb]; [|rewrite Hrc; reflexivity].
  unfold Cred.read_into, Cred.bind, Cred.emit, Cred.ret.
  destruct (Cred.getline _ _) as [[len ln] rest].
  destruct (len >? 0); reflexivity.
Qed.

(** X26.  ReadPassword with an auth command configured.  When [pipe],
    [fdopen], [fork] or [waitpid] fails, or when the command does not exit
    normally, it returns NULL.  In every other case, whatever the command
    printed, the run reaches the test
    [( *username && ! *username) || ! *password] of RunAuthCommand with
    [username] NULL and reads through it: undefined behaviour in C, a
    [Fault] of this model, which says nothing about what a build does
    after that access. *)
Theorem ReadPassword_reads_through_NULL (w : Cred.world) (command : string)
    (st : Cred.state) :
  Cred.auth_command w = Some command ->
  fst (Cred.ReadPassword w st)
  = if spawn_failed w || negb (Cred.wifexited w) then Done None else Fault.
Proof.
  intros Hcmd. rewrite (ReadPassword_with_auth_command w command st Hcmd).
  destruct (spawn_failed w), (Cred.wifexited w); reflexivity.
Qed.

Lemma ReadPassword_reads_through_NULL_witness :
  fst (Cred.ReadPassword
         (scripted_world (fun _ => None) (Some "pass show vnc"%string)
            (line "secret"))
         (at_terminal EmptyString)) = Fault.
Proof.
  apply (ReadPassword_reads_through_NULL
           (scripted_world (fun _ => None) (Some "pass show vnc"%string)
              (line "secret"))
           "pass show vnc"%string (at_terminal EmptyString) eq_refl).
Defined.

(** X27.  Without an auth command and with both VNC_USERNAME and
    VNC_PASSWORD set, ReadUsernameAndPassword takes the credential from the
    environment: it neither prompts nor reads [stdin], changes no terminal
    setting and spawns no process. *)
Theorem ReadUsernameAndPassword_from_environment (w : Cred.world)
    (u p : string) (st : Cred.state) :
  Cred.auth_command w = None ->
  Cred.getenv w "VNC_USERNAME" = Some u ->
  Cred.getenv w "VNC_PASSWORD" = Some p ->
  Cred.ReadUsernameAndPassword w st
  = (Done (Some {| Cred.username := Some (Cred.c_string u);
                   Cred.password := Some (Cred.c_string p) |}),
     logging st
       [Cred.EvGetenv "VNC_USERNAME"; Cred.EvGetenv "VNC_PASSWORD";
        Cred.EvLog "Using username and password for VNC authentication 'VNC_USERNAME', 'VNC_PASSWORD'"]).
Proof.
  intros Hcmd Hu Hp. unfold Cred.ReadUsernameAndPassword.
  rewrite Hcmd, Hu, Hp.
  unfold Cred.bind, Cred.emit, Cred.ret, logging.
  cbn [Cred.stdin Cred.trace Cred.username Cred.password Cred.is_set negb orb].
  repeat rewrite <- app_assoc. reflexivity.
Qed.

Lemma ReadUsernameAndPassword_from_environment_witness :
  fst (Cred.ReadUsernameAndPassword (scripted_world vnc_env None EmptyString)
         (at_terminal (line "typed")))
  = Done (Some {| Cred.username := Some "bob"%string;
                  Cred.password := Some "hunter2"%string |}).
Proof.
  rewrite (ReadUsernameAndPassword_from_environment
             (scripted_world vnc_env None EmptyString) "bob" "hunter2"
             (at_terminal (line "typed")) eq_refl eq_refl eq_refl).
  reflexivity.
Defined.

(** X28.  Without an auth command and with one of the two variables
    missing, both texts are asked for at the terminal, the one that is set
    being ignored.  With a working terminal: the user name is the first
    line of [stdin]; what is pending behind it when the echo is switched
    off is discarded, and the password is the line that arrives then; what
    is pending when the echo is switched back on is discarded as well. *)
Theorem ReadUsernameAndPassword_at_the_terminal (w : Cred.world)
    (u ahead p rest : string) (st : Cred.state) :
  Cred.auth_command w = None ->
  Cred.getenv w "VNC_USERNAME" = None \/ Cred.getenv w "VNC_PASSWORD" = None ->
  Cred.tcgetattr_ok w = true -> Cred.tcsetattr_ok w = true ->
  plain u = true -> plain p = true ->
  Cred.stdin st = (line u ++ ahead)%string ->
  Cred.tcflush w ahead = (line p ++ rest)%string ->
  Cred.ReadUsernameAndPassword w st
  = (Done (Some {| Cred.username := Some u; Cred.password := Some p |}),
     {| Cred.stdin := Cred.tcflush w rest;
        Cred.trace :=
          Cred.trace st
          ++ [Cred.EvGetenv "VNC_USERNAME"; Cred.EvGetenv "VNC_PASSWORD";
              Cred.EvPrompt "User"; Cred.EvReadStdin;
              Cred.EvTcGetAttr; Cred.EvTcSetAttr false;
              Cred.EvPrompt "Password"; Cred.EvReadStdin;
              Cred.EvTcSetAttr true] |}).
Proof.
  intros Hcmd Henv Hget Hset Hu Hp Hin Hflush.
  unfold Cred.ReadUsernameAndPassword. rewrite Hcmd.
  assert (Hask :
    match Cred.getenv w "VNC_USERNAME", Cred.getenv w "VNC_PASSWORD" with
    | Some user, Some pass =>
        Cred.bind
          (Cred.emit (Cred.EvLog "Using username and password for VNC authentication 'VNC_USERNAME', 'VNC_PASSWORD'"))
          (fun _ => Cred.ret {| Cred.username := Some (Cred.c_string user);
                                Cred.password := Some (Cred.c_string pass) |})
    | _, _ =>
        Cred.bind (Cred.ReadLine w "User")
          (fun user =>
             Cred.bind (Cred.ReadLineNoEcho w "Password")
               (fun pass => Cred.ret {| Cred.username := user;
                                        Cred.password := pass |}))
    end
    = Cred.bind (Cred.ReadLine w "User")
        (fun user =>
           Cred.bind (Cred.ReadLineNoEcho w "Password")
             (fun pass => Cred.ret {| Cred.username := user;
                                      Cred.password := pass |}))).
  { destruct Henv as [-> | ->]; [reflexivity|].
    destruct (Cred.getenv w "VNC_USERNAME"); reflexivity. }
  rewrite Hask.
  unfold Cred.bind at 1. unfold Cred.emit at 1.
  unfold Cred.bind at 1. unfold Cred.emit at 1.
  unfold Cred.bind at 1. unfold Cred.bind at 1.
  rewrite (ReadLine_line w "User" u ahead) by (assumption || exact Hin).
  unfold Cred.bind at 1.
  rewrite ReadLineNoEcho_runs, Hget, Hset. cbn [andb]. cbv zeta.
  rewrite (ReadLine_line w "Password" p rest)
    by (assumption || (cbn [Cred.stdin]; exact Hflush)).
  unfold Cred.ret.
  cbn [fst snd Cred.stdin Cred.trace Cred.username Cred.password
       Cred.is_set negb orb].
  repeat rewrite <- app_assoc. reflexivity.
Qed.

Lemma ReadUsernameAndPassword_at_the_terminal_witness :
  Cred.ReadUsernameAndPassword impatient_terminal
    (at_terminal (line "alice" ++ line "typed ahead" ++ line "secret"
                  ++ line "typed too soon" ++ "later")%string)
  = (Done (Some {| Cred.username := Some "alice"%string;
                   Cred.password := Some "secret"%string |}),
     {| Cred.stdin := "later";
        Cred.trace :=
          [] ++ [Cred.EvGetenv "VNC_USERNAME"; Cred.EvGetenv "VNC_PASSWORD";
                 Cred.EvPrompt "User"; Cred.EvReadStdin;
                 Cred.EvTcGetAttr; Cred.EvTcSetAttr false;
                 Cred.EvPrompt "Password"; Cred.EvReadStdin;
                 Cred.EvTcSetAttr true] |}).
Proof.
  apply (ReadUsernameAndPassword_at_the_terminal impatient_terminal
           "alice"
           (line "typed ahead" ++ line "secret" ++ line "typed too soon"
            ++ "later")%string
           "secret" (line "typed too soon" ++ "later")%string
           (at_terminal (line "alice" ++ line "typed ahead" ++ line "secret"
                         ++ line "typed too soon" ++ "later")%string));
    first [reflexivity | left; reflexivity].
Defined.

(** X29.  The dispatch of the credential requests, for two distinct
    request types.  A credential that GetCredentials returns is of the kind
    asked for.  A request of any other type yields NULL without any
    interaction.  A request for X509 credentials never runs the auth
    command nor touches the terminal, whatever the world: it yields NULL
    exactly when the CA file -- [tls_cert_path], or /etc/ssl/cert.pem when
    that is NULL -- is not there, and otherwise a credential naming that
    file. *)
Theorem GetCredentials_dispatch (w : Cred.world)
    (tls_cert_path : option string) (access : string -> bool)
    (rfbCredentialTypeUser rfbCredentialTypeX509 type : Z) (st : Cred.state) :
  rfbCredentialTypeUser <> rfbCredentialTypeX509 ->
  let run := GetCredentials w tls_cert_path access
               rfbCredentialTypeUser rfbCredentialTypeX509 type st in
  let ca_cert := match tls_cert_path with
                 | Some path => path
                 | None => default_ca_cert
                 end in
  (forall r, fst run = Done r ->
     match r with
     | None => True
     | Some (UserCredential _) => type = rfbCredentialTypeUser
     | Some (X509Credential file) =>
         type = rfbCredentialTypeX509 /\ file = Some (Cred.c_string ca_cert)
     end) /\
  (type <> rfbCredentialTypeUser -> type <> rfbCredentialTypeX509 ->
   run = (Done None, st)) /\
  (type = rfbCredentialTypeX509 ->
   fst run = Done (if access ca_cert
                   then Some (X509Credential (Some (Cred.c_string ca_cert)))
                   else None) /\
   Cred.stdin (snd run) = Cred.stdin st /\
   forall w', GetCredentials w' tls_cert_path access
                rfbCredentialTypeUser rfbCredentialTypeX509 type st = run).
Proof.
  intros Hdistinct run ca_cert. subst run. unfold GetCredentials.
  destruct (Z.eqb_spec type rfbCredentialTypeUser) as [HU | HU].
  - split; [|split; [intros; contradiction|intros HX; congruence]].
    intros r. unfold Cred.bind, Cred.ret.
    destruct (Cred.ReadUsernameAndPassword w st) as [[cred| |] st1];
      cbn [fst]; intros Hr; try discriminate. injection Hr as <-.
    destruct cred; [exact HU|exact I].
  - destruct (Z.eqb_spec type rfbCredentialTypeX509) as [HX | HX].
    + unfold ReadX509Creds. fold ca_cert.
      destruct (access ca_cert) eqn:Hacc; cbn [negb].
      * split; [|split; [intros; contradiction|]].
        -- intros r Hr. injection Hr as <-. auto.
        -- intros _. repeat split; reflexivity.
      * split; [|split; [intros; contradiction|]].
        -- intros r Hr. injection Hr as <-. exact I.
        -- intros _. repeat split; reflexivity.
    + split; [|split; [reflexivity|intros; contradiction]].
      intros r Hr. injection Hr as <-. exact I.
Qed.

Lemma GetCredentials_dispatch_witness :
  fst (GetCredentials (scripted_world vnc_env (Some "pass show vnc"%string)
                         EmptyString)
         (Some "/etc/ca.pem"%string) (fun _ => true) 2 1 1
         (at_terminal (line "typed")))
  = Done (Some (X509Credential (Some "/etc/ca.pem"%string))).
Proof.
  destruct (GetCredentials_dispatch
              (scripted_world vnc_env (Some "pass show vnc"%string) EmptyString)
              (Some "/etc/ca.pem"%string) (fun _ => true) 2 1 1
              (at_terminal (line "typed")) ltac:(lia))
    as (_ & _ & Hx509).
  destruct (Hx509 eq_refl) as (Hrun & _). exact Hrun.
Defined.
